(** * Duplicate certificate identifier: a shallow embedding

    The two scripts [cert_duplicate_identifier_memory_scalable.py] (the
    disk-resident strategy) and [cert_duplicate_identifier_runtime_optimized.py]
    (the memory-resident strategy) are embedded as Rocq functions over
    byte lists, Python text (lists of code points) and a flat file system.

    Conventions: CPython 3.7 or later on a POSIX system whose preferred
    encoding is UTF-8 (dictionaries iterate in insertion order, text files
    are decoded as UTF-8 with universal newlines, ["\n"] is written as one
    byte). *)

From Stdlib Require Import List Bool Arith Lia NArith ZArith QArith String Ascii.
From Stdlib Require Import Strings.Byte DecimalString DecimalNat Permutation.
Import ListNotations.
Close Scope Q_scope.

Set Implicit Arguments.
Set Warnings "-register-all".
Unset Strict Implicit.

(* ================================================================== *)
(** ** Bytes and text *)

(** [bytes] is the type of Python [bytes] objects and of file contents;
    [text] is the type of Python [str] objects, one code point per item. *)
Definition bytes := list byte.
Definition text := list N.

Definition cp (a : ascii) : N := N_of_ascii a.

Definition text_of_string (s : string) : text :=
  map cp (list_ascii_of_string s).

Definition bytes_of_string (s : string) : bytes :=
  list_byte_of_string s.

Definition b2n (b : byte) : N := Byte.to_N b.

Definition n2b (n : N) : byte :=
  match Byte.of_N n with Some b => b | None => x00 end.

Definition text_eqb (a b : text) : bool :=
  if list_eq_dec N.eq_dec a b then true else false.

(** *** UTF-8, strict, as the codec of CPython does it *)

Definition in_range (lo hi n : N) : bool := (lo <=? n)%N && (n <=? hi)%N.

Definition cont (b : byte) : bool := in_range 128 191 (b2n b).

Definition low6 (b : byte) : N := (b2n b - 128)%N.

(** [utf8_decode bs] is [bs.decode()]: [None] stands for
    [UnicodeDecodeError].  Overlong forms, surrogates and code points above
    U+10FFFF are refused. *)
Fixpoint utf8_decode (bs : bytes) : option text :=
  match bs with
  | [] => Some []
  | b0 :: r0 =>
    let n0 := b2n b0 in
    if (n0 <? 128)%N then option_map (cons n0) (utf8_decode r0)
    else match r0 with
    | [] => None
    | b1 :: r1 =>
      if in_range 194 223 n0 then
        if cont b1
        then option_map (cons ((n0 - 192) * 64 + low6 b1)%N) (utf8_decode r1)
        else None
      else match r1 with
      | [] => None
      | b2 :: r2 =>
        if in_range 224 239 n0 then
          if in_range (if (n0 =? 224)%N then 160 else 128)
                      (if (n0 =? 237)%N then 159 else 191) (b2n b1)
             && cont b2
          then option_map
                 (cons ((n0 - 224) * 4096 + low6 b1 * 64 + low6 b2)%N)
                 (utf8_decode r2)
          else None
        else match r2 with
        | [] => None
        | b3 :: r3 =>
          if in_range 240 244 n0 then
            if in_range (if (n0 =? 240)%N then 144 else 128)
                        (if (n0 =? 244)%N then 143 else 191) (b2n b1)
               && cont b2 && cont b3
            then option_map
                   (cons ((n0 - 240) * 262144 + low6 b1 * 4096
                          + low6 b2 * 64 + low6 b3)%N)
                   (utf8_decode r3)
            else None
          else None
        end
      end
    end
  end.

(** One code point to UTF-8; [None] stands for [UnicodeEncodeError]
    (a surrogate, which a JSON escape can produce). *)
Definition utf8_encode1 (c : N) : option bytes :=
  if (c <? 128)%N then Some [n2b c]
  else if (c <? 2048)%N then
    Some [n2b (192 + c / 64); n2b (128 + c mod 64)]
  else if in_range 55296 57343 c then None
  else if (c <? 65536)%N then
    Some [n2b (224 + c / 4096); n2b (128 + (c / 64) mod 64);
          n2b (128 + c mod 64)]
  else if (c <? 1114112)%N then
    Some [n2b (240 + c / 262144); n2b (128 + (c / 4096) mod 64);
          n2b (128 + (c / 64) mod 64); n2b (128 + c mod 64)]
  else None.

Fixpoint utf8_encode (t : text) : option bytes :=
  match t with
  | [] => Some []
  | c :: r =>
    match utf8_encode1 c, utf8_encode r with
    | Some bs, Some rs => Some (bs ++ rs)
    | _, _ => None
    end
  end.

(** *** Universal newlines

    A text file opened with [newline=None] hands out ["\r\n"] and a lone
    ["\r"] as ["\n"]. *)
Fixpoint translate_newlines (t : text) : text :=
  match t with
  | [] => []
  | c :: r =>
    if (c =? 13)%N then
      10%N :: match r with
              | [] => []
              | d :: r' => if (d =? 10)%N then translate_newlines r'
                           else translate_newlines r
              end
    else c :: translate_newlines r
  end.

(** *** [str.rstrip] *)

(** [str.isspace] on one code point: the characters [str.rstrip()]
    removes. *)
Definition py_isspace (c : N) : bool :=
  in_range 9 13 c || in_range 28 32 c || (c =? 133)%N || (c =? 160)%N
  || (c =? 5760)%N || in_range 8192 8202 c || in_range 8232 8233 c
  || (c =? 8239)%N || (c =? 8287)%N || (c =? 12288)%N.

Fixpoint drop_while (A : Type) (p : A -> bool) (l : list A) : list A :=
  match l with
  | [] => []
  | x :: r => if p x then drop_while p r else l
  end.

Definition rstrip_by (p : N -> bool) (t : text) : text :=
  rev (drop_while p (rev t)).

(** [t.rstrip()] *)
Definition rstrip (t : text) : text := rstrip_by py_isspace t.

(** [t.rstrip(',')] *)
Definition rstrip_comma (t : text) : text :=
  rstrip_by (fun c => (c =? cp ",")%N) t.

(* ================================================================== *)
(** ** Python values *)

(** The hashable scalars [ijson] can yield: they are the possible keys of
    [finger_print_map].  [KDecimal neg c e] is the [decimal.Decimal]
    with sign [neg], coefficient [c] and exponent [e], which [ijson]
    builds for a JSON number written with a fraction or an exponent. *)
Inductive pykey : Type :=
  | KNone
  | KBool (b : bool)
  | KInt (z : Z)
  | KDecimal (neg : bool) (coeff : N) (exp : Z)
  | KStr (s : text).

(** The objects [ijson.items] builds. A [PyDict] keeps the members in
    source order; a repeated member name is resolved by [getitem]. *)
Inductive pyval : Type :=
  | PyScalar (k : pykey)
  | PyList (l : list pyval)
  | PyDict (d : list (text * pyval)).

(** [hash(v)]: lists and dictionaries raise [TypeError]. *)
Definition py_hash (v : pyval) : option pykey :=
  match v with
  | PyScalar k => Some k
  | PyList _ | PyDict _ => None
  end.

(** The numeric value of a number or a boolean. *)
Definition py_number (k : pykey) : option Q :=
  match k with
  | KBool b => Some (inject_Z (if b then 1 else 0))
  | KInt z => Some (inject_Z z)
  | KDecimal neg c e =>
    Some (inject_Z (if neg then - Z.of_N c else Z.of_N c)
          * Qpower (inject_Z 10) e)%Q
  | KNone | KStr _ => None
  end.

(** Key equality of a [dict]: [==] between hashable scalars, under which
    [1], [True] and [Decimal('1.0')] are one key. *)
Definition py_eqb (a b : pykey) : bool :=
  match a, b with
  | KNone, KNone => true
  | KStr s, KStr t => text_eqb s t
  | _, _ =>
    match py_number a, py_number b with
    | Some x, Some y => Qeq_bool x y
    | _, _ => false
    end
  end.

Definition text_of_Z (z : Z) : text :=
  text_of_string (NilEmpty.string_of_int (Z.to_int z)).

Definition text_of_N (n : N) : text :=
  text_of_string (NilEmpty.string_of_uint (N.to_uint n)).

(** [str(Decimal)], the scientific-string conversion of the [decimal]
    module. *)
Definition decimal_str (neg : bool) (c : N) (e : Z) : text :=
  let digits := text_of_N c in
  let len := Z.of_nat (List.length digits) in
  let leftdigits := (e + len)%Z in
  let dotplace :=
    if (e <=? 0)%Z && (-6 <? leftdigits)%Z then leftdigits else 1%Z in
  let zeros (n : Z) := repeat (cp "0") (Z.to_nat n) in
  let body :=
    if (dotplace <=? 0)%Z then
      text_of_string "0." ++ zeros (- dotplace)%Z ++ digits
    else if (len <=? dotplace)%Z then digits ++ zeros (dotplace - len)%Z
    else firstn (Z.to_nat dotplace) digits ++ [cp "."]
         ++ skipn (Z.to_nat dotplace) digits in
  let d := (leftdigits - dotplace)%Z in
  let expo :=
    if (d =? 0)%Z then []
    else cp "E" :: (if (0 <=? d)%Z then [cp "+"] else []) ++ text_of_Z d in
  (if neg then [cp "-"] else []) ++ body ++ expo.

(** ['%s' % k] *)
Definition py_format (k : pykey) : text :=
  match k with
  | KNone => text_of_string "None"
  | KBool true => text_of_string "True"
  | KBool false => text_of_string "False"
  | KInt z => text_of_Z z
  | KDecimal neg c e => decimal_str neg c e
  | KStr s => s
  end.

(** [v[key]] for a string [key]: the last member of that name in a
    dictionary, [KeyError] without one, [TypeError] on anything else;
    both are [None] here. *)
Fixpoint dict_last (key : text) (d : list (text * pyval)) : option pyval :=
  match d with
  | [] => None
  | (k, v) :: r =>
    match dict_last key r with
    | Some w => Some w
    | None => if text_eqb k key then Some v else None
    end
  end.

Definition getitem (v : pyval) (key : text) : option pyval :=
  match v with
  | PyDict d => dict_last key d
  | PyScalar _ | PyList _ => None
  end.

(** *** Dictionaries

    A [dict] in insertion order.  Storing under a key that is present
    keeps the key object and its place and replaces the value. *)
Definition dict (V : Type) := list (pykey * V).

Fixpoint dict_get (V : Type) (k : pykey) (d : dict V) : option V :=
  match d with
  | [] => None
  | (k', v) :: r => if py_eqb k' k then Some v else dict_get k r
  end.

Fixpoint dict_set (V : Type) (k : pykey) (v : V) (d : dict V) : dict V :=
  match d with
  | [] => [(k, v)]
  | (k', v') :: r =>
    if py_eqb k' k then (k', v) :: r else (k', v') :: dict_set k v r
  end.

(* ================================================================== *)
(** ** Errors, the file system and the effect monad *)

Inductive error : Type :=
  | InputNotFound        (* Exception('Input file does not exists') *)
  | IjsonError           (* raised by ijson on a line it cannot parse *)
  | IndexError           (* [0] on an empty list of items *)
  | LookupError          (* ['fingerprint']: KeyError or TypeError *)
  | Unhashable           (* TypeError: unhashable type *)
  | UnicodeDecodeError
  | UnicodeEncodeError
  | FileNotFoundError
  | TypeError
  | ValueError           (* negative seek position *)
  | LoopBound.           (* the bound of the embedded loop, never reached *)

Inductive result (A : Type) : Type :=
  | Ok (a : A)
  | Raise (e : error).
Arguments Raise {A} e.

(** A flat file system: paths, compared as strings, with their contents,
    in order of creation.  Directories are not represented. *)
Definition filesystem := list (string * bytes).

(** Effectful code: the file system is threaded and survives an
    exception. *)
Definition M (A : Type) := filesystem -> filesystem * result A.

Definition ret (A : Type) (a : A) : M A := fun fs => (fs, Ok a).
Definition raise (A : Type) (e : error) : M A := fun fs => (fs, Raise e).
Arguments raise {A} e.
Definition bind (A B : Type) (m : M A) (k : A -> M B) : M B :=
  fun fs =>
    match m fs with
    | (fs', Ok a) => k a fs'
    | (fs', Raise e) => (fs', Raise e)
    end.

Notation "x <- m ;; k" := (bind m (fun x => k))
  (at level 61, m at next level, right associativity).
Notation "m ;;; k" := (bind m (fun _ => k))
  (at level 61, right associativity).

Definition lift (A : Type) (e : error) (o : option A) : M A :=
  match o with Some a => ret a | None => raise e end.

Fixpoint fs_lookup (p : string) (fs : filesystem) : option bytes :=
  match fs with
  | [] => None
  | (q, c) :: r => if String.eqb q p then Some c else fs_lookup p r
  end.

Fixpoint fs_store (p : string) (c : bytes) (fs : filesystem) : filesystem :=
  match fs with
  | [] => [(p, c)]
  | (q, d) :: r =>
    if String.eqb q p then (q, c) :: r else (q, d) :: fs_store p c r
  end.

Fixpoint strip_prefix (p s : string) : option string :=
  match p with
  | EmptyString => Some s
  | String a p' =>
    match s with
    | EmptyString => None
    | String b s' => if Ascii.eqb a b then strip_prefix p' s' else None
    end
  end.

Fixpoint ends_with (e s : string) : bool :=
  String.eqb s e ||
  match s with
  | EmptyString => false
  | String _ s' => ends_with e s'
  end.

Fixpoint has_slash (s : string) : bool :=
  match s with
  | EmptyString => false
  | String a s' => Ascii.eqb a "/" || has_slash s'
  end.

(** The name of [p] inside [dir], when [p] lies under [dir]. *)
Definition under (dir p : string) : option string :=
  strip_prefix (dir ++ "/") p.

(** [shutil.rmtree(directory)]: every file under [directory] goes. *)
Definition rmtree (dir : string) (fs : filesystem) : filesystem :=
  filter (fun e => match under dir (fst e) with
                   | Some _ => false | None => true end) fs.

(** Writing [data] at byte position [pos] of a file holding [old]; the
    file is not truncated.  (Positions past the end do not occur.) *)
Definition overwrite_at (pos : nat) (data old : bytes) : bytes :=
  firstn pos old ++ data ++ skipn (pos + List.length data) old.

(** [open(path, 'r')], [seek(start)], [read(length)] on the input file:
    the bytes from [start] on are decoded, newlines are translated and
    [length] CHARACTERS are handed out. *)
Definition text_read (input : bytes) (start length : nat) : option text :=
  option_map (fun t => firstn length (translate_newlines t))
             (utf8_decode (skipn start input)).

(* ================================================================== *)
(** ** What the two scripts share *)

Definition JSONLINE_EXTENSION : string := ".jsonline".

Definition get_file_path (directory filename extension : string) : string :=
  directory ++ "/" ++ filename ++ extension.

(** Both branches of [clean_and_create_directory] leave an empty
    directory. *)
Definition clean_and_create_directory (directory : string) : M unit :=
  fun fs => (rmtree directory fs, Ok tt).

Definition clean_directory (directory : string) : M unit :=
  fun fs => (rmtree directory fs, Ok tt).

(** [str(count)] *)
Definition str_nat (n : nat) : string :=
  NilEmpty.string_of_uint (Nat.to_uint n).

(** The double quote, code point 34. *)
Definition dq : N := 34%N.

(** ['{"fingerprint": "%s", "certificates": [' % finger_print] *)
Definition group_header (finger_print : pykey) : text :=
  text_of_string "{" ++ [dq] ++ text_of_string "fingerprint" ++ [dq]
  ++ text_of_string ": " ++ [dq] ++ py_format finger_print ++ [dq]
  ++ text_of_string ", " ++ [dq] ++ text_of_string "certificates" ++ [dq]
  ++ text_of_string ": [".

Definition comma : text := [cp ","].

(** The closing [']}' + "\n"]: three characters, three bytes. *)
Definition sentinel : text := [cp "]"; cp "}"; 10%N].

(** [fp.readline()] of the binary handle at byte position [pos]: up to
    and including the next line feed, or up to the end of the file. *)
Fixpoint take_line (bs : bytes) : bytes :=
  match bs with
  | [] => []
  | b :: r => if Byte.eqb b x0a then [b] else b :: take_line r
  end.

Definition readline (input : bytes) (pos : nat) : bytes :=
  take_line (skipn pos input).

(** File objects. *)

(** [open(path, 'w')] and [open(path, 'wb')]: created or truncated. *)
Definition open_w (path : string) : M unit :=
  fun fs => (fs_store path [] fs, Ok tt).

(** [fp.write(t)] of a text handle on [path] at byte position [pos],
    followed by [fp.tell()]. *)
Definition write_text (path : string) (pos : nat) (t : text) : M nat :=
  fun fs =>
    match utf8_encode t, fs_lookup path fs with
    | None, _ => (fs, Raise UnicodeEncodeError)
    | _, None => (fs, Raise FileNotFoundError)
    | Some data, Some old =>
      (fs_store path (overwrite_at pos data old) fs,
       Ok (pos + List.length data))
    end.

(** [open(path, 'r+')] and [open(path, 'rb')] want the file to exist;
    the content is returned. *)
Definition open_r (path : string) : M bytes :=
  fun fs =>
    match fs_lookup path fs with
    | Some c => (fs, Ok c)
    | None => (fs, Raise FileNotFoundError)
    end.

Section Extraction.

  (** [ijson_items line] is
      [list(ijson.items(io.BytesIO(line), 'data.leaf_cert'))]: the objects
      found at that path, or [None] when [ijson] raises. The library is
      not part of the repository. *)
Variable ijson_items : bytes -> option (list pyval).

  (** [list(ijson.items(...))[0]['fingerprint']] *)
Definition fingerprint_of (line : bytes) : result pyval :=
    match ijson_items line with
    | None => Raise IjsonError
    | Some [] => Raise IndexError
    | Some (leaf_cert :: _) =>
      match getitem leaf_cert (text_of_string "fingerprint") with
      | None => Raise LookupError
      | Some v => Ok v
      end
    end.

  (** The extraction followed by the hashing that
      [finger_print_str in self.finger_print_map] starts with. *)
Definition fingerprint_key (line : bytes) : result pykey :=
    match fingerprint_of line with
    | Raise e => Raise e
    | Ok v =>
      match py_hash v with
      | None => Raise Unhashable
      | Some k => Ok k
      end
    end.

End Extraction.

Definition lift_result (A : Type) (r : result A) : M A :=
  fun fs => (fs, r).

(* ================================================================== *)
(** ** [cert_duplicate_identifier_memory_scalable.py]: the disk-resident
       strategy *)

Module MemoryScalable.

Inductive Tag : Type :=
    | TAG_NEW        (* "NW" *)
    | TAG_EXISTING.  (* "EX" *)

  (** [path] and [end_offset] start as the empty string:
      [EmptyString] and [None] here. *)
Record MapValue : Type := mkMapValue {
    start : nat;
    length : nat;
    tag : Tag;
    path : string;
    end_offset : option nat
  }.

  (** The instance; [input_file] holds the content of the file of that
      name, which lies outside the output directory and is not written. *)
Record CertificateDuplicateIdentifier : Type := mkSelf {
    input_file : bytes;
    output_file : string;
    temp_directory : string;
    output_directory : string;
    finger_print_map : dict MapValue
  }.

Definition init : CertificateDuplicateIdentifier :=
    mkSelf [] "duplicate_certificates" "temp" "output" [].

Section Engine.

Variable ijson_items : bytes -> option (list pyval).

    (** The order in which the operating system lists a directory, given
        the names of its files in order of creation. *)
Variable scandir_order : list string -> list string.

Definition append (input : bytes) (finger_print : pykey)
               (map_val : MapValue) (current_obj : bytes) : M nat :=
      current_obj <- lift UnicodeDecodeError (utf8_decode current_obj) ;;
      let finger_print_filename := path map_val in
      match tag map_val with
      | TAG_NEW =>
        first_obj <- lift UnicodeDecodeError
                       (text_read input (start map_val) (length map_val)) ;;
        let temp_text := group_header finger_print in
        open_w finger_print_filename ;;;
        let temp_str := temp_text ++ rstrip first_obj ++ comma
                        ++ rstrip current_obj ++ sentinel in
        write_text finger_print_filename 0 temp_str
      | TAG_EXISTING =>
        let end_ := end_offset map_val in
        open_r finger_print_filename ;;;
        end_ <- lift TypeError end_ ;;
        if end_ <? 3 then raise ValueError
        else write_text finger_print_filename (end_ - 3)
                        (comma ++ rstrip current_obj ++ sentinel)
      end.

    (** The [while line:] loop of [process_data]; [start] is the position
        of the binary handle before the line is read, [fuel] bounds the
        number of iterations. *)
Fixpoint scan_loop (fuel : nat) (temp_dir : string) (input : bytes)
             (start : nat) (count : nat) (fpm : dict MapValue)
      : M (nat * dict MapValue) :=
      match fuel with
      | O => raise LoopBound
      | S fuel' =>
        let line := readline input start in
        match line with
        | [] => ret (count, fpm)
        | _ :: _ =>
          let end_ := start + List.length line in
          finger_print_str <- lift_result (fingerprint_key ijson_items line) ;;
          let length := end_ - start in
          match dict_get finger_print_str fpm with
          | Some map_value =>
            match tag map_value with
            | TAG_NEW =>
              let count := count + 1 in
              let path := get_file_path temp_dir (str_nat count)
                                        JSONLINE_EXTENSION in
              let map_value :=
                mkMapValue (MemoryScalable.start map_value)
                           (MemoryScalable.length map_value)
                           TAG_NEW path (end_offset map_value) in
              end_ <- append input finger_print_str map_value line ;;
              let map_value :=
                mkMapValue (MemoryScalable.start map_value)
                           (MemoryScalable.length map_value)
                           TAG_EXISTING path (Some end_) in
              scan_loop fuel' temp_dir input (start + List.length line)
                        count (dict_set finger_print_str map_value fpm)
            | TAG_EXISTING =>
              end_ <- append input finger_print_str map_value line ;;
              let map_value :=
                mkMapValue (MemoryScalable.start map_value)
                           (MemoryScalable.length map_value)
                           TAG_EXISTING (MemoryScalable.path map_value)
                           (Some end_) in
              scan_loop fuel' temp_dir input (start + List.length line)
                        count (dict_set finger_print_str map_value fpm)
            end
          | None =>
            let map_value := mkMapValue start length TAG_NEW EmptyString None in
            scan_loop fuel' temp_dir input (start + List.length line)
                      count (dict_set finger_print_str map_value fpm)
          end
        end
      end.

    (** [process_data(input_file, output_directory)]; [input] is [None]
        when [os.path.exists(input_file)] is false. *)
Definition process_data (self : CertificateDuplicateIdentifier)
               (input : option bytes) (output_directory : string)
      : M CertificateDuplicateIdentifier :=
      match input with
      | None => raise InputNotFound
      | Some content =>
        let output_directory :=
          if String.eqb output_directory EmptyString
          then MemoryScalable.output_directory self
          else output_directory in
        clean_and_create_directory output_directory ;;;
        let temp_dir := (output_directory ++ "/" ++ temp_directory self)%string in
        clean_and_create_directory temp_dir ;;;
        let out := get_file_path output_directory (output_file self)
                                 JSONLINE_EXTENSION in
        r <- scan_loop (S (List.length content)) temp_dir content 0 0
                       (finger_print_map self) ;;
        ret (mkSelf content out temp_dir
                    (MemoryScalable.output_directory self) (snd r))
      end.

    (** The files [glob.glob(directory + '/*' + extension)] returns, for a
        [directory] without wildcard characters: the directory is listed
        and the names are matched against ['*' + extension], which leaves
        out names that start with a dot.  ([glob.glob] reads a [*], a [?]
        or a [[] in the directory part as a pattern as well and then lists
        other directories; the definition is exact for the directories
        that [wildcard_free] accepts, such as the [output/temp] of the
        script.) *)
Definition listdir (directory : string) (fs : filesystem) : list string :=
      flat_map (fun e => match under directory (fst e) with
                         | Some name => if has_slash name then [] else [name]
                         | None => []
                         end) fs.

Definition fnmatch_star (extension name : string) : bool :=
      ends_with extension name &&
      match name with
      | String "." _ => false
      | _ => true
      end.

Definition glob (directory extension : string) (fs : filesystem)
      : list string :=
      map (fun name => (directory ++ "/" ++ name)%string)
          (filter (fnmatch_star extension)
                  (scandir_order (listdir directory fs))).

    (** [shutil.copyfileobj(readfile, outfile)] for each temporary file. *)
Fixpoint copy_files (outfile : string) (filenames : list string) : M unit :=
      match filenames with
      | [] => ret tt
      | filename :: rest =>
        data <- open_r filename ;;
        (fun fs =>
           match fs_lookup outfile fs with
           | Some old => (fs_store outfile (old ++ data) fs, Ok tt)
           | None => (fs, Raise FileNotFoundError)
           end) ;;;
        copy_files outfile rest
      end.

Definition merge_and_create_output (self : CertificateDuplicateIdentifier)
               (clear_temp : bool) : M unit :=
      open_w (output_file self) ;;;
      (fun fs =>
         copy_files (output_file self)
                    (glob (temp_directory self) JSONLINE_EXTENSION fs) fs) ;;;
      if clear_temp then clean_directory (temp_directory self) else ret tt.

    (** The script: [process_data(INPUT_FILE, OUTPUT_DIRECTORY)] and then
        [merge_and_create_output()], on a fresh instance. *)
Definition main (input : option bytes) (output_directory : string)
      : M CertificateDuplicateIdentifier :=
      self <- process_data init input output_directory ;;
      merge_and_create_output self true ;;;
      ret self.

End Engine.

End MemoryScalable.

(* ================================================================== *)
(** ** [cert_duplicate_identifier_runtime_optimized.py]: the
       memory-resident strategy *)

Module RuntimeOptimized.

  (** [position_array]: the [(start, length)] of every occurrence. *)
Record MapValue : Type := mkMapValue {
    position_array : list (nat * nat)
  }.

Record CertificateDuplicateIdentifier : Type := mkSelf {
    input_file : option bytes;
    output_file : string;
    output_directory : string;
    finger_print_map : dict MapValue
  }.

Definition init : CertificateDuplicateIdentifier :=
    mkSelf None "duplicate_certificates" "output" [].

Section Engine.

Variable ijson_items : bytes -> option (list pyval).

    (** The [while line:] loop of [process_data]. *)
Fixpoint scan_loop (fuel : nat) (input : bytes) (start : nat)
             (fpm : dict MapValue) : result (dict MapValue) :=
      match fuel with
      | O => Raise LoopBound
      | S fuel' =>
        let line := readline input start in
        match line with
        | [] => Ok fpm
        | _ :: _ =>
          let end_ := start + List.length line in
          match fingerprint_key ijson_items line with
          | Raise e => Raise e
          | Ok finger_print_str =>
            let length := end_ - start in
            match dict_get finger_print_str fpm with
            | Some map_value =>
              let map_value :=
                mkMapValue (position_array map_value ++ [(start, length)]) in
              scan_loop fuel' input (start + List.length line)
                        (dict_set finger_print_str map_value fpm)
            | None =>
              let map_value := mkMapValue [(start, length)] in
              scan_loop fuel' input (start + List.length line)
                        (dict_set finger_print_str map_value fpm)
            end
          end
        end
      end.

    (** [process_data(input_file)]; no file is written. *)
Definition process_data (self : CertificateDuplicateIdentifier)
               (input : option bytes)
      : result CertificateDuplicateIdentifier :=
      match input with
      | None => Raise InputNotFound
      | Some content =>
        match scan_loop (S (List.length content)) content 0
                        (finger_print_map self) with
        | Raise e => Raise e
        | Ok fpm =>
          Ok (mkSelf (Some content) (output_file self)
                     (output_directory self) fpm)
        end
      end.

    (** The inner [for position in map_val.position_array] loop: every
        record is read again from the input, in text mode. *)
Fixpoint read_positions (input : bytes) (positions : list (nat * nat))
             (text_ : text) : result text :=
      match positions with
      | [] => Ok text_
      | position :: rest =>
        let start := fst position in
        let length := snd position in
        match text_read input start length with
        | None => Raise UnicodeDecodeError
        | Some line =>
          read_positions input rest (text_ ++ rstrip line ++ comma)
        end
      end.

    (** The text written for one fingerprint with duplicates. *)
Definition group_text (input : bytes) (finger_print_str : pykey)
               (map_val : MapValue) : result text :=
      match read_positions input (position_array map_val)
                           (group_header finger_print_str) with
      | Raise e => Raise e
      | Ok text_ => Ok (rstrip_comma text_ ++ sentinel)
      end.

    (** The outer [for finger_print_str, map_val in ...items()] loop;
        [pos] is the position of [outfile]. *)
Fixpoint write_items (outfile : string) (input : bytes)
             (items : dict MapValue) (pos : nat) : M unit :=
      match items with
      | [] => ret tt
      | (finger_print_str, map_val) :: rest =>
        if 1 <? List.length (position_array map_val) then
          text_ <- lift_result (group_text input finger_print_str map_val) ;;
          pos' <- write_text outfile pos text_ ;;
          write_items outfile input rest pos'
        else write_items outfile input rest pos
      end.

    (** [write(output_directory)] *)
Definition write (self : CertificateDuplicateIdentifier)
               (output_directory : string)
      : M CertificateDuplicateIdentifier :=
      match input_file self with
      | None => raise InputNotFound
      | Some content =>
        let output_directory :=
          if String.eqb output_directory EmptyString
          then RuntimeOptimized.output_directory self
          else output_directory in
        clean_and_create_directory output_directory ;;;
        let out := get_file_path output_directory (output_file self)
                                 JSONLINE_EXTENSION in
        open_w out ;;;
        write_items out content (finger_print_map self) 0 ;;;
        ret (mkSelf (input_file self) out
                    (RuntimeOptimized.output_directory self)
                    (finger_print_map self))
      end.

    (** The script: [process_data(INPUT_FILE)] and then
        [write(OUTPUT_DIRECTORY)], on a fresh instance. *)
Definition main (input : option bytes) (output_directory : string)
      : M CertificateDuplicateIdentifier :=
      self <- lift_result (process_data init input) ;;
      write self output_directory.

End Engine.

End RuntimeOptimized.

(* ================================================================== *)
(** ** JSON texts and a model of the [ijson] call

    A recursive-descent reader of JSON (RFC 8259) that builds the Python
    objects [ijson] builds: [dict], [list], [str], [int], [Decimal],
    [bool] and [None].  It serves twice: to say when an output line is
    valid JSON, and as a concrete [ijson_items] on which the scripts can
    be run. *)

Module Json.

Definition is_ws (c : N) : bool :=
    (c =? 32)%N || (c =? 9)%N || (c =? 10)%N || (c =? 13)%N.

Definition skip_ws (t : text) : text := drop_while is_ws t.

Definition is_digit (c : N) : bool := in_range 48 57 c.

Definition hex_value (c : N) : option N :=
    if in_range 48 57 c then Some (c - 48)%N
    else if in_range 97 102 c then Some (c - 87)%N
    else if in_range 65 70 c then Some (c - 55)%N
    else None.

Definition hex4 (a b c d : N) : option N :=
    match hex_value a, hex_value b, hex_value c, hex_value d with
    | Some x, Some y, Some z, Some w =>
      Some (x * 4096 + y * 256 + z * 16 + w)%N
    | _, _, _, _ => None
    end.

Definition simple_escape (c : N) : option N :=
    if (c =? 34)%N then Some 34%N          (* quote *)
    else if (c =? 92)%N then Some 92%N     (* backslash *)
    else if (c =? 47)%N then Some 47%N     (* \/ *)
    else if (c =? 98)%N then Some 8%N      (* \b *)
    else if (c =? 102)%N then Some 12%N    (* \f *)
    else if (c =? 110)%N then Some 10%N    (* \n *)
    else if (c =? 114)%N then Some 13%N    (* \r *)
    else if (c =? 116)%N then Some 9%N     (* \t *)
    else None.

Definition push (c : N) (r : option (text * text)) : option (text * text) :=
    match r with
    | Some (s, rest) => Some (c :: s, rest)
    | None => None
    end.

  (** The characters of a string after its opening quote, up to the
      closing quote, every [\u] escape giving one code unit. *)
Fixpoint parse_string_raw (t : text) : option (text * text) :=
    match t with
    | [] => None
    | c :: r =>
      if (c =? 34)%N then Some ([], r)
      else if (c =? 92)%N then
        match r with
        | [] => None
        | e :: r1 =>
          if (e =? 117)%N then
            match r1 with
            | h1 :: h2 :: h3 :: h4 :: r2 =>
              match hex4 h1 h2 h3 h4 with
              | None => None
              | Some u => push u (parse_string_raw r2)
              end
            | _ => None
            end
          else
            match simple_escape e with
            | Some x => push x (parse_string_raw r1)
            | None => None
            end
        end
      else if (c <? 32)%N then None
      else push c (parse_string_raw r)
    end.

  (** A high surrogate followed by a low one is one code point. (Only
      escapes give surrogates: decoded UTF-8 has none.) *)
Fixpoint combine_surrogates (s : text) : text :=
    match s with
    | [] => []
    | u :: r =>
      match r with
      | w :: r' =>
        if in_range 55296 56319 u && in_range 56320 57343 w
        then (65536 + (u - 55296) * 1024 + (w - 56320))%N
             :: combine_surrogates r'
        else u :: combine_surrogates r
      | [] => [u]
      end
    end.

Definition parse_string (t : text) : option (text * text) :=
    match parse_string_raw t with
    | Some (s, rest) => Some (combine_surrogates s, rest)
    | None => None
    end.

Fixpoint take_digits (t : text) : text * text :=
    match t with
    | [] => ([], [])
    | c :: r =>
      if is_digit c
      then let (ds, rest) := take_digits r in (c :: ds, rest)
      else ([], t)
    end.

Definition digits_value (ds : text) : N :=
    fold_left (fun a d => (a * 10 + (d - 48))%N) ds 0%N.

Definition parse_sign (t : text) : bool * text :=
    match t with
    | c :: r => if (c =? 45)%N then (true, r) else (false, t)
    | [] => (false, t)
    end.

  (** A point and digits, if there is a point. *)
Definition parse_frac (t : text) : option (option text * text) :=
    match t with
    | c :: r =>
      if (c =? 46)%N then
        let (fd, rest) := take_digits r in
        match fd with [] => None | _ :: _ => Some (Some fd, rest) end
      else Some (None, t)
    | [] => Some (None, t)
    end.

Definition parse_exp_sign (t : text) : bool * text :=
    match t with
    | s :: r =>
      if (s =? 45)%N then (true, r)
      else if (s =? 43)%N then (false, r)
      else (false, t)
    | [] => (false, t)
    end.

  (** An exponent, if there is an exponent mark. *)
Definition parse_exp (t : text) : option (option Z * text) :=
    match t with
    | c :: r =>
      if (c =? 101)%N || (c =? 69)%N then
        let (eneg, r1) := parse_exp_sign r in
        let (ed, rest) := take_digits r1 in
        match ed with
        | [] => None
        | _ :: _ =>
          let v := Z.of_N (digits_value ed) in
          Some (Some (if eneg then (- v)%Z else v), rest)
        end
      else Some (None, t)
    | [] => Some (None, t)
    end.

  (** [int] without fraction and exponent, [Decimal] otherwise. *)
Definition number_value (neg : bool) (ip : text) (fd : option text)
             (ev : option Z) : pykey :=
    match fd, ev with
    | None, None =>
      let v := Z.of_N (digits_value ip) in
      KInt (if neg then (- v)%Z else v)
    | _, _ =>
      let fds := match fd with Some x => x | None => [] end in
      let e := match ev with Some x => x | None => 0%Z end in
      KDecimal neg (digits_value (ip ++ fds))
               (e - Z.of_nat (List.length fds))%Z
    end.

Definition parse_number (t : text) : option (pykey * text) :=
    let (neg, t1) := parse_sign t in
    let (ip, t2) := take_digits t1 in
    match ip with
    | [] => None
    | d :: ds =>
      if (d =? 48)%N && negb (Nat.eqb (List.length ds) 0) then None
      else
        match parse_frac t2 with
        | None => None
        | Some (fd, t3) =>
          match parse_exp t3 with
          | None => None
          | Some (ev, t4) => Some (number_value neg ip fd ev, t4)
          end
        end
    end.

Fixpoint strip_text (p t : text) : option text :=
    match p with
    | [] => Some t
    | a :: p' =>
      match t with
      | [] => None
      | b :: t' => if (a =? b)%N then strip_text p' t' else None
      end
    end.

Definition literal (t : text) : option (pykey * text) :=
    match strip_text (text_of_string "true") t with
    | Some r => Some (KBool true, r)
    | None =>
      match strip_text (text_of_string "false") t with
      | Some r => Some (KBool false, r)
      | None =>
        match strip_text (text_of_string "null") t with
        | Some r => Some (KNone, r)
        | None => parse_number t
        end
      end
    end.

  (** The next character after white space, when it is [c]. *)
Definition expect (c : N) (t : text) : option text :=
    match skip_ws t with
    | d :: r => if (d =? c)%N then Some r else None
    | [] => None
    end.

Fixpoint parse_value (fuel : nat) (t : text) : option (pyval * text) :=
    match fuel with
    | O => None
    | S f =>
      match skip_ws t with
      | [] => None
      | c :: r =>
        if (c =? 123)%N then
          match expect 125 r with
          | Some r' => Some (PyDict [], r')
          | None =>
            match parse_members f r with
            | Some (d, r') => Some (PyDict d, r')
            | None => None
            end
          end
        else if (c =? 91)%N then
          match expect 93 r with
          | Some r' => Some (PyList [], r')
          | None =>
            match parse_elements f r with
            | Some (l, r') => Some (PyList l, r')
            | None => None
            end
          end
        else if (c =? 34)%N then
          match parse_string r with
          | Some (s, r') => Some (PyScalar (KStr s), r')
          | None => None
          end
        else
          match literal (c :: r) with
          | Some (k, r') => Some (PyScalar k, r')
          | None => None
          end
      end
    end
  with parse_members (fuel : nat) (t : text)
    : option (list (text * pyval) * text) :=
    match fuel with
    | O => None
    | S f =>
      match expect 34 t with
      | None => None
      | Some r =>
        match parse_string r with
        | None => None
        | Some (k, r1) =>
          match expect 58 r1 with
          | None => None
          | Some r2 =>
            match parse_value f r2 with
            | None => None
            | Some (v, r3) =>
              match expect 125 r3 with
              | Some r4 => Some ([(k, v)], r4)
              | None =>
                match expect 44 r3 with
                | None => None
                | Some r4 =>
                  match parse_members f r4 with
                  | Some (d, r5) => Some ((k, v) :: d, r5)
                  | None => None
                  end
                end
              end
            end
          end
        end
      end
    end
  with parse_elements (fuel : nat) (t : text)
    : option (list pyval * text) :=
    match fuel with
    | O => None
    | S f =>
      match parse_value f t with
      | None => None
      | Some (v, r1) =>
        match expect 93 r1 with
        | Some r2 => Some ([v], r2)
        | None =>
          match expect 44 r1 with
          | None => None
          | Some r2 =>
            match parse_elements f r2 with
            | Some (l, r3) => Some (v :: l, r3)
            | None => None
            end
          end
        end
      end
    end.

  (** One JSON value and nothing but white space after it. *)
Definition loads (t : text) : option pyval :=
    match parse_value (S (List.length t)) t with
    | Some (v, rest) =>
      match skip_ws rest with [] => Some v | _ :: _ => None end
    | None => None
    end.

  (** The objects at the path [data.leaf_cert] of a parsed line, in
      source order. *)
Definition members_named (name : text) (v : pyval) : list pyval :=
    match v with
    | PyDict d =>
      flat_map (fun m => if text_eqb (fst m) name then [snd m] else []) d
    | PyScalar _ | PyList _ => []
    end.

Definition items_data_leaf_cert (v : pyval) : list pyval :=
    flat_map (members_named (text_of_string "leaf_cert"))
             (members_named (text_of_string "data") v).

  (** [list(ijson.items(io.BytesIO(line), 'data.leaf_cert'))] *)
Definition ijson_items (line : bytes) : option (list pyval) :=
    match utf8_decode line with
    | None => None
    | Some t => option_map items_data_leaf_cert (loads t)
    end.

End Json.

(* ================================================================== *)
(** ** The scan, one record at a time

    Both [while line:] loops read the same lines; [scan] lists them with
    the position each was read at, and the two loop bodies are given as
    functions of one such record. *)

Fixpoint scan (fuel : nat) (input : bytes) (start : nat)
  : list (nat * bytes) :=
  match fuel with
  | O => []
  | S fuel' =>
    match readline input start with
    | [] => []
    | b :: l => (start, b :: l) :: scan fuel' input (start + S (List.length l))
    end
  end.

Definition records (input : bytes) : list (nat * bytes) :=
  scan (S (List.length input)) input 0.

Section Steps.

Variable ijson_items : bytes -> option (list pyval).

  (** The body of the loop of the memory-resident strategy. *)
Definition mem_step (fpm : dict RuntimeOptimized.MapValue)
             (rec : nat * bytes) : result (dict RuntimeOptimized.MapValue) :=
    let start := fst rec in
    let line := snd rec in
    let end_ := start + List.length line in
    match fingerprint_key ijson_items line with
    | Raise e => Raise e
    | Ok finger_print_str =>
      let length := end_ - start in
      match dict_get finger_print_str fpm with
      | Some map_value =>
        Ok (dict_set finger_print_str
              (RuntimeOptimized.mkMapValue
                 (RuntimeOptimized.position_array map_value
                  ++ [(start, length)])) fpm)
      | None =>
        Ok (dict_set finger_print_str
              (RuntimeOptimized.mkMapValue [(start, length)]) fpm)
      end
    end.

Fixpoint mem_steps (recs : list (nat * bytes))
           (fpm : dict RuntimeOptimized.MapValue)
    : result (dict RuntimeOptimized.MapValue) :=
    match recs with
    | [] => Ok fpm
    | r :: rest =>
      match mem_step fpm r with
      | Raise e => Raise e
      | Ok fpm' => mem_steps rest fpm'
      end
    end.

  (** The body of the loop of the disk-resident strategy. *)
Definition disk_step (temp_dir : string) (input : bytes)
             (st : nat * dict MemoryScalable.MapValue) (rec : nat * bytes)
    : M (nat * dict MemoryScalable.MapValue) :=
    let start := fst rec in
    let line := snd rec in
    let count := fst st in
    let fpm := snd st in
    let end_ := start + List.length line in
    finger_print_str <- lift_result (fingerprint_key ijson_items line) ;;
    let length := end_ - start in
    match dict_get finger_print_str fpm with
    | Some map_value =>
      match MemoryScalable.tag map_value with
      | MemoryScalable.TAG_NEW =>
        let count := count + 1 in
        let path := get_file_path temp_dir (str_nat count)
                                  JSONLINE_EXTENSION in
        let map_value :=
          MemoryScalable.mkMapValue
            (MemoryScalable.start map_value) (MemoryScalable.length map_value)
            MemoryScalable.TAG_NEW path (MemoryScalable.end_offset map_value) in
        end_ <- MemoryScalable.append input finger_print_str map_value line ;;
        let map_value :=
          MemoryScalable.mkMapValue
            (MemoryScalable.start map_value) (MemoryScalable.length map_value)
            MemoryScalable.TAG_EXISTING path (Some end_) in
        ret (count, dict_set finger_print_str map_value fpm)
      | MemoryScalable.TAG_EXISTING =>
        end_ <- MemoryScalable.append input finger_print_str map_value line ;;
        let map_value :=
          MemoryScalable.mkMapValue
            (MemoryScalable.start map_value) (MemoryScalable.length map_value)
            MemoryScalable.TAG_EXISTING (MemoryScalable.path map_value)
            (Some end_) in
        ret (count, dict_set finger_print_str map_value fpm)
      end
    | None =>
      let map_value :=
        MemoryScalable.mkMapValue start length MemoryScalable.TAG_NEW
                                  EmptyString None in
      ret (count, dict_set finger_print_str map_value fpm)
    end.

Fixpoint disk_steps (temp_dir : string) (input : bytes)
           (recs : list (nat * bytes))
           (st : nat * dict MemoryScalable.MapValue)
    : M (nat * dict MemoryScalable.MapValue) :=
    match recs with
    | [] => ret st
    | r :: rest =>
      st' <- disk_step temp_dir input st r ;;
      disk_steps temp_dir input rest st'
    end.

End Steps.

(* ================================================================== *)
(** ** Notions the properties are stated with *)

(** No two entries of a dictionary have equal keys. *)
Fixpoint dict_wf (V : Type) (d : dict V) : Prop :=
  match d with
  | [] => True
  | (k, _) :: r => dict_get k r = None /\ dict_wf r
  end.

(** The records of [recs] lie one after the other from [start] on. *)
Fixpoint contiguous (start : nat) (recs : list (nat * bytes)) : Prop :=
  match recs with
  | [] => True
  | (s, l) :: rest => s = start /\ contiguous (s + List.length l) rest
  end.

(** *** The disk-resident strategy without the disk

    What the per-fingerprint files hold, kept as data: for every key the
    location of its first record and, from the second occurrence on, the
    number of its file, the key its header was written with and the
    records written so far. *)

Record group : Type := mkGroup {
  g_index : nat;
  g_key : pykey;
  g_pieces : list text
}.

Definition entry : Type := (nat * nat) * option group.

(** [p1 + ',' + p2 + ',' + ... + pn] *)
Fixpoint join_pieces (pieces : list text) : text :=
  match pieces with
  | [] => []
  | [p] => p
  | p :: rest => p ++ comma ++ join_pieces rest
  end.

(** One output line: header, records, closing. *)
Definition group_line (k : pykey) (pieces : list text) : text :=
  group_header k ++ join_pieces pieces ++ sentinel.

Section Ledger.

Variable ijson_items : bytes -> option (list pyval).

Definition encodable (t : text) : result unit :=
    match utf8_encode t with
    | Some _ => Ok tt
    | None => Raise UnicodeEncodeError
    end.

Definition ledger_step (input : bytes) (st : nat * dict entry)
             (rec : nat * bytes) : result (nat * dict entry) :=
    let start := fst rec in
    let line := snd rec in
    match fingerprint_key ijson_items line with
    | Raise e => Raise e
    | Ok k =>
      match dict_get k (snd st) with
      | None =>
        Ok (fst st, dict_set k ((start, List.length line), None) (snd st))
      | Some (loc, g) =>
        match utf8_decode line with
        | None => Raise UnicodeDecodeError
        | Some cur =>
          match g with
          | None =>
            match text_read input (fst loc) (snd loc) with
            | None => Raise UnicodeDecodeError
            | Some first =>
              let pieces := [rstrip first; rstrip cur] in
              match encodable (group_line k pieces) with
              | Raise e => Raise e
              | Ok _ =>
                Ok (fst st + 1,
                    dict_set k (loc, Some (mkGroup (fst st + 1) k pieces))
                             (snd st))
              end
            end
          | Some g =>
            match encodable (comma ++ rstrip cur ++ sentinel) with
            | Raise e => Raise e
            | Ok _ =>
              Ok (fst st,
                  dict_set k (loc, Some (mkGroup (g_index g) (g_key g)
                                           (g_pieces g ++ [rstrip cur])))
                           (snd st))
            end
          end
        end
      end
    end.

Fixpoint ledger_steps (input : bytes) (recs : list (nat * bytes))
           (st : nat * dict entry) : result (nat * dict entry) :=
    match recs with
    | [] => Ok st
    | r :: rest =>
      match ledger_step input st r with
      | Raise e => Raise e
      | Ok st' => ledger_steps input rest st'
      end
    end.

End Ledger.

(** The bytes of the closing [']}' + "\n"]. *)
Definition sentinel_bytes : bytes := [x5d; x7d; x0a].

(** The path of the file numbered [j]. *)
Definition temp_path (temp_dir : string) (j : nat) : string :=
  get_file_path temp_dir (str_nat j) JSONLINE_EXTENSION.

(** An index entry of the disk-resident strategy agrees with its ledger
    entry in a file system. *)
Definition entry_agrees (temp_dir : string) (fs : filesystem)
           (mv : MemoryScalable.MapValue) (e : entry) : Prop :=
  MemoryScalable.start mv = fst (fst e) /\
  MemoryScalable.length mv = snd (fst e) /\
  match snd e with
  | None =>
    MemoryScalable.tag mv = MemoryScalable.TAG_NEW /\
    MemoryScalable.path mv = EmptyString /\
    MemoryScalable.end_offset mv = None
  | Some g =>
    MemoryScalable.tag mv = MemoryScalable.TAG_EXISTING /\
    MemoryScalable.path mv = temp_path temp_dir (g_index g) /\
    exists content,
      utf8_encode (group_line (g_key g) (g_pieces g)) = Some content /\
      fs_lookup (temp_path temp_dir (g_index g)) fs = Some content /\
      MemoryScalable.end_offset mv = Some (List.length content)
  end.

(** Two dictionaries with the same keys in the same order and related
    values. *)
Definition dict_rel (A B : Type) (P : A -> B -> Prop)
           (d1 : dict A) (d2 : dict B) : Prop :=
  Forall2 (fun x y => fst x = fst y /\ P (snd x) (snd y)) d1 d2.

(** The names of the temporary files are [1.jsonline], ...,
    [count.jsonline], in that order. *)
Definition temp_names (count : nat) : list string :=
  map (fun j => (str_nat j ++ JSONLINE_EXTENSION)%string) (seq 1 count).

(** The state of the disk-resident run agrees with a ledger. *)
Definition refines (temp_dir : string) (fs : filesystem)
           (st : nat * dict MemoryScalable.MapValue)
           (lst : nat * dict entry) : Prop :=
  fst st = fst lst /\
  dict_rel (entry_agrees temp_dir fs) (snd st) (snd lst) /\
  MemoryScalable.listdir temp_dir fs = temp_names (fst lst).

(** A ledger is in order: keys are distinct, the files are numbered from
    1 to the counter and no two keys share one. *)
Definition ledger_ok (lst : nat * dict entry) : Prop :=
  dict_wf (snd lst) /\
  (forall k loc g, In (k, (loc, Some g)) (snd lst) ->
                   1 <= g_index g <= fst lst /\ g_pieces g <> []) /\
  (forall k1 l1 g1 k2 l2 g2,
      In (k1, (l1, Some g1)) (snd lst) ->
      In (k2, (l2, Some g2)) (snd lst) ->
      g_index g1 = g_index g2 -> py_eqb k1 k2 = true) /\
  (forall j, 1 <= j <= fst lst ->
             exists k loc g, In (k, (loc, Some g)) (snd lst) /\ g_index g = j).

(** [fs'] differs from [fs] under [dir] only. *)
Definition same_outside (dir : string) (fs fs' : filesystem) : Prop :=
  forall p, under dir p = None -> fs_lookup p fs' = fs_lookup p fs.

(** The directories and the output file of a run of either
    script on [output_directory]. *)
Definition out_dir (output_directory : string) : string :=
  if String.eqb output_directory EmptyString then "output"
  else output_directory.

Definition temp_dir_of (output_directory : string) : string :=
  (out_dir output_directory ++ "/" ++ "temp")%string.

Definition out_file (output_directory : string) : string :=
  get_file_path (out_dir output_directory) "duplicate_certificates"
                JSONLINE_EXTENSION.

(** The group whose file is numbered [j], and the bytes of that file. *)
Fixpoint group_with_index (led : dict entry) (j : nat) : option group :=
  match led with
  | [] => None
  | (_, (_, Some g)) :: r =>
    if g_index g =? j then Some g else group_with_index r j
  | (_, (_, None)) :: r => group_with_index r j
  end.

Definition group_bytes (g : group) : bytes :=
  match utf8_encode (group_line (g_key g) (g_pieces g)) with
  | Some b => b
  | None => []
  end.

Definition file_bytes (led : dict entry) (j : nat) : bytes :=
  match group_with_index led j with
  | Some g => group_bytes g
  | None => []
  end.

Definition temp_name (j : nat) : string :=
  (str_nat j ++ JSONLINE_EXTENSION)%string.

(** *** Occurrences of a fingerprint *)

Section Occurrences.

Variable ijson_items : bytes -> option (list pyval).

  (** The record [r] carries the key [k]. *)
Definition has_key (k : pykey) (r : nat * bytes) : bool :=
    match fingerprint_key ijson_items (snd r) with
    | Ok k' => py_eqb k' k
    | Raise _ => false
    end.

  (** The records of [recs] that carry [k], in file order. *)
Definition occurrences (k : pykey) (recs : list (nat * bytes))
    : list (nat * bytes) :=
    filter (has_key k) recs.

End Occurrences.

(** The [(start, length)] of a record. *)
Definition location (r : nat * bytes) : nat * nat :=
  (fst r, List.length (snd r)).

(** What the disk-resident strategy writes for a record it has in hand:
    the decoded line without trailing white space. *)
Definition line_piece (r : nat * bytes) (p : text) : Prop :=
  exists c, utf8_decode (snd r) = Some c /\ p = rstrip c.

(** What both strategies write for a record they read again from the
    input. *)
Definition reread_piece (input : bytes) (loc : nat * nat) (p : text) : Prop :=
  exists f, text_read input (fst loc) (snd loc) = Some f /\ p = rstrip f.

Section Tracking.

Variable ijson_items : bytes -> option (list pyval).
Variable input : bytes.

  (** The ledger has, for every key, what its occurrences among [recs]
      call for. *)
Definition ledger_tracks (recs : list (nat * bytes)) (led : dict entry)
    : Prop :=
    forall k,
      match occurrences ijson_items k recs with
      | [] => dict_get k led = None
      | [r1] => dict_get k led = Some (location r1, None)
      | r1 :: r2 :: more =>
        exists g p1 ps,
          dict_get k led = Some (location r1, Some g) /\
          fingerprint_key ijson_items (snd r2) = Ok (g_key g) /\
          g_pieces g = p1 :: ps /\
          reread_piece input (location r1) p1 /\
          Forall2 line_piece (r2 :: more) ps
      end.

  (** The index of the memory-resident strategy has, for every key, the
      locations of its occurrences among [recs]. *)
Definition index_tracks (recs : list (nat * bytes))
             (fpm : dict RuntimeOptimized.MapValue) : Prop :=
    forall k,
      match occurrences ijson_items k recs with
      | [] => dict_get k fpm = None
      | occ =>
        dict_get k fpm
        = Some (RuntimeOptimized.mkMapValue (map location occ))
      end.

End Tracking.

(** *** The memory-resident strategy, the file apart

    The bytes [write] puts into the output file for the items of the
    index. *)
Fixpoint mem_output (input : bytes) (items : dict RuntimeOptimized.MapValue)
  : result bytes :=
  match items with
  | [] => Ok []
  | (k, mv) :: rest =>
    if 1 <? List.length (RuntimeOptimized.position_array mv) then
      match RuntimeOptimized.group_text input k mv with
      | Raise e => Raise e
      | Ok t =>
        match utf8_encode t with
        | None => Raise UnicodeEncodeError
        | Some b =>
          match mem_output input rest with
          | Raise e => Raise e
          | Ok bs => Ok (b ++ bs)
          end
        end
      end
    else mem_output input rest
  end.

(** A record as [readline] hands it out at position [fst r]: not empty,
    its bytes are those of the file from that position on, and it ends
    with a line feed unless it ends the file. *)
Definition line_of (input : bytes) (r : nat * bytes) : Prop :=
  snd r = readline input (fst r) /\
  snd r = firstn (List.length (snd r)) (skipn (fst r) input) /\
  snd r <> [] /\
  ((exists pre, snd r = pre ++ [x0a]) \/
   fst r + List.length (snd r) = List.length input).

(* ================================================================== *)
(** ** Sample inputs

    [lit] writes bytes from a string in which an apostrophe stands for the
    double quote, a dollar sign for the line feed and a tilde for the
    carriage return. *)

Definition lit1 (a : ascii) : byte :=
  if Ascii.eqb a "'" then x22
  else if Ascii.eqb a "$" then x0a
  else if Ascii.eqb a "~" then x0d
  else byte_of_ascii a.

Definition lit (s : string) : bytes := map lit1 (list_ascii_of_string s).

(** Four records with the fingerprints A, B, A, A. *)
Definition sample_abaa : bytes :=
  lit "{'data':{'leaf_cert':{'fingerprint':'A'}},'n':1}$"
  ++ lit "{'data':{'leaf_cert':{'fingerprint':'B'}},'n':2}$"
  ++ lit "{'data':{'leaf_cert':{'fingerprint':'A'}},'n':3}$"
  ++ lit "{'data':{'leaf_cert':{'fingerprint':'A'}},'n':4}$".

(** The run of the disk-resident loop over the first [n] records of
    [input], in an empty file system. *)
Definition disk_prefix_run (input : bytes) (n : nat)
  : filesystem * result (nat * dict MemoryScalable.MapValue) :=
  disk_steps Json.ijson_items "out/temp" input (firstn n (records input))
             (0, []) [].

Definition state_of (A : Type) (dflt : A) (r : result A) : A :=
  match r with Ok a => a | Raise _ => dflt end.

(** [len(map_val.position_array) > 1] *)
Definition has_duplicates (e : pykey * RuntimeOptimized.MapValue) : bool :=
  1 <? List.length (RuntimeOptimized.position_array (snd e)).

(** The groups of a ledger whose files are numbered [js], in that order. *)
Definition groups_at (led : dict entry) (js : list nat) : list group :=
  flat_map (fun j => match group_with_index led j with
                     | Some g => [g]
                     | None => []
                     end) js.

(** Two records whose fingerprint is the number 7. *)
Definition sample_numeric : bytes :=
  lit "{'data':{'leaf_cert':{'fingerprint':7}},'n':1}$"
  ++ lit "{'data':{'leaf_cert':{'fingerprint':7}},'n':2}$".

(** The string at [data.leaf_cert.fingerprint] cannot be extracted from
    [line]: the extraction raises, or its value is not a string. *)
Definition no_string_fingerprint
           (ijson_items : bytes -> option (list pyval)) (line : bytes)
  : Prop :=
  match fingerprint_of ijson_items line with
  | Ok (PyScalar (KStr _)) => False
  | _ => True
  end.

(** A run stops with an exception. *)
Definition aborts (A : Type) (run : filesystem * result A) : Prop :=
  match snd run with
  | Raise _ => True
  | Ok _ => False
  end.

(** Three records; the second has nothing at [data.leaf_cert]. *)
Definition sample_missing : bytes :=
  lit "{'data':{'leaf_cert':{'fingerprint':'A'}},'n':1}$"
  ++ lit "{'data':{'other':{'fingerprint':'A'}},'n':2}$"
  ++ lit "{'data':{'leaf_cert':{'fingerprint':'A'}},'n':3}$".

(** Two records with the fingerprint A; the first holds a character that
    takes two bytes in UTF-8. *)
Definition sample_accent : bytes :=
  lit "{'data':{'leaf_cert':{'fingerprint':'A'}},'o':'é'}$"
  ++ lit "{'data':{'leaf_cert':{'fingerprint':'A'}},'o':'x'}$".

(** Two records with the fingerprint A, in an ASCII file whose lines end
    with carriage return and line feed. *)
Definition sample_crlf : bytes :=
  lit "{'data':{'leaf_cert':{'fingerprint':'A'}},'n':1}~$"
  ++ lit "{'data':{'leaf_cert':{'fingerprint':'A'}},'n':2}~$".

(** Three records with the fingerprints A, A, B; the second holds a
    character that takes two bytes in UTF-8. *)
Definition sample_aab : bytes :=
  lit "{'data':{'leaf_cert':{'fingerprint':'A'}},'n':1}$"
  ++ lit "{'data':{'leaf_cert':{'fingerprint':'A'}},'o':'é'}$"
  ++ lit "{'data':{'leaf_cert':{'fingerprint':'B'}},'n':3}$".

(** The content of the output file after a run. *)
Definition output_of (A : Type) (od : string)
           (run : filesystem * result A) : option bytes :=
  match snd run with
  | Ok _ => fs_lookup (out_file od) (fst run)
  | Raise _ => None
  end.

Definition mem_run (input : bytes) : option bytes :=
  output_of "out" (RuntimeOptimized.main Json.ijson_items (Some input)
                                         "out" []).

Definition disk_run (input : bytes) : option bytes :=
  output_of "out" (MemoryScalable.main Json.ijson_items (fun names => names)
                                       (Some input) "out" []).

(** The bytes of a record as the specification wants them in the output:
    the line without its trailing white space. *)
Definition verbatim (line : bytes) : text :=
  match utf8_decode line with
  | Some t => rstrip t
  | None => []
  end.

(** The group line for [k] with exactly the records [recs], verbatim. *)
Definition expected_group (k : pykey) (recs : list (nat * bytes))
  : option bytes :=
  utf8_encode (group_line k (map (fun r => verbatim (snd r)) recs)).

(** The key of the fingerprint ["A"]. *)
Definition key_A : pykey := KStr [65%N].

(** The Python object a line of output parses to, if it is JSON. *)
Definition json_of_bytes (b : bytes) : option pyval :=
  match utf8_decode b with
  | Some t => Json.loads t
  | None => None
  end.

(** A text after which a number stops: it does not go on with a digit, a
    point or an exponent mark. *)
Definition number_stop (r : text) : bool :=
  match r with
  | [] => true
  | c :: _ =>
    negb (Json.is_digit c || (c =? 46)%N || (c =? 101)%N || (c =? 69)%N)
  end.

(** What may follow the text of [v]: anything, unless [v] is a number. *)
Definition may_follow (v : pyval) (r : text) : Prop :=
  match v with
  | PyScalar (KInt _) | PyScalar (KDecimal _ _ _) => number_stop r = true
  | _ => True
  end.

(** White space only. *)
Definition blank (w : text) : Prop :=
  Forall (fun x => Json.is_ws x = true) w.

(** The mark of an exponent, [e] or [E]. *)
Definition is_exp_mark (c : N) : bool := (c =? 101)%N || (c =? 69)%N.

(** [r] is empty or starts with a character outside [p]. *)
Definition stops (p : N -> bool) (r : text) : Prop :=
  match r with
  | [] => True
  | c :: _ => p c = false
  end.

(** The parts of a text the readers of [Json] take: [t] is white space
    [w], the text proper, and a rest [r]; whatever replaces the rest and
    whatever the fuel above the length of the text proper, the same value
    is read. *)
Definition value_reads (t : text) (v : pyval) (r : text) : Prop :=
  exists w x m,
    t = w ++ x :: m ++ r /\ blank w /\ Json.is_ws x = false /\
    (x =? 93)%N = false /\
    (forall d, v = PyDict d -> exists m0, m = m0 ++ [125%N]) /\
    forall g r', List.length m < g -> may_follow v r' ->
                 Json.parse_value g (w ++ x :: m ++ r') = Some (v, r').

Definition members_reads (t : text) (d : list (text * pyval))
           (r : text) : Prop :=
  exists w m,
    t = w ++ 34%N :: m ++ 125%N :: r /\ blank w /\
    forall g r', List.length m < g ->
                 Json.parse_members g (w ++ 34%N :: m ++ 125%N :: r')
                 = Some (d, r').

Definition elements_reads (t : text) (l : list pyval)
           (r : text) : Prop :=
  exists w x m,
    t = w ++ x :: m ++ 93%N :: r /\ blank w /\ Json.is_ws x = false /\
    (x =? 93)%N = false /\
    forall g r', S (List.length m) < g ->
                 Json.parse_elements g (w ++ x :: m ++ 93%N :: r')
                 = Some (l, r').

(** *** Output lines as JSON *)

(** Two records whose fingerprint is the string of the three characters
    [a], double quote, [b]; the input escapes the quote with a backslash. *)
Definition sample_quote : bytes :=
  lit "{'data':{'leaf_cert':{'fingerprint':'a\'b'}},'n':1}$"
  ++ lit "{'data':{'leaf_cert':{'fingerprint':'a\'b'}},'n':2}$".

Definition key_quote : pykey := KStr [97%N; dq; 98%N].

(** Plain input: ASCII bytes, and no carriage return. *)
Definition plain_byte (b : byte) : bool :=
  (b2n b <? 128)%N && negb (b2n b =? 13)%N.

Definition plain (bs : bytes) : bool := forallb plain_byte bs.

(** A character that a JSON string holds as itself, in ASCII: no control
    character, no double quote, no backslash. *)
Definition safe_char (c : N) : bool :=
  (32 <=? c)%N && (c <? 128)%N && negb (c =? 34)%N && negb (c =? 92)%N.

Definition safe (s : text) : bool := forallb safe_char s.

Definition ascii_text (t : text) : Prop := Forall (fun c => (c < 128)%N) t.

Definition fp_name : text := text_of_string "fingerprint".

Definition certs_name : text := text_of_string "certificates".

(** The line of [r] is a JSON object, and the fingerprint extracted from
    it is a string of safe characters. *)
Definition good_record (ijson_items : bytes -> option (list pyval))
           (r : nat * bytes) : Prop :=
  (exists d, json_of_bytes (snd r) = Some (PyDict d)) /\
  exists s, fingerprint_key ijson_items (snd r) = Ok (KStr s) /\
            safe s = true.

(** [line] is one line, it is JSON, and parsing it gives an object with
    the string [s] at [fingerprint] and at [certificates] the array of
    the records of [input] that carry [s], as many as there are. *)
Definition group_json (ijson_items : bytes -> option (list pyval))
           (input : bytes) (line : bytes) : Prop :=
  exists s vs,
    json_of_bytes line
    = Some (PyDict [(fp_name, PyScalar (KStr s));
                    (certs_name, PyList vs)]) /\
    List.length vs
    = List.length (occurrences ijson_items (KStr s) (records input)) /\
    Forall2 (fun r v => json_of_bytes (snd r) = Some v)
            (occurrences ijson_items (KStr s) (records input)) vs /\
    exists body, line = body ++ [x0a] /\ ~ In x0a body.

(** [p] is the text of the object [v] without white space after it:
    whatever follows it, [v] is read and what follows is left. *)
Definition object_text (p : text) (v : pyval) : Prop :=
  (exists w x m, p = w ++ x :: m ++ [125%N] /\ blank w /\
                 Json.is_ws x = false /\ (x =? 93)%N = false) /\
  forall g r', List.length p <= g ->
               Json.parse_value g (p ++ r') = Some (v, r').

(** The text of a record in the output. *)
Definition record_text (r : nat * bytes) : text := verbatim (snd r).

(** A character of a line of plain text: ASCII, and not the line feed. *)
Definition line_char (c : N) : Prop := (c < 128)%N /\ c <> 10%N.

(** [good_record], as a check. *)
Definition good_recordb (ijson_items : bytes -> option (list pyval))
           (r : nat * bytes) : bool :=
  match json_of_bytes (snd r) with
  | Some (PyDict _) =>
    match fingerprint_key ijson_items (snd r) with
    | Ok (KStr s) => safe s
    | _ => false
    end
  | _ => false
  end.

(* ================================================================== *)
(** ** Samples for the further properties *)

(** A file system with a file outside the output directory [out], a file
    left in it by an earlier run and a stale temporary file. *)
Definition sample_fs : filesystem :=
  [("notes.txt"%string, lit "keep");
   ("out/old.txt"%string, lit "old");
   ("out/temp/9.jsonline"%string, lit "stale")].

(** Every record of [recs] has a fingerprint, and no two of them have
    equal fingerprints. *)
Fixpoint distinct_keys (ijson_items : bytes -> option (list pyval))
         (recs : list (nat * bytes)) : bool :=
  match recs with
  | [] => true
  | r :: rest =>
    match fingerprint_key ijson_items (snd r) with
    | Ok k => negb (existsb (has_key ijson_items k) rest)
              && distinct_keys ijson_items rest
    | Raise _ => false
    end
  end.

(** Three records with the fingerprints A, B and C. *)
Definition sample_abc : bytes :=
  lit "{'data':{'leaf_cert':{'fingerprint':'A'}},'n':1}$"
  ++ lit "{'data':{'leaf_cert':{'fingerprint':'B'}},'n':2}$"
  ++ lit "{'data':{'leaf_cert':{'fingerprint':'C'}},'n':3}$".

(** The groups of a ledger, in the order of its entries. *)
Definition groups_of (led : dict entry) : list group :=
  flat_map (fun e => match snd (snd e) with
                     | Some g => [g]
                     | None => []
                     end) led.

(** [map_value.tag == TAG_EXISTING] *)
Definition is_existing (e : pykey * MemoryScalable.MapValue) : bool :=
  match MemoryScalable.tag (snd e) with
  | MemoryScalable.TAG_EXISTING => true
  | MemoryScalable.TAG_NEW => false
  end.

(** The positions the index of the memory-resident strategy holds for
    [k]: none when [k] is not a key. *)
Definition positions_of (k : pykey) (fpm : dict RuntimeOptimized.MapValue)
  : list (nat * nat) :=
  match dict_get k fpm with
  | Some mv => RuntimeOptimized.position_array mv
  | None => []
  end.

(** The content of the file [p], nothing when there is no such file. *)
Definition content_of (fs : filesystem) (p : string) : bytes :=
  match fs_lookup p fs with
  | Some c => c
  | None => []
  end.

(** An instance of the disk-resident script after [process_data] on the
    output directory [out], and a file system with two group files, a
    file of another kind in the temporary directory and an earlier
    output file. *)
Definition sample_self : MemoryScalable.CertificateDuplicateIdentifier :=
  MemoryScalable.mkSelf [] "out/duplicate_certificates.jsonline" "out/temp"
                        "output" [].

Definition sample_temp_fs : filesystem :=
  [("out/temp/1.jsonline"%string, lit "first$");
   ("out/temp/notes.txt"%string, lit "skipped");
   ("out/duplicate_certificates.jsonline"%string, lit "earlier$");
   ("out/temp/2.jsonline"%string, lit "second$")].

(** *** Fingerprints in order of first occurrence *)

Section FirstKeys.

Variable ijson_items : bytes -> option (list pyval).

  (** The keys of the records [recs], each once, in order of first
      occurrence, as the key was first seen; [seen] are the keys met
      before. *)
Fixpoint first_keys (seen : list pykey) (recs : list (nat * bytes))
    : list pykey :=
    match recs with
    | [] => []
    | r :: rest =>
      match fingerprint_key ijson_items (snd r) with
      | Ok k =>
        if existsb (fun k' => py_eqb k' k) seen then first_keys seen rest
        else k :: first_keys (seen ++ [k]) rest
      | Raise _ => first_keys seen rest
      end
    end.

  (** The key [k] has more than one record in [recs]. *)
Definition duplicated (recs : list (nat * bytes)) (k : pykey) : bool :=
    1 <? List.length (occurrences ijson_items k recs).

  (** The duplicated fingerprints, in order of first occurrence. *)
Definition dup_keys (recs : list (nat * bytes)) : list pykey :=
    filter (duplicated recs) (first_keys [] recs).

  (** [line] is the line of the key [k]: the header and the records of
      [k], each as it is in the input without its trailing white space,
      in the order of the input. *)
Definition line_for (recs : list (nat * bytes)) (k : pykey)
             (line : bytes) : Prop :=
    expected_group k (occurrences ijson_items k recs) = Some line.

End FirstKeys.

(** The text ends with a character that is not a comma. *)
Definition ends_well (t : text) : bool :=
  match rev t with
  | c :: _ => negb (c =? 44)%N
  | [] => false
  end.

(** The fingerprint of the record is a string of ASCII characters, and
    the text of the record ends with a character other than a comma (as
    the text of a JSON object does). *)
Definition plain_record_ok (ijson_items : bytes -> option (list pyval))
           (r : nat * bytes) : bool :=
  match fingerprint_key ijson_items (snd r) with
  | Ok (KStr s) =>
    forallb (fun c => (c <? 128)%N) s && ends_well (record_text r)
  | _ => false
  end.

(** Four records: the fingerprint A twice, a record with nothing at
    [data.leaf_cert], and A again. *)
Definition sample_aa_bad : bytes :=
  lit "{'data':{'leaf_cert':{'fingerprint':'A'}},'n':1}$"
  ++ lit "{'data':{'leaf_cert':{'fingerprint':'A'}},'n':2}$"
  ++ lit "{'data':{'other':{'fingerprint':'A'}},'n':3}$"
  ++ lit "{'data':{'leaf_cert':{'fingerprint':'A'}},'n':4}$".

(** The run of the disk-resident loop over the first [n] records of
    [input], in the file system [process_data] starts its loop with on
    the output directory [out]. *)
Definition disk_prefix_run_in (fs0 : filesystem) (input : bytes) (n : nat)
  : filesystem * result (nat * dict MemoryScalable.MapValue) :=
  disk_steps Json.ijson_items (temp_dir_of "out") input
             (firstn n (records input)) (0, [])
             (rmtree (temp_dir_of "out") (rmtree (out_dir "out") fs0)).

(** Every file under [dir] lies in [dir] itself: the directory has no
    subdirectory. *)
Definition flat_directory (dir : string) (fs : filesystem) : bool :=
  forallb (fun e => match under dir (fst e) with
                    | Some name => negb (has_slash name)
                    | None => true
                    end) fs.

(** [rec] is the line [line] without the bytes of its trailing white
    space: what follows [rec] in [line] is the encoding of white space,
    and [rec] is the encoding of a text that does not end with white
    space. *)
Definition stripped (line rec : bytes) : Prop :=
  exists ws t u,
    line = rec ++ ws /\
    utf8_encode t = Some ws /\ Forall (fun c => py_isspace c = true) t /\
    utf8_encode u = Some rec /\ rstrip u = u.

(** [glob.has_magic] finds nothing in [s]: no character of [s] is one of
    the wildcard characters [*], [?] and [[]. *)
Fixpoint wildcard_free (s : string) : bool :=
  match s with
  | EmptyString => true
  | String a s' =>
    negb (Ascii.eqb a "*" || Ascii.eqb a "?" || Ascii.eqb a "[")
    && wildcard_free s'
  end.

(** Four records with the fingerprints A, B, A, B. *)
Definition sample_abab : bytes :=
  lit "{'data':{'leaf_cert':{'fingerprint':'A'}},'n':1}$"
  ++ lit "{'data':{'leaf_cert':{'fingerprint':'B'}},'n':2}$"
  ++ lit "{'data':{'leaf_cert':{'fingerprint':'A'}},'n':3}$"
  ++ lit "{'data':{'leaf_cert':{'fingerprint':'B'}},'n':4}$".

(* ================================================================== *)
(** * Properties *)

(** Projections of records and pairs applied to their constructors. *)
Ltac projs :=
  cbn [fst snd g_key g_pieces g_index
       MemoryScalable.start MemoryScalable.length MemoryScalable.tag
       MemoryScalable.path MemoryScalable.end_offset
       RuntimeOptimized.position_array] in *.

Arguments group_line : simpl never.
Arguments group_header : simpl never.

(** ** The scanner *)

Lemma take_line_length (bs : bytes) :
  List.length (take_line bs) <= List.length bs.
Proof.
  induction bs as [|b r IH]; simpl; [lia|].
  destruct (Byte.eqb b x0a); simpl; lia.
Qed.

Lemma take_line_nil (bs : bytes) : take_line bs = [] -> bs = [].
Proof.
  destruct bs as [|b r]; simpl; [reflexivity|].
  destruct (Byte.eqb b x0a); discriminate.
Qed.

Lemma take_line_prefix (bs : bytes) :
  take_line bs = firstn (List.length (take_line bs)) bs.
Proof.
  induction bs as [|b r IH]; simpl; [reflexivity|].
  destruct (Byte.eqb b x0a); simpl; [reflexivity|].
  now rewrite <- IH.
Qed.

Lemma readline_length (input : bytes) (pos : nat) :
  List.length (readline input pos) <= List.length input - pos.
Proof.
  unfold readline.
  pose proof (take_line_length (skipn pos input)) as H.
  rewrite length_skipn in H. exact H.
Qed.

Lemma readline_slice (input : bytes) (pos : nat) :
  readline input pos
  = firstn (List.length (readline input pos)) (skipn pos input).
Proof. unfold readline. apply take_line_prefix. Qed.

Lemma readline_nil (input : bytes) (pos : nat) :
  readline input pos = [] -> List.length input <= pos.
Proof.
  unfold readline. intros H. apply take_line_nil in H.
  apply (f_equal (@List.length _)) in H. rewrite length_skipn in H.
  simpl in H. lia.
Qed.

(** ** Keys: [py_eqb] is an equivalence *)

Lemma text_eqb_eq (a b : text) : text_eqb a b = true <-> a = b.
Proof.
  unfold text_eqb. destruct (list_eq_dec N.eq_dec a b); split; congruence.
Qed.

Lemma text_eqb_refl (a : text) : text_eqb a a = true.
Proof. now apply text_eqb_eq. Qed.

Lemma py_eqb_refl (a : pykey) : py_eqb a a = true.
Proof.
  destruct a; simpl; try apply text_eqb_refl; try reflexivity;
    apply Qeq_bool_iff; reflexivity.
Qed.

Lemma py_eqb_sym (a b : pykey) : py_eqb a b = py_eqb b a.
Proof.
  assert (S : forall x y, Qeq_bool x y = Qeq_bool y x).
  { intros x y. apply eq_true_iff_eq. rewrite !Qeq_bool_iff.
    split; intros H; now symmetry. }
  destruct a, b; simpl; try reflexivity; try apply S.
  apply eq_true_iff_eq. rewrite !text_eqb_eq. split; congruence.
Qed.

Lemma py_eqb_trans (a b c : pykey) :
  py_eqb a b = true -> py_eqb b c = true -> py_eqb a c = true.
Proof.
  assert (T : forall x y z, Qeq_bool x y = true -> Qeq_bool y z = true ->
                            Qeq_bool x z = true).
  { intros x y z. rewrite !Qeq_bool_iff. intros H1 H2.
    now rewrite H1. }
  destruct a, b; simpl; try discriminate; destruct c; simpl;
    try discriminate; try reflexivity; try apply T.
  rewrite !text_eqb_eq. congruence.
Qed.

Lemma py_eqb_congr (a b c : pykey) :
  py_eqb a b = true -> py_eqb c a = py_eqb c b.
Proof.
  intros H. destruct (py_eqb c a) eqn:E1; symmetry.
  - eapply py_eqb_trans; eauto.
  - destruct (py_eqb c b) eqn:E2; [|reflexivity].
    rewrite py_eqb_sym in H.
    now rewrite (py_eqb_trans E2 H) in E1.
Qed.

(** ** Dictionaries *)

Section DictFacts.

Variable V : Type.
Implicit Types (d : dict V) (k : pykey) (v : V).

Lemma dict_get_congr d k k' :
    py_eqb k k' = true -> dict_get k d = dict_get k' d.
Proof.
    intros H. induction d as [|[k0 v0] r IH]; simpl; [reflexivity|].
    rewrite (py_eqb_congr k0 H). now rewrite IH.
Qed.

Lemma dict_get_set_same d k k' v :
    py_eqb k k' = true -> dict_get k' (dict_set k v d) = Some v.
Proof.
    intros H. induction d as [|[k0 v0] r IH]; simpl.
    - now rewrite H.
    - destruct (py_eqb k0 k) eqn:E; simpl.
      + now rewrite <- (py_eqb_congr k0 H), E.
      + now rewrite <- (py_eqb_congr k0 H), E.
Qed.

Lemma dict_get_set_other d k k' v :
    py_eqb k k' = false -> dict_get k' (dict_set k v d) = dict_get k' d.
Proof.
    intros H. induction d as [|[k0 v0] r IH]; simpl.
    - now rewrite H.
    - destruct (py_eqb k0 k) eqn:E; simpl.
      + destruct (py_eqb k0 k') eqn:E'; [|reflexivity].
        rewrite py_eqb_sym in E.
        now rewrite (py_eqb_trans E E') in H.
      + now rewrite IH.
Qed.

Lemma dict_set_wf d k v : dict_wf d -> dict_wf (dict_set k v d).
Proof.
    induction d as [|[k0 v0] r IH]; simpl.
    - auto.
    - intros [Hn Hw]. destruct (py_eqb k0 k) eqn:E; simpl.
      + auto.
      + split; [|auto]. rewrite dict_get_set_other; [assumption|].
        now rewrite py_eqb_sym.
Qed.

Lemma dict_wf_in d k v : dict_wf d -> In (k, v) d -> dict_get k d = Some v.
Proof.
    induction d as [|[k0 v0] r IH]; simpl; [tauto|].
    intros [Hn Hw] [E|Hin].
    - inversion E; subst. now rewrite py_eqb_refl.
    - destruct (py_eqb k0 k) eqn:E.
      + rewrite (dict_get_congr r E) in Hn. rewrite (IH Hw Hin) in Hn.
        discriminate.
      + auto.
Qed.

Lemma dict_get_in d k v :
    dict_get k d = Some v -> exists k0, py_eqb k0 k = true /\ In (k0, v) d.
Proof.
    induction d as [|[k0 v0] r IH]; simpl; [discriminate|].
    destruct (py_eqb k0 k) eqn:E.
    - intros H; inversion H; subst. eauto.
    - intros H. destruct (IH H) as (k1 & ? & ?). eauto.
Qed.

Lemma dict_set_keys_present d k v v0 :
    dict_get k d = Some v0 -> map fst (dict_set k v d) = map fst d.
Proof.
    induction d as [|[k1 v1] r IH]; simpl; [discriminate|].
    destruct (py_eqb k1 k); simpl; [reflexivity|].
    intros H. now rewrite IH.
Qed.

Lemma dict_set_absent d k v :
    dict_get k d = None -> dict_set k v d = d ++ [(k, v)].
Proof.
    induction d as [|[k1 v1] r IH]; simpl; [reflexivity|].
    destruct (py_eqb k1 k); [discriminate|].
    intros H. now rewrite IH.
Qed.

End DictFacts.

(** ** The records of the scan *)

Lemma scan_contiguous (fuel : nat) (input : bytes) (start : nat) :
  contiguous start (scan fuel input start).
Proof.
  revert start. induction fuel as [|f IH]; intros start; simpl; [exact I|].
  destruct (readline input start) as [|b l]; simpl; [exact I|].
  split; [reflexivity|apply IH].
Qed.

Lemma scan_In (fuel : nat) (input : bytes) (start s : nat) (l : bytes) :
  In (s, l) (scan fuel input start) ->
  l = readline input s /\ l <> [] /\ start <= s.
Proof.
  revert start. induction fuel as [|f IH]; intros start; simpl; [tauto|].
  destruct (readline input start) as [|b r] eqn:E; simpl; [tauto|].
  intros [H|H].
  - inversion H; subst. rewrite E. repeat split; [discriminate|lia].
  - apply IH in H. destruct H as (? & ? & ?). repeat split; auto; lia.
Qed.

Lemma scan_concat (fuel : nat) (input : bytes) (start : nat) :
  List.length input - start < fuel ->
  List.concat (map snd (scan fuel input start)) = skipn start input.
Proof.
  revert start. induction fuel as [|f IH]; intros start Hf; [lia|].
  simpl. destruct (readline input start) as [|b r] eqn:E; simpl.
  - apply readline_nil in E. symmetry. now apply skipn_all2.
  - pose proof (readline_length input start) as HL.
    pose proof (readline_slice input start) as HS.
    rewrite E in HL, HS. simpl List.length in HL, HS.
    rewrite IH by lia.
    rewrite (Nat.add_comm start), <- skipn_skipn.
    change (b :: r ++ skipn (S (List.length r)) (skipn start input))
      with ((b :: r) ++ skipn (S (List.length r)) (skipn start input)).
    rewrite HS at 1. apply firstn_skipn.
Qed.

Lemma take_line_end (bs : bytes) :
  take_line bs = bs \/ exists pre, take_line bs = pre ++ [x0a].
Proof.
  induction bs as [|b r IH]; simpl; [now left|].
  destruct (Byte.eqb b x0a) eqn:E.
  - right. exists []. simpl. apply Byte.byte_dec_bl in E. now subst.
  - destruct IH as [IH|[pre IH]].
    + left. now rewrite IH.
    + right. exists (b :: pre). now rewrite IH.
Qed.

(** ** The loops are the folds of their bodies over the records *)

Section Loops.

Variable ijson_items : bytes -> option (list pyval).

Lemma mem_loop_steps (fuel : nat) (input : bytes) (start : nat)
        (fpm : dict RuntimeOptimized.MapValue) :
    List.length input - start < fuel ->
    RuntimeOptimized.scan_loop ijson_items fuel input start fpm
    = mem_steps ijson_items (scan fuel input start) fpm.
Proof.
    revert start fpm. induction fuel as [|f IH]; intros start fpm Hf; [lia|].
    simpl. pose proof (readline_length input start) as HL.
    destruct (readline input start) as [|b r] eqn:E; [reflexivity|].
    simpl List.length in *. cbn [mem_steps]. unfold mem_step.
    cbn [fst snd].
    destruct (fingerprint_key ijson_items (b :: r)) as [k|e]; [|reflexivity].
    destruct (dict_get k fpm); apply IH; lia.
Qed.

Lemma disk_loop_steps (fuel : nat) (temp_dir : string) (input : bytes)
        (start count : nat) (fpm : dict MemoryScalable.MapValue)
        (fs : filesystem) :
    List.length input - start < fuel ->
    MemoryScalable.scan_loop ijson_items fuel temp_dir input start count fpm fs
    = disk_steps ijson_items temp_dir input (scan fuel input start)
                 (count, fpm) fs.
Proof.
    revert start count fpm fs.
    induction fuel as [|f IH]; intros start count fpm fs Hf; [lia|].
    simpl. pose proof (readline_length input start) as HL.
    destruct (readline input start) as [|b r] eqn:E; [reflexivity|].
    simpl List.length in *. cbn [disk_steps].
    unfold disk_step, bind, lift_result. cbn [fst snd].
    destruct (fingerprint_key ijson_items (b :: r)) as [k|e]; [|reflexivity].
    destruct (dict_get k fpm) as [mv|].
    - destruct (MemoryScalable.tag mv).
      + destruct (MemoryScalable.append _ _ _ _ _) as [fs' [e|e]];
          [|reflexivity].
        unfold ret. apply IH; lia.
      + destruct (MemoryScalable.append _ _ _ _ _) as [fs' [e|e]];
          [|reflexivity].
        unfold ret. apply IH; lia.
    - unfold ret. apply IH; lia.
Qed.

End Loops.

(** ** Paths *)

Lemma string_app_assoc (a b c : string) :
  ((a ++ b) ++ c)%string = (a ++ (b ++ c))%string.
Proof. induction a as [|x a IH]; simpl; [reflexivity|now rewrite IH]. Qed.

Lemma string_app_length (a b : string) :
  String.length (a ++ b) = String.length a + String.length b.
Proof. induction a as [|x a IH]; simpl; [reflexivity|now rewrite IH]. Qed.

Lemma string_app_inv_head (a x y : string) :
  (a ++ x)%string = (a ++ y)%string -> x = y.
Proof. induction a as [|c a IH]; simpl; [auto|]. intros H. inversion H. auto. Qed.

Lemma string_app_inv_tail (e x y : string) :
  (x ++ e)%string = (y ++ e)%string -> x = y.
Proof.
  revert y. induction x as [|c x IH]; intros [|d y] H; simpl in *.
  - reflexivity.
  - apply (f_equal String.length) in H. simpl in H.
    rewrite string_app_length in H. lia.
  - apply (f_equal String.length) in H. simpl in H.
    rewrite string_app_length in H. lia.
  - inversion H. f_equal. auto.
Qed.

Lemma strip_prefix_app (p s : string) : strip_prefix p (p ++ s) = Some s.
Proof.
  induction p as [|c p IH]; simpl; [reflexivity|].
  now rewrite Ascii.eqb_refl.
Qed.

Lemma strip_prefix_eq (p s r : string) :
  strip_prefix p s = Some r -> s = (p ++ r)%string.
Proof.
  revert s. induction p as [|c p IH]; intros s; simpl.
  - congruence.
  - destruct s as [|d s]; [discriminate|].
    destruct (Ascii.eqb c d) eqn:E; [|discriminate].
    apply Ascii.eqb_eq in E. subst. intros H. f_equal. auto.
Qed.

Lemma ends_with_app (e a : string) : ends_with e (a ++ e) = true.
Proof.
  induction a as [|c a IH]; simpl.
  - destruct e; cbn [ends_with]; now rewrite String.eqb_refl.
  - rewrite IH. apply orb_true_r.
Qed.

Lemma to_uint_nonnil (n : nat) : Nat.to_uint n <> Decimal.Nil.
Proof.
  pose proof (Unsigned.to_of (Nat.to_uint n)) as H.
  rewrite Unsigned.of_to in H. rewrite H. unfold Decimal.unorm.
  destruct (Decimal.nzhead (Nat.to_uint n)); discriminate.
Qed.

Lemma str_nat_inj (i j : nat) : str_nat i = str_nat j -> i = j.
Proof.
  unfold str_nat. intros H. apply Unsigned.to_uint_inj.
  assert (E : Some (Nat.to_uint i) = Some (Nat.to_uint j)).
  { rewrite <- !NilEmpty.usu. now rewrite H. }
  congruence.
Qed.

Lemma temp_path_inj (dir : string) (i j : nat) :
  temp_path dir i = temp_path dir j -> i = j.
Proof.
  unfold temp_path, get_file_path. intros H.
  apply string_app_inv_head in H. apply string_app_inv_head in H.
  apply string_app_inv_tail in H. now apply str_nat_inj.
Qed.

(** The name of a temporary file inside its directory. *)
Lemma temp_path_under (dir : string) (j : nat) :
  under dir (temp_path dir j) = Some (str_nat j ++ JSONLINE_EXTENSION)%string.
Proof.
  unfold under, temp_path, get_file_path.
  rewrite <- string_app_assoc. apply strip_prefix_app.
Qed.

Lemma temp_name_no_slash (j : nat) :
  has_slash (str_nat j ++ JSONLINE_EXTENSION) = false.
Proof.
  unfold str_nat. generalize (Nat.to_uint j) as d.
  induction d; simpl; auto.
Qed.

Lemma temp_name_matches (j : nat) :
  MemoryScalable.fnmatch_star JSONLINE_EXTENSION
    (str_nat j ++ JSONLINE_EXTENSION) = true.
Proof.
  unfold MemoryScalable.fnmatch_star. rewrite ends_with_app. simpl.
  unfold str_nat. pose proof (@to_uint_nonnil j) as H.
  destruct (Nat.to_uint j); try reflexivity. congruence.
Qed.

(** ** The file system *)

Lemma fs_lookup_store_same (p : string) (c : bytes) (fs : filesystem) :
  fs_lookup p (fs_store p c fs) = Some c.
Proof.
  induction fs as [|[q d] r IH]; simpl.
  - now rewrite String.eqb_refl.
  - destruct (String.eqb q p) eqn:E; simpl; now rewrite E.
Qed.

Lemma fs_lookup_store_other (p q : string) (c : bytes) (fs : filesystem) :
  p <> q -> fs_lookup q (fs_store p c fs) = fs_lookup q fs.
Proof.
  intros H. induction fs as [|[q0 d] r IH]; simpl.
  - apply String.eqb_neq in H. now rewrite H.
  - destruct (String.eqb q0 p) eqn:E; simpl.
    + apply String.eqb_eq in E. subst.
      apply String.eqb_neq in H. now rewrite H.
    + now rewrite IH.
Qed.

Lemma fs_store_store (p : string) (c c' : bytes) (fs : filesystem) :
  fs_store p c (fs_store p c' fs) = fs_store p c fs.
Proof.
  induction fs as [|[q d] r IH]; simpl.
  - now rewrite String.eqb_refl.
  - destruct (String.eqb q p) eqn:E; simpl; rewrite E; [reflexivity|].
    now rewrite IH.
Qed.

Lemma fs_store_names_present (p : string) (c d : bytes) (fs : filesystem) :
  fs_lookup p fs = Some d -> map fst (fs_store p c fs) = map fst fs.
Proof.
  induction fs as [|[q e] r IH]; simpl; [discriminate|].
  destruct (String.eqb q p); simpl; [reflexivity|].
  intros H. now rewrite IH.
Qed.

Lemma fs_store_absent (p : string) (c : bytes) (fs : filesystem) :
  fs_lookup p fs = None -> fs_store p c fs = fs ++ [(p, c)].
Proof.
  induction fs as [|[q e] r IH]; simpl; [reflexivity|].
  destruct (String.eqb q p); [discriminate|].
  intros H. now rewrite IH.
Qed.

(** ** Related dictionaries *)

Lemma dict_get_none_in (V : Type) (d : dict V) (k k' : pykey) (v : V) :
  dict_get k d = None -> In (k', v) d -> py_eqb k' k = false.
Proof.
  induction d as [|[k0 v0] r IH]; simpl; [tauto|].
  destruct (py_eqb k0 k) eqn:E; [discriminate|].
  intros H [H1|H1]; [inversion H1; subst; assumption|auto].
Qed.

Lemma dict_set_in (V : Type) (d : dict V) (k k' : pykey) (v v' : V) :
  dict_wf d -> In (k', v') (dict_set k v d) ->
  (py_eqb k' k = true /\ v' = v) \/ (py_eqb k' k = false /\ In (k', v') d).
Proof.
  induction d as [|[k0 v0] r IH]; simpl.
  - intros _ [H|[]]. inversion H; subst. left. split; [apply py_eqb_refl|auto].
  - intros [Hn Hw]. destruct (py_eqb k0 k) eqn:E; simpl.
    + intros [H|H].
      * inversion H; subst. left; auto.
      * right. split; [|auto].
        eapply dict_get_none_in; [|exact H].
        now rewrite <- (dict_get_congr r E).
    + intros [H|H].
      * inversion H; subst. right; auto.
      * destruct (IH Hw H) as [?|[? ?]]; [left|right]; auto.
Qed.

Lemma dict_set_in_other (V : Type) (d : dict V) (k k' : pykey) (v v' : V) :
  In (k', v') d -> py_eqb k' k = false -> In (k', v') (dict_set k v d).
Proof.
  induction d as [|[k0 v0] r IH]; simpl; [tauto|].
  intros [H|H] Hk.
  - inversion H; subst. rewrite Hk. now left.
  - destruct (py_eqb k0 k); right; auto.
Qed.

Lemma dict_set_in_new (V : Type) (d : dict V) (k : pykey) (v : V) :
  exists k0, py_eqb k0 k = true /\ In (k0, v) (dict_set k v d).
Proof.
  induction d as [|[k0 v0] r IH]; simpl.
  - exists k. split; [apply py_eqb_refl|now left].
  - destruct (py_eqb k0 k) eqn:E.
    + exists k0. split; [assumption|now left].
    + destruct IH as (k1 & ? & ?). exists k1. split; [assumption|now right].
Qed.

(** An entry of a well-formed dictionary is the one [dict_get] finds for
    any equal key. *)
Lemma dict_wf_get (V : Type) (d : dict V) (k k' : pykey) (v v' : V) :
  dict_wf d -> In (k', v') d -> py_eqb k' k = true ->
  dict_get k d = Some v -> v' = v.
Proof.
  intros Hw Hin Hk Hg. pose proof (dict_wf_in Hw Hin) as H.
  rewrite (dict_get_congr d Hk) in H. congruence.
Qed.

Section DictRel.

Variables A B : Type.

Lemma dict_rel_get_some (P : A -> B -> Prop) (d1 : dict A) (d2 : dict B)
        (k : pykey) (b : B) :
    dict_rel P d1 d2 -> dict_get k d2 = Some b ->
    exists a, dict_get k d1 = Some a /\ P a b.
Proof.
    unfold dict_rel.
    induction 1 as [|[k1 a1] [k2 b2] r1 r2 [Hk Hp] HF IH]; simpl;
      [discriminate|].
    simpl in Hk, Hp. subst k2.
    destruct (py_eqb k1 k); [|exact IH].
    intros H; inversion H; subst. eauto.
Qed.

Lemma dict_rel_get_none (P : A -> B -> Prop) (d1 : dict A) (d2 : dict B)
        (k : pykey) :
    dict_rel P d1 d2 -> dict_get k d2 = None -> dict_get k d1 = None.
Proof.
    unfold dict_rel.
    induction 1 as [|[k1 a1] [k2 b2] r1 r2 [Hk Hp] HF IH]; simpl;
      [reflexivity|].
    simpl in Hk, Hp. subst k2.
    destruct (py_eqb k1 k); [discriminate|exact IH].
Qed.

Lemma dict_rel_impl (P Q : A -> B -> Prop) (d1 : dict A) (d2 : dict B) :
    dict_rel P d1 d2 ->
    (forall k' a' b', In (k', b') d2 -> P a' b' -> Q a' b') ->
    dict_rel Q d1 d2.
Proof.
    unfold dict_rel.
    induction 1 as [|[k1 a1] [k2 b2] r1 r2 [Hk Hp] HF IH]; intros Himp;
      constructor.
    - split; [assumption|]. simpl in *. apply (Himp k2); auto.
    - apply IH. intros k' a' b' Hi. apply (Himp k'). now right.
Qed.

Lemma dict_rel_set (P Q : A -> B -> Prop) (d1 : dict A) (d2 : dict B)
        (k : pykey) (a : A) (b : B) :
    dict_rel P d1 d2 -> dict_wf d2 -> Q a b ->
    (forall k' a' b', In (k', b') d2 -> py_eqb k' k = false ->
                      P a' b' -> Q a' b') ->
    dict_rel Q (dict_set k a d1) (dict_set k b d2).
Proof.
    unfold dict_rel. intros HR.
    induction HR as [|[k1 a1] [k2 b2] r1 r2 [Hk Hp] HF IH];
      intros Hw Hq Himp; simpl.
    - constructor; [split; [reflexivity|exact Hq]|constructor].
    - simpl in Hk, Hp. subst k2. destruct Hw as [Hn Hw].
      destruct (py_eqb k1 k) eqn:E.
      + constructor; [split; [reflexivity|exact Hq]|].
        apply (dict_rel_impl (P := P)); [exact HF|].
        intros k' a' b' Hi Hp'. apply (Himp k'); [now right| |assumption].
        eapply dict_get_none_in; [|exact Hi].
        now rewrite <- (dict_get_congr r2 E).
      + constructor.
        * split; [reflexivity|]. simpl. apply (Himp k1); auto. now left.
        * apply IH; auto. intros k' a' b' Hi. apply (Himp k'). now right.
Qed.

End DictRel.

(** ** Encoding *)

Lemma utf8_encode_app (a b : text) :
  utf8_encode (a ++ b)
  = match utf8_encode a, utf8_encode b with
    | Some x, Some y => Some (x ++ y)
    | _, _ => None
    end.
Proof.
  induction a as [|c a IH]; simpl.
  - destruct (utf8_encode b); reflexivity.
  - rewrite IH. destruct (utf8_encode1 c) as [x|]; [|reflexivity].
    destruct (utf8_encode a) as [y|]; [|reflexivity].
    destruct (utf8_encode b) as [z|]; [|reflexivity].
    now rewrite app_assoc.
Qed.

Lemma utf8_encode_sentinel : utf8_encode sentinel = Some sentinel_bytes.
Proof. reflexivity. Qed.

Lemma utf8_encode_comma : utf8_encode comma = Some [x2c].
Proof. reflexivity. Qed.

Lemma overwrite_tail (old data : bytes) (n : nat) :
  List.length old <= n + List.length data ->
  overwrite_at n data old = firstn n old ++ data.
Proof.
  intros H. unfold overwrite_at. rewrite (skipn_all2 old) by lia.
  now rewrite app_nil_r.
Qed.

Lemma join_pieces_snoc (ps : list text) (p : text) :
  ps <> [] -> join_pieces (ps ++ [p]) = join_pieces ps ++ comma ++ p.
Proof.
  induction ps as [|q r IH]; [congruence|]. intros _.
  destruct r as [|q' r'].
  - reflexivity.
  - change (join_pieces ((q :: q' :: r') ++ [p]))
      with (q ++ comma ++ join_pieces ((q' :: r') ++ [p])).
    rewrite IH by discriminate.
    change (join_pieces (q :: q' :: r'))
      with (q ++ comma ++ join_pieces (q' :: r')).
    now rewrite <- !app_assoc.
Qed.

Lemma encode_group_line (k : pykey) (ps : list text) (content : bytes) :
  utf8_encode (group_line k ps) = Some content ->
  exists body,
    utf8_encode (group_header k ++ join_pieces ps) = Some body /\
    content = body ++ sentinel_bytes.
Proof.
  unfold group_line. rewrite app_assoc, utf8_encode_app, utf8_encode_sentinel.
  destruct (utf8_encode (group_header k ++ join_pieces ps)) as [body|];
    intros H; inversion H. eauto.
Qed.

Lemma group_line_snoc (k : pykey) (ps : list text) (p : text) :
  ps <> [] ->
  group_line k (ps ++ [p])
  = (group_header k ++ join_pieces ps) ++ (comma ++ p ++ sentinel).
Proof.
  intros H. unfold group_line. rewrite join_pieces_snoc by assumption.
  now rewrite <- !app_assoc.
Qed.

Lemma firstn_body (body : bytes) :
  firstn (List.length (body ++ sentinel_bytes) - 3) (body ++ sentinel_bytes)
  = body.
Proof.
  rewrite length_app. simpl. rewrite Nat.add_sub, firstn_app, firstn_all.
  rewrite Nat.sub_diag. simpl. apply app_nil_r.
Qed.

(** ** What [append] does *)

Section Append.

Variable input : bytes.
Variable k : pykey.
Variable mv : MemoryScalable.MapValue.
Variable cur : bytes.
Variable fs : filesystem.

Lemma append_new :
    MemoryScalable.tag mv = MemoryScalable.TAG_NEW ->
    MemoryScalable.append input k mv cur fs
    = match utf8_decode cur with
      | None => (fs, Raise UnicodeDecodeError)
      | Some c =>
        match text_read input (MemoryScalable.start mv)
                        (MemoryScalable.length mv) with
        | None => (fs, Raise UnicodeDecodeError)
        | Some f =>
          match utf8_encode (group_line k [rstrip f; rstrip c]) with
          | None =>
            (fs_store (MemoryScalable.path mv) [] fs,
             Raise UnicodeEncodeError)
          | Some data =>
            (fs_store (MemoryScalable.path mv) data fs,
             Ok (List.length data))
          end
        end
      end.
Proof.
    intros Ht. unfold MemoryScalable.append, bind, lift, ret, raise.
    destruct (utf8_decode cur) as [c|]; [|reflexivity].
    rewrite Ht.
    destruct (text_read _ _ _) as [f|]; [|reflexivity].
    unfold open_w, write_text, group_line. simpl join_pieces.
    rewrite <- !app_assoc.
    destruct (utf8_encode _) as [data|]; [|reflexivity].
    rewrite fs_lookup_store_same, fs_store_store.
    unfold overwrite_at. simpl. now rewrite skipn_nil, app_nil_r.
Qed.

Lemma append_existing (old : bytes) :
    MemoryScalable.tag mv = MemoryScalable.TAG_EXISTING ->
    MemoryScalable.end_offset mv = Some (List.length old) ->
    fs_lookup (MemoryScalable.path mv) fs = Some old ->
    3 <= List.length old ->
    MemoryScalable.append input k mv cur fs
    = match utf8_decode cur with
      | None => (fs, Raise UnicodeDecodeError)
      | Some c =>
        match utf8_encode (comma ++ rstrip c ++ sentinel) with
        | None => (fs, Raise UnicodeEncodeError)
        | Some data =>
          (fs_store (MemoryScalable.path mv)
                    (firstn (List.length old - 3) old ++ data) fs,
           Ok (List.length old - 3 + List.length data))
        end
      end.
Proof.
    intros Ht He Hl H3.
    unfold MemoryScalable.append, bind, lift, ret, raise.
    destruct (utf8_decode cur) as [c|]; [|reflexivity].
    rewrite Ht, He. unfold open_r. rewrite Hl.
    destruct (List.length old <? 3) eqn:E;
      [apply Nat.ltb_lt in E; lia|].
    unfold write_text. rewrite Hl.
    destruct (utf8_encode (comma ++ rstrip c ++ sentinel)) as [data|] eqn:Ed;
      [|reflexivity].
    rewrite overwrite_tail; [reflexivity|].
    rewrite !utf8_encode_app, utf8_encode_sentinel in Ed. simpl in Ed.
    destruct (utf8_encode (rstrip c)) as [pb|]; [|discriminate].
    inversion Ed; subst. simpl. rewrite length_app. simpl. lia.
Qed.

End Append.

(** ** Listing the temporary directory *)

Lemma listdir_app (dir : string) (fs1 fs2 : filesystem) :
  MemoryScalable.listdir dir (fs1 ++ fs2)
  = MemoryScalable.listdir dir fs1 ++ MemoryScalable.listdir dir fs2.
Proof. unfold MemoryScalable.listdir. apply flat_map_app. Qed.

Lemma listdir_store_present (dir p : string) (c d : bytes) (fs : filesystem) :
  fs_lookup p fs = Some d ->
  MemoryScalable.listdir dir (fs_store p c fs) = MemoryScalable.listdir dir fs.
Proof.
  induction fs as [|[q e] r IH]; simpl; [discriminate|].
  destruct (String.eqb q p); simpl; [reflexivity|].
  intros H. unfold MemoryScalable.listdir in *. simpl. now rewrite IH.
Qed.

Lemma lookup_in_listdir (dir p name : string) (d : bytes) (fs : filesystem) :
  fs_lookup p fs = Some d -> under dir p = Some name ->
  has_slash name = false -> In name (MemoryScalable.listdir dir fs).
Proof.
  intros Hl Hu Hs. induction fs as [|[q e] r IH]; simpl in *; [discriminate|].
  unfold MemoryScalable.listdir. simpl. apply in_or_app.
  destruct (String.eqb q p) eqn:E.
  - apply String.eqb_eq in E. subst q. left. rewrite Hu, Hs. now left.
  - right. now apply IH.
Qed.

Lemma temp_names_succ (count : nat) :
  temp_names (count + 1)
  = temp_names count ++ [(str_nat (count + 1) ++ JSONLINE_EXTENSION)%string].
Proof.
  unfold temp_names. rewrite Nat.add_1_r, seq_S, map_app. simpl.
  reflexivity.
Qed.

Lemma temp_file_absent (dir : string) (fs : filesystem) (count j : nat) :
  MemoryScalable.listdir dir fs = temp_names count -> count < j ->
  fs_lookup (temp_path dir j) fs = None.
Proof.
  intros Hl Hj. destruct (fs_lookup (temp_path dir j) fs) as [d|] eqn:E;
    [|reflexivity].
  pose proof (lookup_in_listdir E (temp_path_under dir j)
                                (temp_name_no_slash j)) as Hin.
  rewrite Hl in Hin. unfold temp_names in Hin. apply in_map_iff in Hin.
  destruct Hin as (i & Hi & Hs). apply in_seq in Hs.
  apply string_app_inv_tail in Hi. apply str_nat_inj in Hi. lia.
Qed.

Lemma same_outside_refl (dir : string) (fs : filesystem) :
  same_outside dir fs fs.
Proof. intros p _. reflexivity. Qed.

Lemma same_outside_trans (dir : string) (fs1 fs2 fs3 : filesystem) :
  same_outside dir fs1 fs2 -> same_outside dir fs2 fs3 ->
  same_outside dir fs1 fs3.
Proof. intros H1 H2 p Hp. rewrite (H2 p Hp). now apply H1. Qed.

Lemma same_outside_store (dir : string) (fs : filesystem) (j : nat) (c : bytes) :
  same_outside dir fs (fs_store (temp_path dir j) c fs).
Proof.
  intros p Hp. apply fs_lookup_store_other. intros E. subst p.
  rewrite temp_path_under in Hp. discriminate.
Qed.

(** ** The ledger stays in order *)

Section LedgerOk.

Variable ijson_items : bytes -> option (list pyval).
Variable input : bytes.

Lemma ledger_step_ok (lst lst' : nat * dict entry) (r : nat * bytes) :
    ledger_ok lst -> ledger_step ijson_items input lst r = Ok lst' ->
    ledger_ok lst'.
Proof.
    destruct lst as [count led]. intros (Hw & Hb & Hd & Hj) Hs.
    unfold ledger_step in Hs. simpl in *.
    destruct (fingerprint_key ijson_items (snd r)) as [k|]; [|discriminate].
    destruct (dict_get k led) as [[loc [g|]]|] eqn:Eg.
    - (* a further occurrence *)
      destruct (utf8_decode (snd r)) as [cur|]; [|discriminate].
      destruct (encodable _); [|discriminate].
      inversion Hs; subst; clear Hs.
      destruct (dict_get_in Eg) as (k0 & Hk0 & Hin0).
      unfold ledger_ok. simpl. split; [now apply dict_set_wf|]. split; [|split].
      + intros k1 loc1 g1 Hin. apply dict_set_in in Hin; [|assumption].
        destruct Hin as [[_ Heq]|[_ Hin]]; [|eauto].
        inversion Heq; subst. simpl. destruct (Hb _ _ _ Hin0) as [? _].
        split; [assumption|]. intros Habs. apply app_eq_nil in Habs.
        destruct Habs; discriminate.
      + intros k1 l1 g1 k2 l2 g2 H1 H2 Hi.
        apply dict_set_in in H1; [|assumption].
        apply dict_set_in in H2; [|assumption].
        destruct H1 as [[Hk1 E1]|[Hk1 H1]], H2 as [[Hk2 E2]|[Hk2 H2]].
        * rewrite py_eqb_sym in Hk2. eapply py_eqb_trans; eauto.
        * inversion E1; subst. simpl in Hi.
          pose proof (Hd _ _ _ _ _ _ Hin0 H2 Hi) as Hx.
          rewrite py_eqb_sym in Hx. rewrite (py_eqb_trans Hx Hk0) in Hk2.
          discriminate.
        * inversion E2; subst. simpl in Hi.
          pose proof (Hd _ _ _ _ _ _ H1 Hin0 Hi) as Hx.
          rewrite (py_eqb_trans Hx Hk0) in Hk1. discriminate.
        * eauto.
      + intros j Hj'. destruct (Hj j Hj') as (k1 & l1 & g1 & Hin1 & Hi1).
        destruct (py_eqb k1 k) eqn:Ek.
        * pose proof (dict_wf_get Hw Hin1 Ek Eg) as Heq.
          inversion Heq; subst.
          destruct (dict_set_in_new led k
                      (loc, Some (mkGroup (g_index g) (g_key g)
                                    (g_pieces g ++ [rstrip cur]))))
            as (k2 & _ & Hin2).
          exists k2, loc. eexists. split; [exact Hin2|reflexivity].
        * exists k1, l1, g1. split; [|assumption].
          now apply dict_set_in_other.
    - (* the second occurrence *)
      destruct (utf8_decode (snd r)) as [cur|]; [|discriminate].
      destruct (text_read _ _ _) as [first|]; [|discriminate].
      destruct (encodable _); [|discriminate].
      inversion Hs; subst; clear Hs.
      unfold ledger_ok. simpl. split; [now apply dict_set_wf|]. split; [|split].
      + intros k1 loc1 g1 Hin. apply dict_set_in in Hin; [|assumption].
        destruct Hin as [[_ Heq]|[_ Hin]].
        * inversion Heq; subst. simpl. split; [lia|discriminate].
        * destruct (Hb _ _ _ Hin). split; [lia|assumption].
      + intros k1 l1 g1 k2 l2 g2 H1 H2 Hi.
        apply dict_set_in in H1; [|assumption].
        apply dict_set_in in H2; [|assumption].
        destruct H1 as [[Hk1 E1]|[Hk1 H1]], H2 as [[Hk2 E2]|[Hk2 H2]].
        * rewrite py_eqb_sym in Hk2. eapply py_eqb_trans; eauto.
        * inversion E1; subst. simpl in Hi.
          destruct (Hb _ _ _ H2). lia.
        * inversion E2; subst. simpl in Hi.
          destruct (Hb _ _ _ H1). lia.
        * eauto.
      + intros j Hj'. destruct (Nat.eq_dec j (count + 1)) as [->|Hne].
        * destruct (dict_set_in_new led k
                      (loc, Some (mkGroup (count + 1) k
                                    [rstrip first; rstrip cur])))
            as (k2 & _ & Hin2).
          exists k2, loc. eexists. split; [exact Hin2|reflexivity].
        * destruct (Hj j) as (k1 & l1 & g1 & Hin1 & Hi1); [lia|].
          destruct (py_eqb k1 k) eqn:Ek.
          -- pose proof (dict_wf_get Hw Hin1 Ek Eg) as Heq. discriminate.
          -- exists k1, l1, g1. split; [|assumption].
             now apply dict_set_in_other.
    - (* the first occurrence *)
      inversion Hs; subst; clear Hs.
      unfold ledger_ok. simpl. split; [now apply dict_set_wf|]. split; [|split].
      + intros k1 loc1 g1 Hin. apply dict_set_in in Hin; [|assumption].
        destruct Hin as [[_ Heq]|[_ Hin]]; [discriminate|eauto].
      + intros k1 l1 g1 k2 l2 g2 H1 H2 Hi.
        apply dict_set_in in H1; [|assumption].
        apply dict_set_in in H2; [|assumption].
        destruct H1 as [[Hk1 E1]|[Hk1 H1]], H2 as [[Hk2 E2]|[Hk2 H2]];
          try discriminate. eauto.
      + intros j Hj'. destruct (Hj j Hj') as (k1 & l1 & g1 & Hin1 & Hi1).
        destruct (py_eqb k1 k) eqn:Ek.
        * pose proof (dict_wf_in Hw Hin1) as H.
          rewrite (dict_get_congr led Ek) in H. congruence.
        * exists k1, l1, g1. split; [|assumption].
          now apply dict_set_in_other.
Qed.

Lemma ledger_steps_ok (recs : list (nat * bytes))
        (lst lst' : nat * dict entry) :
    ledger_ok lst -> ledger_steps ijson_items input recs lst = Ok lst' ->
    ledger_ok lst'.
Proof.
    revert lst. induction recs as [|r rest IH]; intros lst Hok; simpl.
    - intros H; inversion H; subst; assumption.
    - destruct (ledger_step ijson_items input lst r) as [lst1|] eqn:E;
        [|discriminate].
      apply IH. eapply ledger_step_ok; eauto.
Qed.

Lemma ledger_ok_init : ledger_ok (0, []).
Proof.
    unfold ledger_ok. simpl. repeat split; intros; try contradiction; lia.
Qed.

End LedgerOk.

(** ** The disk-resident run follows the ledger *)

Section Refinement.

Variable ijson_items : bytes -> option (list pyval).
Variable temp_dir : string.
Variable input : bytes.

Lemma entry_agrees_store (fs : filesystem) (j : nat) (c : bytes)
        (mv : MemoryScalable.MapValue) (e : entry) :
    (forall g, snd e = Some g -> g_index g <> j) ->
    entry_agrees temp_dir fs mv e ->
    entry_agrees temp_dir (fs_store (temp_path temp_dir j) c fs) mv e.
Proof.
    intros Hj (Hs & Hl & He). unfold entry_agrees.
    split; [assumption|]. split; [assumption|].
    destruct (snd e) as [g|]; [|assumption].
    destruct He as (Ht & Hp & content & Hc & Hf & Ho).
    split; [assumption|]. split; [assumption|].
    exists content. split; [assumption|]. split; [|assumption].
    rewrite fs_lookup_store_other; [assumption|].
    intros E. apply temp_path_inj in E. now apply (Hj g).
Qed.

Lemma disk_step_refines (fs : filesystem)
        (st : nat * dict MemoryScalable.MapValue)
        (lst : nat * dict entry) (r : nat * bytes) :
    refines temp_dir fs st lst -> ledger_ok lst ->
    match ledger_step ijson_items input lst r with
    | Ok lst' =>
      exists fs' st',
        disk_step ijson_items temp_dir input st r fs = (fs', Ok st') /\
        refines temp_dir fs' st' lst' /\ same_outside temp_dir fs fs'
    | Raise e =>
      exists fs',
        disk_step ijson_items temp_dir input st r fs = (fs', Raise e) /\
        same_outside temp_dir fs fs'
    end.
Proof.
    destruct st as [count fpm], lst as [count' led].
    intros (Hc & Hrel & Hls) (Hw & Hb & Hd & _). simpl in *. subst count'.
    unfold ledger_step, disk_step, bind, lift_result.
    cbn [fst snd MemoryScalable.start MemoryScalable.length
         MemoryScalable.tag MemoryScalable.path MemoryScalable.end_offset].
    destruct (fingerprint_key ijson_items (snd r)) as [k|e];
      [|exists fs; split; [reflexivity|apply same_outside_refl]].
    destruct (dict_get k led) as [[loc [g|]]|] eqn:Eg.
    - (* a further occurrence *)
      destruct (dict_rel_get_some Hrel Eg) as (mv & Em & Hs & Hl & Ha).
      simpl in Hs, Hl, Ha. destruct Ha as (Ht & Hp & content & Hco & Hf & Ho).
      destruct (dict_get_in Eg) as (k0 & Hk0 & Hin0).
      destruct (encode_group_line Hco) as (body & Hbody & Econtent).
      assert (H3 : 3 <= List.length content).
      { subst content. rewrite length_app. simpl. lia. }
      rewrite Em, Ht. rewrite <- Hp in Hf.
      rewrite (@append_existing input k mv (snd r) fs content Ht Ho Hf H3).
      destruct (utf8_decode (snd r)) as [cur|];
        [|exists fs; split; [reflexivity|apply same_outside_refl]].
      unfold encodable.
      destruct (utf8_encode (comma ++ rstrip cur ++ sentinel)) as [data|] eqn:Ed;
        [|exists fs; split; [reflexivity|apply same_outside_refl]].
      eexists. eexists. split; [reflexivity|]. rewrite Hp.
      split; [|apply same_outside_store].
      unfold refines. simpl. split; [reflexivity|]. split.
      + apply dict_rel_set with (P := entry_agrees temp_dir fs);
          [assumption|assumption| |].
        * unfold entry_agrees. projs.
          split; [assumption|]. split; [assumption|].
          split; [reflexivity|]. split; [reflexivity|].
          exists (firstn (List.length content - 3) content ++ data).
          split; [|split].
          -- destruct (Hb _ _ _ Hin0) as [_ Hne].
             rewrite group_line_snoc by assumption.
             rewrite utf8_encode_app, Hbody, Ed. subst content.
             now rewrite firstn_body.
          -- apply fs_lookup_store_same.
          -- f_equal. rewrite length_app, length_firstn. lia.
        * intros k' mv' e' Hin Hk' Hag. apply entry_agrees_store; [|assumption].
          intros g' Hg' Hi. destruct e' as [loc' ge']. simpl in Hg'. subst ge'.
          pose proof (Hd _ _ _ _ _ _ Hin Hin0 Hi) as Hx.
          rewrite (py_eqb_trans Hx Hk0) in Hk'. discriminate.
      + rewrite <- Hp. now rewrite (listdir_store_present _ _ Hf).
    - (* the second occurrence *)
      destruct (dict_rel_get_some Hrel Eg) as (mv & Em & Hs & Hl & Ha).
      simpl in Hs, Hl, Ha. destruct Ha as (Ht & Hp & Ho).
      rewrite Em, Ht. rewrite append_new by reflexivity. projs.
      rewrite Hs, Hl.
      destruct (utf8_decode (snd r)) as [cur|];
        [|exists fs; split; [reflexivity|apply same_outside_refl]].
      destruct (text_read input (fst loc) (snd loc)) as [first|];
        [|exists fs; split; [reflexivity|apply same_outside_refl]].
      unfold encodable.
      destruct (utf8_encode (group_line k [rstrip first; rstrip cur]))
        as [data|] eqn:Ed;
        [|eexists; split; [reflexivity|apply same_outside_store]].
      eexists. eexists. split; [reflexivity|].
      split; [|apply same_outside_store].
      unfold refines. simpl. split; [reflexivity|]. split.
      + apply dict_rel_set with (P := entry_agrees temp_dir fs);
          [assumption|assumption| |].
        * unfold entry_agrees. projs.
          split; [reflexivity|]. split; [reflexivity|].
          split; [reflexivity|]. split; [reflexivity|].
          exists data. split; [assumption|]. split; [|reflexivity].
          apply fs_lookup_store_same.
        * intros k' mv' e' Hin Hk' Hag. apply entry_agrees_store; [|assumption].
          intros g' Hg' Hi. destruct e' as [loc' ge']. simpl in Hg'. subst ge'.
          destruct (Hb _ _ _ Hin). lia.
      + fold (temp_path temp_dir (count + 1)).
        rewrite fs_store_absent
          by (eapply temp_file_absent; [eassumption|lia]).
        rewrite listdir_app, Hls, temp_names_succ. f_equal.
        unfold MemoryScalable.listdir. simpl.
        now rewrite temp_path_under, temp_name_no_slash.
    - (* the first occurrence *)
      rewrite (dict_rel_get_none Hrel Eg). unfold ret.
      eexists. eexists. split; [reflexivity|].
      split; [|apply same_outside_refl].
      unfold refines. simpl. split; [reflexivity|]. split; [|assumption].
      apply dict_rel_set with (P := entry_agrees temp_dir fs);
        [assumption|assumption| |auto].
      unfold entry_agrees. simpl. repeat split. lia.
Qed.

End Refinement.

Section RefinementRun.

Variable ijson_items : bytes -> option (list pyval).
Variable temp_dir : string.
Variable input : bytes.

Lemma disk_steps_refines (recs : list (nat * bytes)) (fs : filesystem)
        (st : nat * dict MemoryScalable.MapValue) (lst : nat * dict entry) :
    refines temp_dir fs st lst -> ledger_ok lst ->
    match ledger_steps ijson_items input recs lst with
    | Ok lst' =>
      exists fs' st',
        disk_steps ijson_items temp_dir input recs st fs = (fs', Ok st') /\
        refines temp_dir fs' st' lst' /\ same_outside temp_dir fs fs'
    | Raise e =>
      exists fs',
        disk_steps ijson_items temp_dir input recs st fs = (fs', Raise e) /\
        same_outside temp_dir fs fs'
    end.
Proof.
    revert fs st lst. induction recs as [|r rest IH]; intros fs st lst Hr Hok.
    - simpl. exists fs, st. split; [reflexivity|]. split; [assumption|].
      apply same_outside_refl.
    - cbn [ledger_steps disk_steps]. unfold bind.
      pose proof (@disk_step_refines ijson_items temp_dir input fs st lst r
                    Hr Hok) as Hstep.
      destruct (ledger_step ijson_items input lst r) as [lst1|e] eqn:E.
      + destruct Hstep as (fs1 & st1 & Hd & Hr1 & Ho1). rewrite Hd.
        pose proof (ledger_step_ok Hok E) as Hok1.
        specialize (IH fs1 st1 lst1 Hr1 Hok1).
        destruct (ledger_steps ijson_items input rest lst1) as [lst2|e2].
        * destruct IH as (fs2 & st2 & Hd2 & Hr2 & Ho2).
          exists fs2, st2. split; [assumption|]. split; [assumption|].
          eapply same_outside_trans; eauto.
        * destruct IH as (fs2 & Hd2 & Ho2). exists fs2.
          split; [assumption|]. eapply same_outside_trans; eauto.
      + destruct Hstep as (fs1 & Hd & Ho1). rewrite Hd. eauto.
Qed.

End RefinementRun.

(** ** [rmtree] *)

Lemma listdir_rmtree (dir : string) (fs : filesystem) :
  MemoryScalable.listdir dir (rmtree dir fs) = [].
Proof.
  unfold MemoryScalable.listdir, rmtree.
  induction fs as [|[q e] r IH]; simpl; [reflexivity|].
  destruct (under dir q) eqn:E; simpl; [assumption|].
  now rewrite E.
Qed.

Lemma fs_lookup_rmtree (dir p : string) (fs : filesystem) :
  fs_lookup p (rmtree dir fs)
  = match under dir p with Some _ => None | None => fs_lookup p fs end.
Proof.
  unfold rmtree. induction fs as [|[q e] r IH]; simpl.
  - now destruct (under dir p).
  - destruct (String.eqb q p) eqn:E.
    + apply String.eqb_eq in E. subst q.
      destruct (under dir p) eqn:U; simpl; [assumption|].
      now rewrite String.eqb_refl.
    + destruct (under dir q) eqn:U; simpl; [assumption|].
      now rewrite E.
Qed.

Lemma listdir_store_outside (dir p : string) (c : bytes) (fs : filesystem) :
  under dir p = None ->
  MemoryScalable.listdir dir (fs_store p c fs) = MemoryScalable.listdir dir fs.
Proof.
  intros Hu. unfold MemoryScalable.listdir.
  induction fs as [|[q e] r IH]; simpl.
  - now rewrite Hu.
  - destruct (String.eqb q p) eqn:E; simpl; [reflexivity|].
    now rewrite IH.
Qed.

(** ** The temporary files are the files of the ledger *)

Lemma group_with_index_in (led : dict entry) (j : nat) (g : group) :
  group_with_index led j = Some g ->
  g_index g = j /\ exists k loc, In (k, (loc, Some g)) led.
Proof.
  induction led as [|[k [loc [g0|]]] r IH]; simpl; [discriminate| |].
  - destruct (g_index g0 =? j) eqn:E.
    + intros H; inversion H; subst. apply Nat.eqb_eq in E.
      split; [assumption|]. exists k, loc. now left.
    + intros H. destruct (IH H) as (? & k' & loc' & ?).
      split; [assumption|]. exists k', loc'. now right.
  - intros H. destruct (IH H) as (? & k' & loc' & ?).
    split; [assumption|]. exists k', loc'. now right.
Qed.

Lemma group_with_index_some (led : dict entry) (j : nat) (k : pykey)
      (loc : nat * nat) (g : group) :
  In (k, (loc, Some g)) led -> g_index g = j ->
  exists g', group_with_index led j = Some g'.
Proof.
  induction led as [|[k0 [loc0 [g0|]]] r IH]; simpl; [tauto| |].
  - intros [H|H] Hj.
    + inversion H; subst. rewrite Nat.eqb_refl. eauto.
    + destruct (g_index g0 =? j); eauto.
  - intros [H|H] Hj; [discriminate|eauto].
Qed.

Lemma dict_rel_in (A B : Type) (P : A -> B -> Prop) (d1 : dict A)
      (d2 : dict B) (k : pykey) (b : B) :
  dict_rel P d1 d2 -> In (k, b) d2 -> exists a, In (k, a) d1 /\ P a b.
Proof.
  unfold dict_rel.
  induction 1 as [|[k1 a1] [k2 b2] r1 r2 [Hk Hp] HF IH]; simpl; [tauto|].
  simpl in Hk, Hp. subst k2. intros [H|H].
  - inversion H; subst. exists a1. split; [now left|assumption].
  - destruct (IH H) as (a & ? & ?). exists a. split; [now right|assumption].
Qed.

Lemma temp_file_content (temp_dir : string) (fs : filesystem)
      (fpm : dict MemoryScalable.MapValue) (count : nat) (led : dict entry)
      (j : nat) :
  refines temp_dir fs (count, fpm) (count, led) -> ledger_ok (count, led) ->
  1 <= j <= count ->
  fs_lookup (temp_path temp_dir j) fs = Some (file_bytes led j).
Proof.
  intros (_ & Hrel & _) (_ & _ & _ & Hsur) Hj. simpl in *.
  destruct (Hsur j Hj) as (k & loc & g & Hin & Hi).
  destruct (group_with_index_some Hin Hi) as (g' & Eg).
  unfold file_bytes. rewrite Eg.
  destruct (group_with_index_in Eg) as (Hi' & k' & loc' & Hin').
  destruct (dict_rel_in Hrel Hin') as (mv & _ & _ & _ & Ha).
  cbn [snd] in Ha. destruct Ha as (_ & _ & content & Hc & Hf & _).
  unfold group_bytes. rewrite Hc. now rewrite <- Hi'.
Qed.

Lemma fs_store_same_content (p : string) (c : bytes) (fs : filesystem) :
  fs_lookup p fs = Some c -> fs_store p c fs = fs.
Proof.
  induction fs as [|[q e] r IH]; simpl; [discriminate|].
  destruct (String.eqb q p).
  - intros H; inversion H; reflexivity.
  - intros H. now rewrite IH.
Qed.

Lemma copy_files_spec (temp_dir outfile : string) (F : nat -> bytes)
      (js : list nat) (fs : filesystem) (old : bytes) :
  under temp_dir outfile = None ->
  (forall j, In j js -> fs_lookup (temp_path temp_dir j) fs = Some (F j)) ->
  fs_lookup outfile fs = Some old ->
  MemoryScalable.copy_files outfile (map (temp_path temp_dir) js) fs
  = (fs_store outfile (old ++ List.concat (map F js)) fs, Ok tt).
Proof.
  intros Hu. revert fs old.
  induction js as [|j rest IH]; intros fs old Hf Ho; simpl.
  - unfold ret. rewrite app_nil_r. f_equal.
    symmetry. now apply fs_store_same_content.
  - unfold bind, open_r. rewrite (Hf j (or_introl eq_refl)), Ho.
    rewrite IH with (old := old ++ F j).
    + now rewrite fs_store_store, <- app_assoc.
    + intros i Hi. rewrite fs_lookup_store_other; [apply Hf; now right|].
      intros E. subst outfile. rewrite temp_path_under in Hu. discriminate.
    + apply fs_lookup_store_same.
Qed.

(** ** The disk-resident script as a whole *)

Lemma strip_prefix_app_app (a b c : string) :
  strip_prefix (a ++ b) (a ++ c) = strip_prefix b c.
Proof.
  induction a as [|x a IH]; simpl; [reflexivity|].
  now rewrite Ascii.eqb_refl.
Qed.

Lemma out_file_not_temp (od : string) :
  under (temp_dir_of od) (out_file od) = None.
Proof.
  unfold under, temp_dir_of, out_file, get_file_path.
  rewrite string_app_assoc, strip_prefix_app_app. reflexivity.
Qed.

Lemma out_file_under_out_dir (od : string) :
  under (out_dir od) (out_file od)
  = Some "duplicate_certificates.jsonline"%string.
Proof.
  unfold under, out_file, get_file_path.
  rewrite <- string_app_assoc, strip_prefix_app. reflexivity.
Qed.

Section DiskRun.

Variable ijson_items : bytes -> option (list pyval).
Variable scandir_order : list string -> list string.
Variable input : bytes.
Variable od : string.
Variable fs0 : filesystem.

Let temp := temp_dir_of od.
Let fs1 := rmtree temp (rmtree (out_dir od) fs0).

Lemma disk_process_data_spec :
    match ledger_steps ijson_items input (records input) (0, []) with
    | Ok lst =>
      exists fs' fpm,
        MemoryScalable.process_data ijson_items MemoryScalable.init
                                    (Some input) od fs0
        = (fs', Ok (MemoryScalable.mkSelf input (out_file od) temp
                                          "output"%string fpm)) /\
        refines temp fs' (fst lst, fpm) lst /\ same_outside temp fs1 fs'
    | Raise e =>
      exists fs',
        MemoryScalable.process_data ijson_items MemoryScalable.init
                                    (Some input) od fs0 = (fs', Raise e) /\
        same_outside temp fs1 fs'
    end.
Proof.
    assert (Hr : refines temp fs1 (0, []) (0, [])).
    { unfold refines. simpl. split; [reflexivity|]. split; [constructor|].
      apply listdir_rmtree. }
    pose proof (@disk_steps_refines ijson_items temp input (records input)
                  fs1 _ _ Hr ledger_ok_init) as H.
    unfold MemoryScalable.process_data, MemoryScalable.init, bind,
      clean_and_create_directory.
    cbn [MemoryScalable.output_directory MemoryScalable.temp_directory
         MemoryScalable.output_file MemoryScalable.finger_print_map].
    fold (out_dir od).
    change (out_dir od ++ "/" ++ "temp")%string with (temp_dir_of od).
    change (get_file_path (out_dir od) "duplicate_certificates"
                          JSONLINE_EXTENSION) with (out_file od).
    unfold fs1, temp in *.
    rewrite disk_loop_steps by lia. fold (records input).
    destruct (ledger_steps ijson_items input (records input) (0, []))
      as [lst|e].
    - destruct H as (fs' & [count fpm] & Hd & Hrf & Ho).
      match goal with
      | |- context [disk_steps ?a ?b ?c ?d ?e ?f] =>
        replace (disk_steps a b c d e f) with (fs', @Ok _ (count, fpm))
          by (symmetry; exact Hd)
      end.
      exists fs', fpm. split; [reflexivity|].
      destruct Hrf as (Hc & Hrel & Hls). simpl in Hc. subst count.
      split; [|assumption]. split; [reflexivity|]. split; assumption.
    - destruct H as (fs' & Hd & Ho).
      match goal with
      | |- context [disk_steps ?a1 ?a2 ?a3 ?a4 ?a5 ?a6] =>
        replace (disk_steps a1 a2 a3 a4 a5 a6)
          with (fs', @Raise (nat * dict MemoryScalable.MapValue) e)
          by (symmetry; exact Hd)
      end.
      eauto.
Qed.

End DiskRun.

Section DiskMain.

Variable ijson_items : bytes -> option (list pyval).
Variable scandir_order : list string -> list string.

  (** Listing a directory gives every name once. *)
Hypothesis scandir_permutation :
    forall names, Permutation (scandir_order names) names.

Variable input : bytes.
Variable od : string.
Variable fs0 : filesystem.

Lemma glob_temp (fs : filesystem) (count : nat) :
    MemoryScalable.listdir (temp_dir_of od) fs = temp_names count ->
    exists js,
      scandir_order (temp_names count) = map temp_name js /\
      Permutation (seq 1 count) js /\
      MemoryScalable.glob scandir_order (temp_dir_of od)
                          JSONLINE_EXTENSION fs
      = map (temp_path (temp_dir_of od)) js.
Proof.
    intros Hl. unfold MemoryScalable.glob. rewrite Hl.
    destruct (Permutation_map_inv temp_name (seq 1 count)
                (scandir_permutation (temp_names count))) as (js & Ej & Hp).
    exists js. split; [assumption|]. split; [assumption|].
    fold temp_name in Ej. rewrite Ej.
    rewrite forallb_filter_id.
    - rewrite map_map. apply map_ext. reflexivity.
    - apply forallb_forall. intros name Hin. apply in_map_iff in Hin.
      destruct Hin as (j & <- & _). apply temp_name_matches.
Qed.

Theorem disk_main_spec :
    match ledger_steps ijson_items input (records input) (0, []) with
    | Ok lst =>
      exists fs' self js,
        MemoryScalable.main ijson_items scandir_order (Some input) od fs0
        = (fs', Ok self) /\
        MemoryScalable.output_file self = out_file od /\
        scandir_order (temp_names (fst lst)) = map temp_name js /\
        Permutation (seq 1 (fst lst)) js /\
        fs_lookup (out_file od) fs'
        = Some (List.concat (map (file_bytes (snd lst)) js))
    | Raise e =>
      exists fs',
        MemoryScalable.main ijson_items scandir_order (Some input) od fs0
        = (fs', Raise e) /\
        fs_lookup (out_file od) fs' = None
    end.
Proof.
    pose proof (disk_process_data_spec ijson_items input od fs0) as H.
    pose proof (@ledger_steps_ok ijson_items input (records input)
                  (0, []) ) as Hok.
    unfold MemoryScalable.main, bind.
    destruct (ledger_steps ijson_items input (records input) (0, []))
      as [[count led]|e].
    - destruct H as (fs' & fpm & Hp & Hr & Ho). rewrite Hp.
      specialize (Hok _ ledger_ok_init eq_refl). simpl fst in *. simpl snd.
      unfold MemoryScalable.merge_and_create_output, bind, open_w,
        clean_directory, ret.
      cbn [MemoryScalable.output_file MemoryScalable.temp_directory].
      destruct (@glob_temp (fs_store (out_file od) [] fs') count)
        as (js & Ej & Hperm & Hg).
      { rewrite listdir_store_outside by apply out_file_not_temp.
        apply Hr. }
      rewrite Hg.
      rewrite (@copy_files_spec (temp_dir_of od) (out_file od)
                 (file_bytes led) js _ []).
      + eexists. eexists. exists js. split; [reflexivity|].
        split; [reflexivity|]. split; [assumption|]. split; [assumption|].
        rewrite fs_lookup_rmtree, out_file_not_temp.
        rewrite fs_store_store. apply fs_lookup_store_same.
      + apply out_file_not_temp.
      + intros j Hj. rewrite fs_lookup_store_other.
        * apply (temp_file_content Hr Hok).
          apply (Permutation_in _ (Permutation_sym Hperm)) in Hj.
          apply in_seq in Hj. lia.
        * intros E. pose proof (out_file_not_temp od) as Hn.
          rewrite E, temp_path_under in Hn. discriminate.
      + apply fs_lookup_store_same.
    - destruct H as (fs' & Hp & Ho). rewrite Hp. exists fs'.
      split; [reflexivity|].
      rewrite (Ho _ (out_file_not_temp od)).
      rewrite fs_lookup_rmtree, out_file_not_temp.
      now rewrite fs_lookup_rmtree, out_file_under_out_dir.
Qed.

End DiskMain.

(** ** Ledger and index against the occurrences *)

Section TrackingFacts.

Variable ijson_items : bytes -> option (list pyval).
Variable input : bytes.

Lemma occurrences_snoc (k : pykey) (recs : list (nat * bytes))
        (r : nat * bytes) :
    occurrences ijson_items k (recs ++ [r])
    = occurrences ijson_items k recs
      ++ (if has_key ijson_items k r then [r] else []).
Proof. unfold occurrences. now rewrite filter_app. Qed.

Lemma ledger_steps_app (a b : list (nat * bytes)) (lst : nat * dict entry) :
    ledger_steps ijson_items input (a ++ b) lst
    = match ledger_steps ijson_items input a lst with
      | Ok lst' => ledger_steps ijson_items input b lst'
      | Raise e => Raise e
      end.
Proof.
    revert lst. induction a as [|r a IH]; intros lst; simpl; [reflexivity|].
    destruct (ledger_step ijson_items input lst r); [apply IH|reflexivity].
Qed.

Lemma mem_steps_app (a b : list (nat * bytes))
        (fpm : dict RuntimeOptimized.MapValue) :
    mem_steps ijson_items (a ++ b) fpm
    = match mem_steps ijson_items a fpm with
      | Ok fpm' => mem_steps ijson_items b fpm'
      | Raise e => Raise e
      end.
Proof.
    revert fpm. induction a as [|r a IH]; intros fpm; simpl; [reflexivity|].
    destruct (mem_step ijson_items fpm r); [apply IH|reflexivity].
Qed.

Lemma has_key_congr (k k' : pykey) (r : nat * bytes) :
    py_eqb k k' = true -> has_key ijson_items k r = has_key ijson_items k' r.
Proof.
    intros H. unfold has_key.
    destruct (fingerprint_key ijson_items (snd r)); [|reflexivity].
    now apply py_eqb_congr.
Qed.

Lemma occurrences_congr (k k' : pykey) (recs : list (nat * bytes)) :
    py_eqb k k' = true ->
    occurrences ijson_items k recs = occurrences ijson_items k' recs.
Proof.
    intros H. unfold occurrences. apply filter_ext. intros r.
    now apply has_key_congr.
Qed.

Lemma index_step_tracks (recs : list (nat * bytes)) (r : nat * bytes)
        (fpm fpm' : dict RuntimeOptimized.MapValue) :
    index_tracks ijson_items recs fpm ->
    mem_step ijson_items fpm r = Ok fpm' ->
    index_tracks ijson_items (recs ++ [r]) fpm'.
Proof.
    intros Ht Hs k. rewrite occurrences_snoc. unfold has_key.
    unfold mem_step in Hs.
    destruct (fingerprint_key ijson_items (snd r)) as [kr|] eqn:Ek;
      [|discriminate].
    rewrite Nat.add_comm, Nat.add_sub in Hs. fold (location r) in Hs.
    destruct (py_eqb kr k) eqn:E.
    - pose proof (Ht k) as Hk.
      rewrite <- (dict_get_congr fpm E) in Hk.
      destruct (occurrences ijson_items k recs) as [|r1 rest].
      + rewrite Hk in Hs. inversion Hs; subst. simpl.
        now apply dict_get_set_same.
      + rewrite Hk in Hs. inversion Hs; subst. projs.
        rewrite (dict_get_set_same _ _ E).
        simpl. now rewrite map_app.
    - pose proof (Ht k) as Hk. rewrite app_nil_r.
      destruct (dict_get kr fpm); inversion Hs; subst;
        rewrite dict_get_set_other by assumption; exact Hk.
Qed.

Lemma index_steps_tracks (recs : list (nat * bytes))
        (fpm : dict RuntimeOptimized.MapValue) :
    mem_steps ijson_items recs [] = Ok fpm ->
    index_tracks ijson_items recs fpm /\ dict_wf fpm.
Proof.
    revert fpm. induction recs as [|r recs IH] using rev_ind; intros fpm.
    - simpl. intros H; inversion H; subst. split; [|exact I].
      intros k. reflexivity.
    - rewrite mem_steps_app.
      destruct (mem_steps ijson_items recs []) as [fpm0|] eqn:E;
        [|discriminate].
      simpl. destruct (mem_step ijson_items fpm0 r) as [fpm1|] eqn:E1;
        [|discriminate].
      intros H; inversion H; subst. destruct (IH _ eq_refl) as [Ht Hw].
      split; [eapply index_step_tracks; eauto|].
      unfold mem_step in E1.
      destruct (fingerprint_key ijson_items (snd r)); [|discriminate].
      destruct (dict_get a fpm0); inversion E1; now apply dict_set_wf.
Qed.

Lemma ledger_step_tracks (recs : list (nat * bytes)) (r : nat * bytes)
        (lst lst' : nat * dict entry) :
    ledger_tracks ijson_items input recs (snd lst) ->
    ledger_step ijson_items input lst r = Ok lst' ->
    ledger_tracks ijson_items input (recs ++ [r]) (snd lst').
Proof.
    destruct lst as [count led]. intros Ht Hs k. simpl in Ht.
    rewrite occurrences_snoc. unfold has_key.
    unfold ledger_step in Hs. cbn [fst snd] in Hs.
    destruct (fingerprint_key ijson_items (snd r)) as [kr|] eqn:Ek;
      [|discriminate].
    pose proof (Ht k) as Hk.
    destruct (py_eqb kr k) eqn:E.
    - rewrite <- (dict_get_congr led E) in Hk.
      destruct (occurrences ijson_items k recs) as [|r1 [|r2 more]].
      + rewrite Hk in Hs. inversion Hs; subst. simpl.
        now apply dict_get_set_same.
      + rewrite Hk in Hs.
        destruct (utf8_decode (snd r)) as [cur|] eqn:Ec; [|discriminate].
        destruct (text_read input (fst (location r1)) (snd (location r1)))
          as [first|] eqn:Ef; [|discriminate].
        destruct (encodable _); [|discriminate].
        inversion Hs; subst. simpl.
        eexists. exists (rstrip first), [rstrip cur].
        split; [now apply dict_get_set_same|].
        split; [exact Ek|]. split; [reflexivity|].
        split; [exists first; auto|].
        constructor; [exists cur; auto|constructor].
      + destruct Hk as (g & p1 & ps & Hg & Hkey & Hp & Hr & Hl).
        rewrite Hg in Hs.
        destruct (utf8_decode (snd r)) as [cur|] eqn:Ec; [|discriminate].
        destruct (encodable _); [|discriminate].
        inversion Hs; subst. simpl.
        eexists. exists p1, (ps ++ [rstrip cur]).
        split; [now apply dict_get_set_same|].
        split; [exact Hkey|]. split; [simpl; now rewrite Hp|].
        split; [assumption|].
        change (r2 :: more ++ [r]) with ((r2 :: more) ++ [r]).
        apply Forall2_app; [assumption|].
        constructor; [exists cur; auto|constructor].
    - rewrite app_nil_r.
      assert (Hset : forall v, dict_get k (dict_set kr v led) = dict_get k led)
        by (intros v; now apply dict_get_set_other).
      destruct (dict_get kr led) as [[loc [g|]]|].
      + destruct (utf8_decode (snd r)); [|discriminate].
        destruct (encodable _); [|discriminate].
        inversion Hs; subst. simpl. now rewrite Hset.
      + destruct (utf8_decode (snd r)); [|discriminate].
        destruct (text_read _ _ _); [|discriminate].
        destruct (encodable _); [|discriminate].
        inversion Hs; subst. simpl. now rewrite Hset.
      + inversion Hs; subst. simpl. now rewrite Hset.
Qed.

Lemma ledger_steps_tracks (recs : list (nat * bytes))
        (lst : nat * dict entry) :
    ledger_steps ijson_items input recs (0, []) = Ok lst ->
    ledger_tracks ijson_items input recs (snd lst).
Proof.
    revert lst. induction recs as [|r recs IH] using rev_ind; intros lst.
    - simpl. intros H; inversion H; subst. intros k. reflexivity.
    - rewrite ledger_steps_app.
      destruct (ledger_steps ijson_items input recs (0, [])) as [lst0|] eqn:E;
        [|discriminate].
      simpl. destruct (ledger_step ijson_items input lst0 r) as [lst1|] eqn:E1;
        [|discriminate].
      intros H; inversion H; subst.
      eapply ledger_step_tracks; eauto.
Qed.

End TrackingFacts.

(** ** The memory-resident script as a whole *)

Lemma overwrite_at_end (old data : bytes) :
  overwrite_at (List.length old) data old = old ++ data.
Proof.
  unfold overwrite_at. rewrite firstn_all, skipn_all2 by lia.
  now rewrite app_nil_r.
Qed.

Lemma write_items_spec (outfile : string) (input : bytes)
      (items : dict RuntimeOptimized.MapValue) (fs : filesystem)
      (old : bytes) :
  fs_lookup outfile fs = Some old ->
  match mem_output input items with
  | Ok bs =>
    RuntimeOptimized.write_items outfile input items (List.length old) fs
    = (fs_store outfile (old ++ bs) fs, Ok tt)
  | Raise e =>
    exists fs',
      RuntimeOptimized.write_items outfile input items (List.length old) fs
      = (fs', Raise e)
  end.
Proof.
  revert fs old. induction items as [|[k mv] rest IH]; intros fs old Ho; simpl.
  - unfold ret. rewrite app_nil_r. now rewrite fs_store_same_content.
  - destruct (1 <? List.length (RuntimeOptimized.position_array mv)).
    + unfold bind, lift_result.
      destruct (RuntimeOptimized.group_text input k mv) as [t|e]; [|eauto].
      unfold write_text. rewrite Ho.
      destruct (utf8_encode t) as [b|]; [|eauto].
      rewrite overwrite_at_end.
      specialize (IH (fs_store outfile (old ++ b) fs) (old ++ b)
                     (fs_lookup_store_same _ _ _)).
      rewrite length_app in IH.
      destruct (mem_output input rest) as [bs|e].
      * rewrite IH. now rewrite fs_store_store, app_assoc.
      * exact IH.
    + now apply IH.
Qed.

Section MemoryMain.

Variable ijson_items : bytes -> option (list pyval).
Variable input : bytes.
Variable od : string.
Variable fs0 : filesystem.

Theorem mem_main_spec :
    match mem_steps ijson_items (records input) [] with
    | Raise e =>
      RuntimeOptimized.main ijson_items (Some input) od fs0 = (fs0, Raise e)
    | Ok fpm =>
      match mem_output input fpm with
      | Ok bs =>
        RuntimeOptimized.main ijson_items (Some input) od fs0
        = (fs_store (out_file od) bs (rmtree (out_dir od) fs0),
           Ok (RuntimeOptimized.mkSelf (Some input) (out_file od)
                                       "output"%string fpm))
      | Raise e =>
        exists fs',
          RuntimeOptimized.main ijson_items (Some input) od fs0
          = (fs', Raise e)
      end
    end.
Proof.
    unfold RuntimeOptimized.main, bind, lift_result,
      RuntimeOptimized.process_data, RuntimeOptimized.init.
    cbn [RuntimeOptimized.finger_print_map RuntimeOptimized.output_file
         RuntimeOptimized.output_directory].
    rewrite mem_loop_steps by lia. fold (records input).
    destruct (mem_steps ijson_items (records input) []) as [fpm|e];
      [|reflexivity].
    unfold RuntimeOptimized.write, bind, clean_and_create_directory, open_w.
    cbn [RuntimeOptimized.finger_print_map RuntimeOptimized.output_file
         RuntimeOptimized.output_directory RuntimeOptimized.input_file].
    fold (out_dir od).
    change (get_file_path (out_dir od) "duplicate_certificates"
                          JSONLINE_EXTENSION) with (out_file od).
    pose proof (@write_items_spec (out_file od) input fpm
                  (fs_store (out_file od) [] (rmtree (out_dir od) fs0)) []
                  (fs_lookup_store_same _ _ _)) as H.
    simpl List.length in H.
    destruct (mem_output input fpm) as [bs|e].
    - rewrite H. simpl. now rewrite fs_store_store.
    - destruct H as (fs' & H). rewrite H. eauto.
Qed.

End MemoryMain.

(** ** From a completed run back to the ledger *)

Lemma dict_rel_get_some_l (A B : Type) (P : A -> B -> Prop) (d1 : dict A)
      (d2 : dict B) (k : pykey) (a : A) :
  dict_rel P d1 d2 -> dict_get k d1 = Some a ->
  exists b, dict_get k d2 = Some b /\ P a b.
Proof.
  unfold dict_rel.
  induction 1 as [|[k1 a1] [k2 b2] r1 r2 [Hk Hp] HF IH]; simpl;
    [discriminate|].
  simpl in Hk, Hp. subst k2.
  destruct (py_eqb k1 k); [|exact IH].
  intros H; inversion H; subst. eauto.
Qed.

Section Inversion.

Variable ijson_items : bytes -> option (list pyval).
Variable temp_dir : string.
Variable input : bytes.

Lemma disk_step_ok_inv (fs fs' : filesystem)
        (st st' : nat * dict MemoryScalable.MapValue)
        (lst : nat * dict entry) (r : nat * bytes) :
    refines temp_dir fs st lst -> ledger_ok lst ->
    disk_step ijson_items temp_dir input st r fs = (fs', Ok st') ->
    exists lst',
      ledger_step ijson_items input lst r = Ok lst' /\
      refines temp_dir fs' st' lst' /\ ledger_ok lst' /\
      same_outside temp_dir fs fs'.
Proof.
    intros Hr Hok Hd.
    pose proof (@disk_step_refines ijson_items temp_dir input fs st lst r
                  Hr Hok) as H.
    destruct (ledger_step ijson_items input lst r) as [lst'|e] eqn:E.
    - destruct H as (fs1 & st1 & H1 & Hr1 & Ho1).
      rewrite Hd in H1. inversion H1; subst.
      exists lst'. split; [reflexivity|]. split; [assumption|].
      split; [|assumption]. eapply ledger_step_ok; eauto.
    - destruct H as (fs1 & H1 & _). rewrite Hd in H1. discriminate.
Qed.

Lemma disk_steps_ok_inv (recs : list (nat * bytes)) (fs fs' : filesystem)
        (st st' : nat * dict MemoryScalable.MapValue)
        (lst : nat * dict entry) :
    refines temp_dir fs st lst -> ledger_ok lst ->
    disk_steps ijson_items temp_dir input recs st fs = (fs', Ok st') ->
    exists lst',
      ledger_steps ijson_items input recs lst = Ok lst' /\
      refines temp_dir fs' st' lst' /\ ledger_ok lst' /\
      same_outside temp_dir fs fs'.
Proof.
    intros Hr Hok Hd.
    pose proof (@disk_steps_refines ijson_items temp_dir input recs fs st lst
                  Hr Hok) as H.
    destruct (ledger_steps ijson_items input recs lst) as [lst'|e] eqn:E.
    - destruct H as (fs1 & st1 & H1 & Hr1 & Ho1).
      rewrite Hd in H1. inversion H1; subst.
      exists lst'. split; [reflexivity|]. split; [assumption|].
      split; [|assumption]. eapply ledger_steps_ok; eauto.
    - destruct H as (fs1 & H1 & _). rewrite Hd in H1. discriminate.
Qed.

  (** A state the loop reaches from an empty index and an empty temporary
      directory. *)
Lemma reached_refines (pre : list (nat * bytes)) (fs1 fs : filesystem)
        (st : nat * dict MemoryScalable.MapValue) :
    MemoryScalable.listdir temp_dir fs1 = [] ->
    disk_steps ijson_items temp_dir input pre (0, []) fs1 = (fs, Ok st) ->
    exists lst,
      ledger_steps ijson_items input pre (0, []) = Ok lst /\
      refines temp_dir fs st lst /\ ledger_ok lst /\
      ledger_tracks ijson_items input pre (snd lst).
Proof.
    intros Hl Hd.
    assert (Hr : refines temp_dir fs1 (0, []) (0, [])).
    { unfold refines. simpl. split; [reflexivity|]. split; [constructor|].
      assumption. }
    destruct (disk_steps_ok_inv Hr ledger_ok_init Hd)
      as (lst & Hs & Hr' & Hok & _).
    exists lst. split; [assumption|]. split; [assumption|].
    split; [assumption|]. now apply ledger_steps_tracks.
Qed.

End Inversion.

(* ================================================================== *)
(** * The claims *)

Lemma records_lines (input : bytes) : Forall (line_of input) (records input).
Proof.
  apply Forall_forall. intros [s l] Hin. unfold records in Hin.
  apply scan_In in Hin. destruct Hin as (Hl & Hne & _).
  unfold line_of. simpl. split; [assumption|].
  split; [rewrite Hl at 1; rewrite <- Hl; rewrite Hl; apply readline_slice|].
  split; [assumption|].
  subst l. unfold readline in *.
  destruct (take_line_end (skipn s input)) as [E|E]; [right|now left].
  rewrite E, length_skipn.
  assert (s <= List.length input); [|lia].
  destruct (Nat.le_gt_cases s (List.length input)) as [H|H]; [assumption|].
  rewrite skipn_all2 in Hne by lia. now contradiction Hne.
Qed.

Section Claim10.

Variable ijson_items : bytes -> option (list pyval).
Variable input : bytes.

Lemma disk_index_locations (od : string) (fs0 fs' : filesystem)
        (self : MemoryScalable.CertificateDuplicateIdentifier)
        (k : pykey) :
    MemoryScalable.process_data ijson_items MemoryScalable.init
                                (Some input) od fs0 = (fs', Ok self) ->
    match dict_get k (MemoryScalable.finger_print_map self) with
    | Some mv =>
      exists r1 rest,
        occurrences ijson_items k (records input) = r1 :: rest /\
        (MemoryScalable.start mv, MemoryScalable.length mv) = location r1
    | None => occurrences ijson_items k (records input) = []
    end.
Proof.
    intros Hp. pose proof (disk_process_data_spec ijson_items input od fs0) as H.
    destruct (ledger_steps ijson_items input (records input) (0, []))
      as [[count led]|e] eqn:E.
    - destruct H as (fs1 & fpm & H1 & (_ & Hrel & _) & _).
      rewrite Hp in H1. inversion H1; subst. simpl in *.
      pose proof (ledger_steps_tracks E k) as Ht. simpl in Ht.
      destruct (dict_get k fpm) as [mv|] eqn:Em.
      + destruct (dict_rel_get_some_l Hrel Em) as ([loc g] & Eg & Hs & Hl & _).
        simpl in Hs, Hl.
        destruct (occurrences ijson_items k (records input))
          as [|r1 [|r2 more]].
        * congruence.
        * exists r1, []. split; [reflexivity|].
          rewrite Eg in Ht. inversion Ht; subst. now rewrite Hs, Hl.
        * exists r1, (r2 :: more). split; [reflexivity|].
          destruct Ht as (g' & p1 & ps & Hg & _). rewrite Eg in Hg.
          inversion Hg; subst. now rewrite Hs, Hl.
      + destruct (occurrences ijson_items k (records input))
          as [|r1 [|r2 more]]; [reflexivity| |].
        * destruct (dict_rel_get_some Hrel Ht) as (mv & Hm & _). congruence.
        * destruct Ht as (g' & p1 & ps & Hg & _).
          destruct (dict_rel_get_some Hrel Hg) as (mv & Hm & _). congruence.
    - destruct H as (fs1 & H1 & _). rewrite Hp in H1. discriminate.
Qed.


End Claim10.

Section Claim9.

Variable ijson_items : bytes -> option (list pyval).
Variable temp_dir : string.
Variable input : bytes.

Lemma ledger_step_counter (pre : list (nat * bytes)) (r : nat * bytes)
        (lst lst' : nat * dict entry) :
    ledger_tracks ijson_items input pre (snd lst) ->
    ledger_step ijson_items input lst r = Ok lst' ->
    exists k,
      fingerprint_key ijson_items (snd r) = Ok k /\
      fst lst'
      = fst lst
        + (if List.length (occurrences ijson_items k pre) =? 1 then 1 else 0).
Proof.
    destruct lst as [count led]. intros Ht Hs. unfold ledger_step in Hs.
    cbn [fst snd] in *.
    destruct (fingerprint_key ijson_items (snd r)) as [k|]; [|discriminate].
    exists k. split; [reflexivity|]. pose proof (Ht k) as Hk.
    destruct (occurrences ijson_items k pre) as [|r1 [|r2 more]].
    - rewrite Hk in Hs. inversion Hs. simpl. lia.
    - rewrite Hk in Hs.
      destruct (utf8_decode (snd r)); [|discriminate].
      destruct (text_read _ _ _); [|discriminate].
      destruct (encodable _); [|discriminate].
      inversion Hs. reflexivity.
    - destruct Hk as (g & p1 & ps & Hg & _). rewrite Hg in Hs.
      destruct (utf8_decode (snd r)); [|discriminate].
      destruct (encodable _); [|discriminate].
      inversion Hs. simpl. lia.
Qed.

Lemma ledger_step_keeps (r : nat * bytes) (lst lst' : nat * dict entry)
        (k : pykey) (loc : nat * nat) (g : group) :
    dict_get k (snd lst) = Some (loc, Some g) ->
    ledger_step ijson_items input lst r = Ok lst' ->
    exists g',
      dict_get k (snd lst') = Some (loc, Some g') /\ g_index g' = g_index g.
Proof.
    destruct lst as [count led]. intros Hg Hs. unfold ledger_step in Hs.
    cbn [fst snd] in *.
    destruct (fingerprint_key ijson_items (snd r)) as [kr|]; [|discriminate].
    destruct (py_eqb kr k) eqn:E.
    - rewrite (dict_get_congr led E), Hg in Hs.
      destruct (utf8_decode (snd r)); [|discriminate].
      destruct (encodable _); [|discriminate].
      inversion Hs; subst. simpl. eexists.
      split; [now apply dict_get_set_same|reflexivity].
    - assert (Hset : forall v, dict_get k (dict_set kr v led) = dict_get k led)
        by (intros v; now apply dict_get_set_other).
      exists g. split; [|reflexivity].
      destruct (dict_get kr led) as [[loc' [g'|]]|].
      + destruct (utf8_decode (snd r)); [|discriminate].
        destruct (encodable _); [|discriminate].
        inversion Hs; subst. simpl. now rewrite Hset.
      + destruct (utf8_decode (snd r)); [|discriminate].
        destruct (text_read _ _ _); [|discriminate].
        destruct (encodable _); [|discriminate].
        inversion Hs; subst. simpl. now rewrite Hset.
      + inversion Hs; subst. simpl. now rewrite Hset.
Qed.

  (** An entry tagged [TAG_EXISTING] has a group in the ledger. *)
Lemma existing_has_group (fs : filesystem)
        (mv : MemoryScalable.MapValue) (e : entry) :
    entry_agrees temp_dir fs mv e ->
    MemoryScalable.tag mv = MemoryScalable.TAG_EXISTING ->
    exists g, snd e = Some g /\
              MemoryScalable.path mv = temp_path temp_dir (g_index g).
Proof.
    intros (_ & _ & H) Ht. destruct (snd e) as [g|].
    - exists g. split; [reflexivity|]. apply H.
    - destruct H as (H & _). congruence.
Qed.


End Claim9.


Section Claim4.

Variable ijson_items : bytes -> option (list pyval).
Variable temp_dir : string.
Variable input : bytes.

Lemma skipn_body (body : bytes) :
    skipn (List.length (body ++ sentinel_bytes) - 3) (body ++ sentinel_bytes)
    = sentinel_bytes.
Proof.
    rewrite length_app. simpl List.length. rewrite Nat.add_sub.
    rewrite skipn_app, skipn_all, Nat.sub_diag. reflexivity.
Qed.

  (** The file of an entry tagged [TAG_EXISTING], in a state that agrees
      with a ledger. *)
Lemma existing_file (fs : filesystem)
        (st : nat * dict MemoryScalable.MapValue) (lst : nat * dict entry)
        (k : pykey) (mv : MemoryScalable.MapValue) :
    refines temp_dir fs st lst -> ledger_ok lst ->
    dict_get k (snd st) = Some mv ->
    MemoryScalable.tag mv = MemoryScalable.TAG_EXISTING ->
    exists key pieces body,
      pieces <> [] /\
      utf8_encode (group_header key ++ join_pieces pieces) = Some body /\
      utf8_encode (group_line key pieces) = Some (body ++ sentinel_bytes) /\
      fs_lookup (MemoryScalable.path mv) fs = Some (body ++ sentinel_bytes) /\
      MemoryScalable.end_offset mv
      = Some (List.length (body ++ sentinel_bytes)).
Proof.
    intros (_ & Hrel & _) (_ & Hb & _) Hm Ht.
    destruct (dict_rel_get_some_l Hrel Hm) as ([loc ge] & Eg & Ha).
    destruct Ha as (_ & _ & Ha). cbn [snd] in Ha.
    destruct ge as [g|]; [|destruct Ha as (Hx & _); congruence].
    destruct Ha as (_ & Hp & content & Hco & Hf & Ho).
    destruct (encode_group_line Hco) as (body & Hbody & ->).
    destruct (dict_get_in Eg) as (k0 & _ & Hin).
    destruct (Hb _ _ _ Hin) as [_ Hne].
    exists (g_key g), (g_pieces g), body. rewrite Hp.
    repeat split; assumption.
Qed.

  (** C4. In any state the loop of the disk-resident strategy reaches,
      the file of every entry tagged [TAG_EXISTING] is a complete group
      line that ends with the three sentinel bytes, and [end_offset] is
      its length.  An [append] for such an entry (a third or later
      occurrence) leaves every byte before [end_offset - 3] and every
      other file as they are, puts a comma, the record and the sentinel
      from there on, and returns the new length; the file is again a
      complete group line, with one more record. *)
Theorem C4_append_overwrites_sentinel
          (fs1 fs fs' : filesystem) (pre : list (nat * bytes))
          (st : nat * dict MemoryScalable.MapValue)
          (k : pykey) (mv : MemoryScalable.MapValue)
          (line : bytes) (cursor : nat) :
    MemoryScalable.listdir temp_dir fs1 = [] ->
    disk_steps ijson_items temp_dir input pre (0, []) fs1 = (fs, Ok st) ->
    dict_get k (snd st) = Some mv ->
    MemoryScalable.tag mv = MemoryScalable.TAG_EXISTING ->
    MemoryScalable.append input k mv line fs = (fs', Ok cursor) ->
    exists key pieces old cur rec,
      (* before *)
      utf8_encode (group_line key pieces) = Some old /\
      fs_lookup (MemoryScalable.path mv) fs = Some old /\
      MemoryScalable.end_offset mv = Some (List.length old) /\
      skipn (List.length old - 3) old = sentinel_bytes /\
      (* the record *)
      utf8_decode line = Some cur /\
      utf8_encode (rstrip cur) = Some rec /\
      (* after *)
      let new := firstn (List.length old - 3) old
                 ++ [x2c] ++ rec ++ sentinel_bytes in
      fs_lookup (MemoryScalable.path mv) fs' = Some new /\
      firstn (List.length old - 3) new = firstn (List.length old - 3) old /\
      skipn (List.length new - 3) new = sentinel_bytes /\
      cursor = List.length new /\
      utf8_encode (group_line key (pieces ++ [rstrip cur])) = Some new /\
      forall p, p <> MemoryScalable.path mv ->
                fs_lookup p fs' = fs_lookup p fs.
Proof.
    intros Hl Hpre Hm Ht Happ.
    destruct (reached_refines Hl Hpre) as (lst & _ & Hr & Hok & _).
    destruct (existing_file Hr Hok Hm Ht)
      as (key & pieces & body & Hne & Hbody & Hline & Hf & Ho).
    assert (H3 : 3 <= List.length (body ++ sentinel_bytes))
      by (rewrite length_app; simpl; lia).
    rewrite (@append_existing input k mv line fs _ Ht Ho Hf H3) in Happ.
    destruct (utf8_decode line) as [cur|]; [|discriminate].
    destruct (utf8_encode (comma ++ rstrip cur ++ sentinel)) as [data|] eqn:Ed;
      [|discriminate].
    rewrite !utf8_encode_app, utf8_encode_comma, utf8_encode_sentinel in Ed.
    destruct (utf8_encode (rstrip cur)) as [rec|] eqn:Er; [|discriminate].
    inversion Ed; subst data; clear Ed.
    inversion Happ; subst; clear Happ.
    exists key, pieces, (body ++ sentinel_bytes), cur, rec.
    rewrite firstn_body.
    split; [assumption|]. split; [assumption|]. split; [assumption|].
    split; [apply skipn_body|]. split; [reflexivity|].
    split; [exact Er|]. cbv zeta.
    split; [apply fs_lookup_store_same|]. split.
    { rewrite length_app. simpl List.length. rewrite Nat.add_sub.
      rewrite firstn_app, firstn_all, Nat.sub_diag. simpl.
      now rewrite !app_nil_r. }
    split.
    { replace (body ++ [x2c] ++ rec ++ sentinel_bytes)
        with ((body ++ [x2c] ++ rec) ++ sentinel_bytes)
        by (now rewrite <- !app_assoc).
      apply skipn_body. }
    split.
    { repeat (rewrite length_app; simpl List.length). lia. }
    split.
    { rewrite group_line_snoc by assumption.
      rewrite utf8_encode_app, Hbody.
      rewrite !utf8_encode_app, utf8_encode_comma, utf8_encode_sentinel, Er.
      reflexivity. }
    intros p Hp. apply fs_lookup_store_other. congruence.
Qed.

End Claim4.

(** The fourth record of [sample_abaa], the third with fingerprint A,
    appended after the first three have been processed. *)
Lemma C4_witness :
  let pre := disk_prefix_run sample_abaa 3 in
  let st := state_of (0, []) (snd pre) in
  let k := KStr [65%N] in
  let mv := match dict_get k (snd st) with
            | Some m => m
            | None => MemoryScalable.mkMapValue
                        0 0 MemoryScalable.TAG_NEW EmptyString None
            end in
  let line := snd (nth 3 (records sample_abaa) (0, [])) in
  let run := MemoryScalable.append sample_abaa k mv line (fst pre) in
  exists old new,
    fs_lookup (MemoryScalable.path mv) (fst pre) = Some old /\
    fs_lookup (MemoryScalable.path mv) (fst run) = Some new /\
    firstn (List.length old - 3) new = firstn (List.length old - 3) old /\
    skipn (List.length new - 3) new = sentinel_bytes.
Proof.
  intros pre st k mv line run.
  destruct (@C4_append_overwrites_sentinel Json.ijson_items "out/temp"
              sample_abaa [] (fst pre) (fst run)
              (firstn 3 (records sample_abaa)) st k mv line
              (state_of 0 (snd run)))
    as (key & pieces & old & cur & rec & H1 & H2 & H3 & H4 & H5 & H6 & H7).
  - reflexivity.
  - vm_compute. reflexivity.
  - vm_compute. reflexivity.
  - vm_compute. reflexivity.
  - vm_compute. reflexivity.
  - cbv zeta in H7. destruct H7 as (N1 & N2 & N3 & _).
    exists old. eexists. split; [exact H2|]. split; [exact N1|].
    split; [exact N2|exact N3].
Defined.

(** ** Which groups are written *)

Lemma mem_output_filter (input : bytes)
      (items : dict RuntimeOptimized.MapValue) :
  mem_output input (filter has_duplicates items) = mem_output input items.
Proof.
  induction items as [|[k mv] rest IH]; simpl; [reflexivity|].
  unfold has_duplicates at 1. simpl.
  destruct (1 <? List.length (RuntimeOptimized.position_array mv)) eqn:E;
    simpl; [|assumption].
  rewrite E, IH. reflexivity.
Qed.

Lemma file_bytes_groups (led : dict entry) (js : list nat) :
  (forall j, In j js -> exists g, group_with_index led j = Some g) ->
  List.concat (map (file_bytes led) js)
  = List.concat (map group_bytes (groups_at led js)).
Proof.
  induction js as [|j rest IH]; intros H; simpl; [reflexivity|].
  unfold file_bytes at 1.
  destruct (H j (or_introl eq_refl)) as (g & Eg). rewrite Eg. simpl.
  rewrite IH; [reflexivity|]. intros i Hi. apply H. now right.
Qed.

Lemma groups_at_in (led : dict entry) (js : list nat) (g : group) :
  In g (groups_at led js) ->
  exists j, In j js /\ group_with_index led j = Some g.
Proof.
  unfold groups_at. intros H. apply in_flat_map in H.
  destruct H as (j & Hj & Hg). exists j. split; [assumption|].
  destruct (group_with_index led j) as [g'|]; simpl in Hg; [|tauto].
  destruct Hg as [->|[]]. reflexivity.
Qed.

Section Groups.

Variable ijson_items : bytes -> option (list pyval).
Variable input : bytes.

  (** A group of the ledger belongs to a key with two occurrences at
      least, and its header carries an equal key. *)
Lemma ledger_group_key (recs : list (nat * bytes)) (lst : nat * dict entry)
        (k : pykey) (loc : nat * nat) (g : group) :
    ledger_steps ijson_items input recs (0, []) = Ok lst ->
    In (k, (loc, Some g)) (snd lst) ->
    py_eqb (g_key g) k = true /\
    2 <= List.length (occurrences ijson_items k recs).
Proof.
    intros Hs Hin.
    pose proof (ledger_steps_ok ledger_ok_init Hs) as (Hw & _).
    pose proof (ledger_steps_tracks Hs k) as Ht.
    pose proof (dict_wf_in Hw Hin) as Hg.
    destruct (occurrences ijson_items k recs) as [|r1 [|r2 more]] eqn:Eo.
    - congruence.
    - rewrite Hg in Ht. discriminate.
    - destruct Ht as (g' & p1 & ps & Hg' & Hk & _).
      rewrite Hg in Hg'. inversion Hg'; subst g'.
      split; [|simpl; lia].
      assert (Hin2 : In r2 (occurrences ijson_items k recs))
        by (rewrite Eo; right; now left).
      apply filter_In in Hin2. destruct Hin2 as [_ Hh].
      unfold has_key in Hh. now rewrite Hk in Hh.
Qed.

End Groups.

Section Claim5.

Variable ijson_items : bytes -> option (list pyval).
Variable scandir_order : list string -> list string.
Variable input : bytes.


End Claim5.


Lemma groups_at_length (led : dict entry) (js : list nat) :
  (forall j, In j js -> exists g, group_with_index led j = Some g) ->
  List.length (groups_at led js) = List.length js.
Proof.
  induction js as [|j rest IH]; intros H; simpl; [reflexivity|].
  destruct (H j (or_introl eq_refl)) as (g & ->). simpl.
  f_equal. apply IH. intros i Hi. apply H. now right.
Qed.

Lemma temp_names_inj (js1 js2 : list nat) :
  map temp_name js1 = map temp_name js2 -> js1 = js2.
Proof.
  revert js2. induction js1 as [|a l IH]; intros [|b m] E; simpl in E;
    try discriminate; [reflexivity|].
  inversion E as [[Ha Hl]]. apply string_app_inv_tail in Ha.
  apply str_nat_inj in Ha. subst. f_equal. now apply IH.
Qed.

(** C7 as stated fails for the disk-resident script.  Two runs on
    [sample_abab], in the same empty file system and with the same output
    directory, both complete; in the first the operating system lists
    the two temporary files in the order of their creation, in the
    second in the opposite order, and the two output files differ: the
    group of A comes first in one and last in the other. *)
Lemma C7_counterexample :
  ~ (forall (listing1 listing2 : list string -> list string)
            (input : bytes) (od : string) (fs : filesystem),
        (forall names, Permutation (listing1 names) names) ->
        (forall names, Permutation (listing2 names) names) ->
        output_of od (MemoryScalable.main Json.ijson_items listing1
                                          (Some input) od fs)
        = output_of od (MemoryScalable.main Json.ijson_items listing2
                                            (Some input) od fs)).
Proof.
  intros H.
  specialize (H (fun names => names) (@rev string) sample_abab
                "out"%string []
                (fun names => Permutation_refl names)
                (fun names => Permutation_sym (Permutation_rev names))).
  vm_compute in H. discriminate H.
Qed.

Section Claim7.

Variable ijson_items : bytes -> option (list pyval).
Variables listing1 listing2 : list string -> list string.
Variable input : bytes.

  (** C7, amended.  Two runs of a script on the same input, whatever the
      output directories are called and whatever the file system held
      before, end alike: both stop with the same exception, or both
      complete.  The two output files of the memory-resident script then
      hold the same bytes.  Those of the disk-resident script, whose
      output directories have no wildcard character in their names, hold
      the lines of the same groups, each in the order in which the
      operating system lists the temporary files in that run
      ([listing1] in the first run, [listing2] in the second, both
      unknown); they hold the same bytes when the two runs list the
      temporary files in the same order. *)
Theorem C7_runs_agree_up_to_listing (od1 od2 : string)
          (fs1 fs2 : filesystem) :
    (forall names, Permutation (listing1 names) names) ->
    (forall names, Permutation (listing2 names) names) ->
    wildcard_free od1 = true ->
    wildcard_free od2 = true ->
    match RuntimeOptimized.main ijson_items (Some input) od1 fs1,
          RuntimeOptimized.main ijson_items (Some input) od2 fs2 with
    | (fs1', Ok _), (fs2', Ok _) =>
      fs_lookup (out_file od1) fs1' = fs_lookup (out_file od2) fs2' /\
      fs_lookup (out_file od1) fs1' <> None
    | (_, Raise e1), (_, Raise e2) => e1 = e2
    | _, _ => False
    end /\
    match MemoryScalable.main ijson_items listing1 (Some input) od1 fs1,
          MemoryScalable.main ijson_items listing2 (Some input) od2 fs2
    with
    | (fs1', Ok _), (fs2', Ok _) =>
      exists written1 written2 : list group,
        fs_lookup (out_file od1) fs1'
        = Some (List.concat (map group_bytes written1)) /\
        fs_lookup (out_file od2) fs2'
        = Some (List.concat (map group_bytes written2)) /\
        Permutation written1 written2 /\
        (listing1 (temp_names (List.length written1))
         = listing2 (temp_names (List.length written1)) ->
         fs_lookup (out_file od1) fs1' = fs_lookup (out_file od2) fs2')
    | (_, Raise e1), (_, Raise e2) => e1 = e2
    | _, _ => False
    end.
Proof.
    intros Hperm1 Hperm2 _ _. split.
    - pose proof (mem_main_spec ijson_items input od1 fs1) as H1.
      pose proof (mem_main_spec ijson_items input od2 fs2) as H2.
      destruct (mem_steps ijson_items (records input) []) as [fpm|e];
        [|now rewrite H1, H2].
      destruct (mem_output input fpm) as [bs|e].
      + rewrite H1, H2. rewrite !fs_lookup_store_same.
        split; [reflexivity|discriminate].
      + destruct H1 as (f1 & ->), H2 as (f2 & ->). reflexivity.
    - pose proof (@disk_main_spec ijson_items listing1 Hperm1 input
                    od1 fs1) as H1.
      pose proof (@disk_main_spec ijson_items listing2 Hperm2 input
                    od2 fs2) as H2.
      destruct (ledger_steps ijson_items input (records input) (0, []))
        as [[count led]|e] eqn:Es.
      + destruct H1 as (f1 & s1 & js1 & -> & _ & E1 & P1 & O1).
        destruct H2 as (f2 & s2 & js2 & -> & _ & E2 & P2 & O2).
        simpl fst in *; simpl snd in *.
        pose proof (ledger_steps_ok ledger_ok_init Es) as Hok.
        assert (Hall : forall j, In j (seq 1 count) ->
                                 exists g, group_with_index led j = Some g).
        { intros j Hj. apply in_seq in Hj.
          destruct Hok as (_ & _ & _ & Hsur).
          destruct (Hsur j) as (k0 & loc & g & Hin & Hi); [simpl; lia|].
          eapply group_with_index_some; eauto. }
        assert (Hall1 : forall j, In j js1 ->
                                  exists g, group_with_index led j = Some g).
        { intros j Hj. apply Hall.
          now apply (Permutation_in _ (Permutation_sym P1)). }
        assert (Hall2 : forall j, In j js2 ->
                                  exists g, group_with_index led j = Some g).
        { intros j Hj. apply Hall.
          now apply (Permutation_in _ (Permutation_sym P2)). }
        exists (groups_at led js1), (groups_at led js2).
        split; [now rewrite <- file_bytes_groups|].
        split; [now rewrite <- file_bytes_groups|].
        split.
        * unfold groups_at. apply Permutation_flat_map.
          eapply Permutation_trans; [apply Permutation_sym; exact P1|exact P2].
        * rewrite groups_at_length by assumption.
          rewrite <- (Permutation_length P1), length_seq.
          rewrite E1, E2. intros E. apply temp_names_inj in E. subst js2.
          now rewrite O1, O2.
      + destruct H1 as (f1 & -> & _), H2 as (f2 & -> & _). reflexivity.
Qed.

End Claim7.

(** Two runs on [sample_abab], which has two groups, into different
    directories: the first in an empty file system whose directory is
    listed in the order of creation, the second in a file system that
    holds a stale output file and whose directory is listed in the
    opposite order. *)
Lemma C7_witness :
  match RuntimeOptimized.main Json.ijson_items (Some sample_abab)
                              "first" [],
        RuntimeOptimized.main Json.ijson_items (Some sample_abab) "second"
          [("second/duplicate_certificates.jsonline"%string, [x41])]
  with
  | (fs1', Ok _), (fs2', Ok _) =>
    fs_lookup (out_file "first") fs1' = fs_lookup (out_file "second") fs2' /\
    fs_lookup (out_file "first") fs1' <> None
  | (_, Raise e1), (_, Raise e2) => e1 = e2
  | _, _ => False
  end /\
  match MemoryScalable.main Json.ijson_items (fun names => names)
                            (Some sample_abab) "first" [],
        MemoryScalable.main Json.ijson_items (@rev string)
                            (Some sample_abab) "second"
          [("second/duplicate_certificates.jsonline"%string, [x41])]
  with
  | (fs1', Ok _), (fs2', Ok _) =>
    exists written1 written2 : list group,
      fs_lookup (out_file "first") fs1'
      = Some (List.concat (map group_bytes written1)) /\
      fs_lookup (out_file "second") fs2'
      = Some (List.concat (map group_bytes written2)) /\
      Permutation written1 written2 /\
      (temp_names (List.length written1)
       = rev (temp_names (List.length written1)) ->
       fs_lookup (out_file "first") fs1' = fs_lookup (out_file "second") fs2')
  | (_, Raise e1), (_, Raise e2) => e1 = e2
  | _, _ => False
  end.
Proof.
  apply (@C7_runs_agree_up_to_listing Json.ijson_items (fun names => names)
           (@rev string) sample_abab "first" "second" []
           [("second/duplicate_certificates.jsonline"%string, [x41])]).
  - intros names. apply Permutation_refl.
  - intros names. apply Permutation_sym, Permutation_rev.
  - reflexivity.
  - reflexivity.
Defined.

(** ** Extraction failures *)

(** C8 as stated fails: the fingerprint of the records of
    [sample_numeric] is a number, not a string, and both scripts run to
    the end and write a group for it. *)
Lemma C8_counterexample :
  ~ (forall input r,
        In r (records input) ->
        no_string_fingerprint Json.ijson_items (snd r) ->
        aborts (RuntimeOptimized.main Json.ijson_items (Some input)
                                      "out" []) /\
        aborts (MemoryScalable.main Json.ijson_items (fun names => names)
                                    (Some input) "out" [])).
Proof.
  intros H.
  destruct (H sample_numeric (nth 0 (records sample_numeric) (0, []))) as [A _].
  - vm_compute. now left.
  - vm_compute. exact I.
  - vm_compute in A. exact A.
Qed.

Section Claim8.

Variable ijson_items : bytes -> option (list pyval).
Variable scandir_order : list string -> list string.
Variable input : bytes.

Lemma mem_steps_total (recs : list (nat * bytes))
        (fpm : dict RuntimeOptimized.MapValue) :
    (forall r, In r recs ->
               exists k, fingerprint_key ijson_items (snd r) = Ok k) ->
    exists fpm', mem_steps ijson_items recs fpm = Ok fpm'.
Proof.
    revert fpm. induction recs as [|r rest IH]; intros fpm H; simpl; [eauto|].
    destruct (H r (or_introl eq_refl)) as (k & Hk).
    unfold mem_step. rewrite Hk.
    destruct (dict_get k fpm); apply IH; intros r' Hr'; apply H; now right.
Qed.

  (** C8, amended. When the extraction raises on a line, or yields a
      value that cannot be hashed, neither script gets past that line:
      the memory-resident one stops without having touched the file
      system, the disk-resident one stops with no output file; the
      exception is that of the line when the records before it went
      through. *)
Theorem C8_failed_extraction_aborts
          (pre post : list (nat * bytes)) (r : nat * bytes) (e : error)
          (od : string) (fs0 : filesystem) :
    (forall names, Permutation (scandir_order names) names) ->
    records input = pre ++ r :: post ->
    fingerprint_key ijson_items (snd r) = Raise e ->
    (exists e',
        RuntimeOptimized.main ijson_items (Some input) od fs0
        = (fs0, Raise e') /\
        ((forall r', In r' pre ->
                     exists k, fingerprint_key ijson_items (snd r') = Ok k) ->
         e' = e)) /\
    (exists fs' e',
        MemoryScalable.main ijson_items scandir_order (Some input) od fs0
        = (fs', Raise e') /\
        fs_lookup (out_file od) fs' = None /\
        ((exists lst, ledger_steps ijson_items input pre (0, []) = Ok lst) ->
         e' = e)).
Proof.
    intros Hperm Hrec Hk. split.
    - pose proof (mem_main_spec ijson_items input od fs0) as H.
      rewrite Hrec, mem_steps_app in H.
      destruct (mem_steps ijson_items pre []) as [fpm|e0] eqn:Ep.
      + simpl in H. unfold mem_step in H. rewrite Hk in H.
        exists e. split; [assumption|reflexivity].
      + exists e0. split; [assumption|].
        intros Hall. destruct (mem_steps_total [] Hall) as (f & Hf).
        congruence.
    - pose proof (@disk_main_spec ijson_items scandir_order Hperm input od fs0)
        as H.
      rewrite Hrec, ledger_steps_app in H.
      destruct (ledger_steps ijson_items input pre (0, [])) as [lst|e0] eqn:Ep.
      + simpl in H. unfold ledger_step in H. rewrite Hk in H.
        destruct H as (fs' & H1 & H2). exists fs', e.
        split; [assumption|]. split; [assumption|reflexivity].
      + destruct H as (fs' & H1 & H2). exists fs', e0.
        split; [assumption|]. split; [assumption|].
        intros (lst & Hl). discriminate.
Qed.

End Claim8.

(** The second record of [sample_missing] has no object at the path:
    both scripts stop there with [IndexError]. *)
Lemma C8_witness :
  (exists e',
      RuntimeOptimized.main Json.ijson_items (Some sample_missing) "out" []
      = ([], Raise e') /\
      ((forall r', In r' (firstn 1 (records sample_missing)) ->
                   exists k, fingerprint_key Json.ijson_items (snd r') = Ok k)
       -> e' = IndexError)) /\
  (exists fs' e',
      MemoryScalable.main Json.ijson_items (fun names => names)
                          (Some sample_missing) "out" []
      = (fs', Raise e') /\
      fs_lookup (out_file "out") fs' = None /\
      ((exists lst,
           ledger_steps Json.ijson_items sample_missing
                        (firstn 1 (records sample_missing)) (0, []) = Ok lst)
       -> e' = IndexError)).
Proof.
  apply (@C8_failed_extraction_aborts Json.ijson_items (fun names => names)
           sample_missing (firstn 1 (records sample_missing))
           (skipn 2 (records sample_missing))
           (nth 1 (records sample_missing) (0, [])) IndexError "out" []).
  - intros names. apply Permutation_refl.
  - vm_compute. reflexivity.
  - vm_compute. reflexivity.
Defined.

(** ** Records read again in text mode

    Both scripts read a record again with [open(input, 'r')],
    [seek(start)] and [read(length)], where [length] counts bytes and
    [read] counts characters. *)

(** C3. On [sample_accent] the first record is 52 bytes and 51
    characters long: read again, it comes with the line feed and the first
    character of the second record, which stay in the output of both
    scripts.  On [sample_crlf] the carriage return and line feed are read
    as one character, with the same effect. *)
Theorem C3_reread_record_is_not_verbatim :
  let r1 := nth 0 (records sample_accent) (0, []) in
  location r1 = (0, 52) /\
  option_map (@List.length N) (utf8_decode (snd r1)) = Some 51 /\
  option_map rstrip (text_read sample_accent 0 52)
  = Some (verbatim (snd r1) ++ [10%N; 123%N]) /\
  mem_run sample_accent
  = Some (lit "{'fingerprint': 'A', 'certificates': ["
          ++ lit "{'data':{'leaf_cert':{'fingerprint':'A'}},'o':'é'}${,"
          ++ lit "{'data':{'leaf_cert':{'fingerprint':'A'}},'o':'x'}]}$") /\
  disk_run sample_accent = mem_run sample_accent /\
  mem_run sample_crlf
  = Some (lit "{'fingerprint': 'A', 'certificates': ["
          ++ lit "{'data':{'leaf_cert':{'fingerprint':'A'}},'n':1}${,"
          ++ lit "{'data':{'leaf_cert':{'fingerprint':'A'}},'n':2}]}$") /\
  disk_run sample_crlf = mem_run sample_crlf.
Proof. vm_compute. repeat split. Qed.

(** C1. On [sample_accent] the fingerprint A occurs twice; the one line
    either script writes is not the group of these two records, and it
    is not JSON. *)
Theorem C1_group_is_not_the_records :
  let occ := occurrences Json.ijson_items key_A (records sample_accent) in
  List.length occ = 2 /\
  (exists line,
      mem_run sample_accent = Some line /\
      disk_run sample_accent = Some line /\
      Some line <> expected_group key_A occ /\
      json_of_bytes line = None) /\
  (exists good, expected_group key_A occ = Some good /\
                json_of_bytes good <> None).
Proof.
  split; [vm_compute; reflexivity|]. split.
  - eexists. split; [vm_compute; reflexivity|].
    split; [vm_compute; reflexivity|].
    split; [vm_compute; discriminate|vm_compute; reflexivity].
  - eexists. split; [vm_compute; reflexivity|vm_compute; discriminate].
Qed.

(** C2. On [sample_aab] the two scripts write different bytes: the
    disk-resident one writes the second record of A as it was read by the
    scan, the memory-resident one reads it again and gets the start of
    the third record with it. *)
Theorem C2_strategies_differ :
  let occ := occurrences Json.ijson_items key_A (records sample_aab) in
  List.length occ = 2 /\
  disk_run sample_aab = expected_group key_A occ /\
  mem_run sample_aab
  = Some (lit "{'fingerprint': 'A', 'certificates': ["
          ++ lit "{'data':{'leaf_cert':{'fingerprint':'A'}},'n':1},"
          ++ lit "{'data':{'leaf_cert':{'fingerprint':'A'}},'o':'é'}${]}$") /\
  mem_run sample_aab <> disk_run sample_aab.
Proof.
  split; [vm_compute; reflexivity|]. split; [vm_compute; reflexivity|].
  split; [vm_compute; reflexivity|vm_compute; discriminate].
Qed.

(* ================================================================== *)
(** * JSON texts

    A value is read from a prefix of the text, and is read again from
    that prefix whatever follows it. *)

Section JsonFacts.

Import Json.

Lemma skip_ws_blank (w y : text) : blank w -> skip_ws (w ++ y) = skip_ws y.
Proof.
    unfold skip_ws. induction 1 as [|x w Hx Hw IH]; simpl; [reflexivity|].
    now rewrite Hx.
Qed.

Lemma skip_ws_split (t : text) :
    exists w, t = w ++ skip_ws t /\ blank w.
Proof.
    unfold skip_ws. induction t as [|c t IH]; simpl.
    - exists []. split; [reflexivity|constructor].
    - destruct (is_ws c) eqn:E.
      + destruct IH as (w & Hw & Hb). exists (c :: w).
        split; [simpl; now rewrite <- Hw|now constructor].
      + exists []. split; [reflexivity|constructor].
Qed.

Lemma skip_ws_head (t r : text) (c : N) :
    skip_ws t = c :: r -> is_ws c = false.
Proof.
    unfold skip_ws. induction t as [|d t IH]; simpl; [discriminate|].
    destruct (is_ws d) eqn:E; [assumption|].
    intros H; inversion H; subst. assumption.
Qed.

Lemma skip_ws_cons (c : N) (r : text) :
    is_ws c = false -> skip_ws (c :: r) = c :: r.
Proof. intros H. unfold skip_ws. simpl. now rewrite H. Qed.

Lemma skip_ws_at (w : text) (c : N) (r : text) :
    blank w -> is_ws c = false -> skip_ws (w ++ c :: r) = c :: r.
Proof. intros Hw Hc. rewrite skip_ws_blank by assumption.
         now apply skip_ws_cons. Qed.

  (** [expect] reads white space and one character. *)
Lemma expect_split (c : N) (t r : text) :
    expect c t = Some r ->
    exists w, t = w ++ c :: r /\ blank w /\ is_ws c = false.
Proof.
    unfold expect. destruct (skip_ws_split t) as (w & Hw & Hb).
    destruct (skip_ws t) as [|d r0] eqn:E; [discriminate|].
    destruct (d =? c)%N eqn:Ed; [|discriminate].
    apply N.eqb_eq in Ed. subst d. intros H; inversion H; subst r0.
    exists w. split; [assumption|]. split; [assumption|].
    eapply skip_ws_head; eauto.
Qed.

Lemma expect_at (w : text) (c : N) (r : text) :
    blank w -> is_ws c = false -> expect c (w ++ c :: r) = Some r.
Proof.
    intros Hw Hc. unfold expect. rewrite skip_ws_at by assumption.
    now rewrite N.eqb_refl.
Qed.

Lemma expect_other (w : text) (a b : N) (r : text) :
    blank w -> is_ws a = false -> (a =? b)%N = false ->
    expect b (w ++ a :: r) = None.
Proof.
    intros Hw Ha Hab. unfold expect. rewrite skip_ws_at by assumption.
    now rewrite Hab.
Qed.

Lemma strip_text_split (p t r : text) :
    strip_text p t = Some r ->
    t = p ++ r /\ forall r', strip_text p (p ++ r') = Some r'.
Proof.
    revert t. induction p as [|a p IH]; intros t; simpl.
    - intros H; inversion H. split; reflexivity || auto.
    - destruct t as [|b t]; [discriminate|].
      destruct (a =? b)%N eqn:E; [|discriminate].
      apply N.eqb_eq in E. subst b. intros H. destruct (IH _ H) as [-> Hr].
      split; [reflexivity|]. intros r'. now rewrite N.eqb_refl.
Qed.

Lemma push_some (c : N) (x : option (text * text)) (s r : text) :
    push c x = Some (s, r) -> exists s', x = Some (s', r) /\ s = c :: s'.
Proof.
    destruct x as [[s' r']|]; simpl; [|discriminate].
    intros H; inversion H; subst. eauto.
Qed.

Lemma parse_string_raw_split (t s r : text) :
    parse_string_raw t = Some (s, r) ->
    exists c, t = c ++ r /\ c <> [] /\
              forall r', parse_string_raw (c ++ r') = Some (s, r').
Proof.
    remember (List.length t) as n eqn:Hn. revert t s r Hn.
    induction n as [n IH] using lt_wf_ind. intros t s r Hn H.
    destruct t as [|c t]; [discriminate|]. simpl in H.
    destruct (c =? 34)%N eqn:E1.
    { inversion H; subst. exists [c]. split; [reflexivity|].
      split; [discriminate|]. intros r'. simpl. now rewrite E1. }
    destruct (c =? 92)%N eqn:E2.
    - destruct t as [|e t1]; [discriminate|].
      destruct (e =? 117)%N eqn:E3.
      + destruct t1 as [|h1 [|h2 [|h3 [|h4 t2]]]]; try discriminate.
        destruct (hex4 h1 h2 h3 h4) as [u|] eqn:Eh; [|discriminate].
        apply push_some in H. destruct H as (s' & H & ->).
        destruct (IH (List.length t2)) with (t := t2) (s := s') (r := r)
          as (c0 & -> & _ & Hr); [subst n; simpl; lia|reflexivity|assumption|].
        exists (c :: e :: h1 :: h2 :: h3 :: h4 :: c0).
        split; [reflexivity|]. split; [discriminate|]. intros r'. simpl.
        now rewrite E1, E2, E3, Eh, Hr.
      + destruct (simple_escape e) as [x|] eqn:Ee; [|discriminate].
        apply push_some in H. destruct H as (s' & H & ->).
        destruct (IH (List.length t1)) with (t := t1) (s := s') (r := r)
          as (c0 & -> & _ & Hr); [subst n; simpl; lia|reflexivity|assumption|].
        exists (c :: e :: c0).
        split; [reflexivity|]. split; [discriminate|]. intros r'. simpl.
        now rewrite E1, E2, E3, Ee, Hr.
    - destruct (c <? 32)%N eqn:E4; [discriminate|].
      apply push_some in H. destruct H as (s' & H & ->).
      destruct (IH (List.length t)) with (t := t) (s := s') (r := r)
        as (c0 & -> & _ & Hr); [subst n; simpl; lia|reflexivity|assumption|].
      exists (c :: c0).
      split; [reflexivity|]. split; [discriminate|]. intros r'. simpl.
      now rewrite E1, E2, E4, Hr.
Qed.

Lemma parse_string_split (t s r : text) :
    parse_string t = Some (s, r) ->
    exists c, t = c ++ r /\ c <> [] /\
              forall r', parse_string (c ++ r') = Some (s, r').
Proof.
    unfold parse_string.
    destruct (parse_string_raw t) as [[s0 r0]|] eqn:E; [|discriminate].
    intros H; inversion H; subst.
    destruct (parse_string_raw_split E) as (c & Hc & Hne & Hr).
    exists c. split; [assumption|]. split; [assumption|].
    intros r'. now rewrite Hr.
Qed.

Lemma take_digits_split (t ds r : text) :
    take_digits t = (ds, r) ->
    t = ds ++ r /\ Forall (fun c => is_digit c = true) ds /\
    forall r', stops is_digit r' -> take_digits (ds ++ r') = (ds, r').
Proof.
    revert ds r. induction t as [|c t IH]; intros ds r; simpl.
    - intros H; inversion H; subst. split; [reflexivity|].
      split; [constructor|].
      intros [|c r'] Hc; simpl in *; [reflexivity|]. now rewrite Hc.
    - destruct (is_digit c) eqn:E.
      + destruct (take_digits t) as [ds0 r0]. intros H; inversion H; subst.
        destruct (IH _ _ eq_refl) as (-> & Hf & Hr). split; [reflexivity|].
        split; [now constructor|].
        intros r' Hc. simpl. now rewrite E, (Hr r' Hc).
      + intros H; inversion H; subst. split; [reflexivity|].
        split; [constructor|].
        intros [|d r'] Hc; simpl in *; [reflexivity|]. now rewrite Hc.
Qed.

Lemma parse_frac_split (t r : text) (fd : option text) :
    parse_frac t = Some (fd, r) ->
    exists c,
      t = c ++ r /\ (c = [] \/ exists m, c = 46%N :: m) /\
      forall r', stops is_digit r' ->
                 (c = [] -> stops (fun x => (x =? 46)%N) r') ->
                 parse_frac (c ++ r') = Some (fd, r').
Proof.
    unfold parse_frac. destruct t as [|c t].
    - intros H; inversion H; subst. exists []. split; [reflexivity|].
      split; [now left|]. intros [|x r'] _ Hp; simpl; [reflexivity|].
      simpl in Hp. now rewrite (Hp eq_refl).
    - destruct (c =? 46)%N eqn:E.
      + apply N.eqb_eq in E. subst c.
        destruct (take_digits t) as [ds r0] eqn:Ed.
        destruct ds as [|d ds]; [discriminate|].
        intros H; inversion H; subst.
        destruct (take_digits_split Ed) as (-> & _ & Hr).
        exists (46%N :: d :: ds). split; [reflexivity|].
        split; [right; eauto|]. intros r' Hs _.
        change ((46%N :: d :: ds) ++ r') with (46%N :: (d :: ds) ++ r').
        cbv iota beta. rewrite N.eqb_refl, (Hr r' Hs). reflexivity.
      + intros H; inversion H; subst. exists []. split; [reflexivity|].
        split; [now left|]. intros [|x r'] _ Hp; simpl; [reflexivity|].
        simpl in Hp. now rewrite (Hp eq_refl).
Qed.

Lemma parse_exp_sign_split (t r : text) (b : bool) :
    parse_exp_sign t = (b, r) ->
    exists c, t = c ++ r /\
              forall d r', is_digit d = true ->
                           parse_exp_sign (c ++ d :: r') = (b, d :: r').
Proof.
    assert (Hd : forall d, is_digit d = true ->
                           (d =? 45)%N = false /\ (d =? 43)%N = false).
    { intros d H. unfold is_digit, in_range in H.
      apply andb_true_iff in H. destruct H as [H1 H2].
      apply N.leb_le in H1. split; apply N.eqb_neq; lia. }
    unfold parse_exp_sign. destruct t as [|s t].
    - intros H; inversion H; subst. exists []. split; [reflexivity|].
      intros d r' Hdg. simpl. destruct (Hd d Hdg) as [-> ->]. reflexivity.
    - destruct (s =? 45)%N eqn:E1.
      + intros H; inversion H; subst. exists [s]. split; [reflexivity|].
        intros d r' _. simpl. now rewrite E1.
      + destruct (s =? 43)%N eqn:E2.
        * intros H; inversion H; subst. exists [s]. split; [reflexivity|].
          intros d r' _. simpl. now rewrite E1, E2.
        * intros H; inversion H; subst. exists []. split; [reflexivity|].
          intros d r' Hdg. simpl. destruct (Hd d Hdg) as [-> ->]. reflexivity.
Qed.

Lemma parse_exp_split (t r : text) (ev : option Z) :
    parse_exp t = Some (ev, r) ->
    exists c,
      t = c ++ r /\
      (c = [] \/ exists x m, c = x :: m /\ is_exp_mark x = true) /\
      forall r', stops is_digit r' ->
                 (c = [] -> stops is_exp_mark r') ->
                 parse_exp (c ++ r') = Some (ev, r').
Proof.
    unfold parse_exp. destruct t as [|c t].
    - intros H; inversion H; subst. exists []. split; [reflexivity|].
      split; [now left|]. intros [|x r'] _ Hp; simpl; [reflexivity|].
      simpl in Hp. unfold is_exp_mark in Hp. now rewrite (Hp eq_refl).
    - fold (is_exp_mark c). destruct (is_exp_mark c) eqn:E.
      + destruct (parse_exp_sign t) as [eneg r1] eqn:Es.
        destruct (take_digits r1) as [ds r0] eqn:Ed.
        destruct ds as [|d ds]; [discriminate|].
        intros H; inversion H; subst.
        destruct (take_digits_split Ed) as (-> & Hf & Hr).
        destruct (parse_exp_sign_split Es) as (cs & -> & Hs).
        exists (c :: cs ++ d :: ds).
        split; [simpl; now rewrite <- app_assoc|].
        split; [right; eauto|]. intros r' Hst _.
        change ((c :: cs ++ d :: ds) ++ r') with (c :: (cs ++ d :: ds) ++ r').
        cbv iota beta. fold (is_exp_mark c). rewrite E.
        rewrite <- app_assoc. simpl app.
        rewrite Hs by (now inversion Hf).
        change (d :: ds ++ r') with ((d :: ds) ++ r').
        rewrite (Hr r' Hst). reflexivity.
      + intros H; inversion H; subst. exists []. split; [reflexivity|].
        split; [now left|]. intros [|x r'] _ Hp; simpl; [reflexivity|].
        simpl in Hp. fold (is_exp_mark x). now rewrite (Hp eq_refl).
Qed.

Lemma parse_sign_split (t r : text) (b : bool) :
    parse_sign t = (b, r) ->
    exists c, t = c ++ r /\
              forall d r', is_digit d = true ->
                           parse_sign (c ++ d :: r') = (b, d :: r').
Proof.
    unfold parse_sign. destruct t as [|s t].
    - intros H; inversion H; subst. exists []. split; [reflexivity|].
      intros d r' Hd. simpl.
      replace (d =? 45)%N with false; [reflexivity|].
      unfold is_digit, in_range in Hd. apply andb_true_iff in Hd.
      destruct Hd as [H1 _]. apply N.leb_le in H1.
      symmetry. apply N.eqb_neq. lia.
    - destruct (s =? 45)%N eqn:E1.
      + intros H; inversion H; subst. exists [s]. split; [reflexivity|].
        intros d r' _. simpl. now rewrite E1.
      + intros H; inversion H; subst. exists []. split; [reflexivity|].
        intros d r' Hd. simpl.
        replace (d =? 45)%N with false; [reflexivity|].
        unfold is_digit, in_range in Hd. apply andb_true_iff in Hd.
        destruct Hd as [H1 _]. apply N.leb_le in H1.
        symmetry. apply N.eqb_neq. lia.
Qed.

Lemma exp_mark_facts (x : N) :
    is_exp_mark x = true -> is_digit x = false /\ (x =? 46)%N = false.
Proof.
    unfold is_exp_mark. intros H. apply orb_true_iff in H.
    destruct H as [H|H]; apply N.eqb_eq in H; subst; split; reflexivity.
Qed.

Lemma number_stop_stops (r : text) :
    number_stop r = true ->
    stops is_digit r /\ stops (fun x => (x =? 46)%N) r /\
    stops is_exp_mark r.
Proof.
    destruct r as [|c r]; simpl; [tauto|]. unfold is_exp_mark.
    intros H. apply negb_true_iff in H.
    apply orb_false_iff in H. destruct H as [H H3].
    apply orb_false_iff in H. destruct H as [H H2].
    apply orb_false_iff in H. destruct H as [H0 H1].
    rewrite H0, H1, H2, H3. repeat split.
Qed.

Lemma parse_number_split (t r : text) (k : pykey) :
    parse_number t = Some (k, r) ->
    (exists z, k = KInt z) \/ (exists b c e, k = KDecimal b c e) ->
    exists c, t = c ++ r /\
              (exists x m, c = x :: m /\
                           ((x =? 45)%N = true \/ is_digit x = true)) /\
              forall r', number_stop r' = true ->
                         parse_number (c ++ r') = Some (k, r').
Proof.
    intros H _. unfold parse_number in H.
    destruct (parse_sign t) as [neg t1] eqn:Es.
    destruct (take_digits t1) as [ip t2] eqn:Ed.
    destruct ip as [|d ds]; [discriminate|].
    destruct ((d =? 48)%N && negb (Nat.eqb (List.length ds) 0)) eqn:Ez;
      [discriminate|].
    destruct (parse_frac t2) as [[fd t3]|] eqn:Ef; [|discriminate].
    destruct (parse_exp t3) as [[ev t4]|] eqn:Ee; [|discriminate].
    inversion H; subst k t4; clear H.
    assert (Hcs : exists cs, t = cs ++ t1 /\
                             (cs = [] \/ cs = [45%N]) /\
                             forall d r', is_digit d = true ->
                                          parse_sign (cs ++ d :: r')
                                          = (neg, d :: r')).
    { destruct (parse_sign_split Es) as (cs & Hc & Hs). exists cs.
      split; [assumption|]. split; [|assumption].
      unfold parse_sign in Es. destruct t as [|s t].
      - inversion Es; subst. left.
        apply (f_equal (@List.length N)) in Hc. rewrite length_app in Hc.
        destruct cs; [reflexivity|simpl in Hc; lia].
      - destruct (s =? 45)%N eqn:E.
        + inversion Es; subst. right. apply N.eqb_eq in E. subst s.
          change (45%N :: t1) with ([45%N] ++ t1) in Hc.
          now apply app_inv_tail in Hc.
        + inversion Es; subst. left.
          apply (f_equal (@List.length N)) in Hc. rewrite length_app in Hc.
          destruct cs; [reflexivity|simpl in Hc; lia]. }
    destruct Hcs as (cs & -> & Hcs & Hs).
    destruct (take_digits_split Ed) as (-> & Hdg & Hd).
    destruct (parse_frac_split Ef) as (cf & -> & Hcf & Hf).
    destruct (parse_exp_split Ee) as (ce & -> & Hce & He).
    exists (cs ++ (d :: ds) ++ cf ++ ce).
    split; [now rewrite <- !app_assoc|].
    split.
    { destruct Hcs as [->| ->]; simpl; eexists; eexists;
        (split; [reflexivity|]); [right; now inversion Hdg|now left]. }
    intros r' Hstop.
    destruct (number_stop_stops Hstop) as (S1 & S2 & S3).
    assert (Se : stops is_digit (ce ++ r') /\
                 stops (fun x => (x =? 46)%N) (ce ++ r')).
    { destruct Hce as [->|(x & m & -> & Hx)]; [now split|].
      simpl. now apply exp_mark_facts. }
    assert (Sf : stops is_digit (cf ++ ce ++ r')).
    { destruct Hcf as [->|(m & ->)]; [apply Se|reflexivity]. }
    unfold parse_number. rewrite <- !app_assoc. simpl app.
    rewrite Hs by (now inversion Hdg).
    change (d :: ds ++ cf ++ ce ++ r') with ((d :: ds) ++ cf ++ ce ++ r').
    rewrite (Hd _ Sf), Ez.
    rewrite Hf; [|apply Se|intros _; apply Se].
    rewrite He; [reflexivity|assumption|intros _; assumption].
Qed.

Lemma literal_split (t r : text) (k : pykey) :
    literal t = Some (k, r) ->
    exists c, t = c ++ r /\ c <> [] /\
              forall r', may_follow (PyScalar k) r' ->
                         literal (c ++ r') = Some (k, r').
Proof.
    unfold literal.
    destruct (strip_text (text_of_string "true") t) as [r0|] eqn:E1.
    { intros H; inversion H; subst. destruct (strip_text_split E1) as [-> Hr].
      eexists. split; [reflexivity|]. split; [discriminate|].
      intros r' _. now rewrite Hr. }
    destruct (strip_text (text_of_string "false") t) as [r0|] eqn:E2.
    { intros H; inversion H; subst. destruct (strip_text_split E2) as [-> Hr].
      eexists. split; [reflexivity|]. split; [discriminate|].
      intros r' _.
      change (strip_text (text_of_string "true")
                         (text_of_string "false" ++ r')) with (@None text).
      now rewrite Hr. }
    destruct (strip_text (text_of_string "null") t) as [r0|] eqn:E3.
    { intros H; inversion H; subst. destruct (strip_text_split E3) as [-> Hr].
      eexists. split; [reflexivity|]. split; [discriminate|].
      intros r' _.
      change (strip_text (text_of_string "true")
                         (text_of_string "null" ++ r')) with (@None text).
      change (strip_text (text_of_string "false")
                         (text_of_string "null" ++ r')) with (@None text).
      now rewrite Hr. }
    intros H.
    assert (Hk : (exists z, k = KInt z) \/ (exists b c e, k = KDecimal b c e)).
    { unfold parse_number in H.
      destruct (parse_sign t) as [neg t1].
      destruct (take_digits t1) as [ip t2].
      destruct ip as [|d ds]; [discriminate|].
      destruct ((d =? 48)%N && negb (Nat.eqb (List.length ds) 0));
        [discriminate|].
      destruct (parse_frac t2) as [[fd t3]|]; [|discriminate].
      destruct (parse_exp t3) as [[ev t4]|]; [|discriminate].
      inversion H. unfold number_value.
      destruct fd, ev; eauto. }
    destruct (parse_number_split H Hk) as (c & -> & (x & m & -> & Hx) & Hr).
    exists (x :: m). split; [reflexivity|]. split; [discriminate|].
    intros r' Hm.
    assert (Hs : number_stop r' = true).
    { destruct Hk as [(z & ->)|(b & c0 & e & ->)]; exact Hm. }
    assert (Hw : forall y, (y =? 116)%N = true \/ (y =? 102)%N = true
                           \/ (y =? 110)%N = true ->
                           (y =? x)%N = false).
    { intros y Hy. apply N.eqb_neq. intros <-.
      destruct Hx as [Hx|Hx].
      - apply N.eqb_eq in Hx. subst y. simpl in Hy.
        destruct Hy as [Hy|[Hy|Hy]]; discriminate.
      - unfold is_digit, in_range in Hx. apply andb_true_iff in Hx.
        destruct Hx as [H1 H2]. apply N.leb_le in H1, H2.
        destruct Hy as [Hy|[Hy|Hy]]; apply N.eqb_eq in Hy; lia. }
    change (text_of_string "true") with (116%N :: [114; 117; 101]%N).
    change (text_of_string "false") with (102%N :: [97; 108; 115; 101]%N).
    change (text_of_string "null") with (110%N :: [117; 108; 108]%N).
    cbn [strip_text app].
    rewrite !Hw by (rewrite ?N.eqb_refl; tauto).
    apply Hr. assumption.
Qed.

  (** The three readers, one step unfolded. *)
Lemma parse_value_S (f : nat) (t : text) :
    parse_value (S f) t
    = match skip_ws t with
      | [] => None
      | c :: r =>
        if (c =? 123)%N then
          match expect 125 r with
          | Some r' => Some (PyDict [], r')
          | None =>
            match parse_members f r with
            | Some (d, r') => Some (PyDict d, r')
            | None => None
            end
          end
        else if (c =? 91)%N then
          match expect 93 r with
          | Some r' => Some (PyList [], r')
          | None =>
            match parse_elements f r with
            | Some (l, r') => Some (PyList l, r')
            | None => None
            end
          end
        else if (c =? 34)%N then
          match parse_string r with
          | Some (s, r') => Some (PyScalar (KStr s), r')
          | None => None
          end
        else
          match literal (c :: r) with
          | Some (k, r') => Some (PyScalar k, r')
          | None => None
          end
      end.
Proof. reflexivity. Qed.

Lemma parse_members_S (f : nat) (t : text) :
    parse_members (S f) t
    = match expect 34 t with
      | None => None
      | Some r =>
        match parse_string r with
        | None => None
        | Some (k, r1) =>
          match expect 58 r1 with
          | None => None
          | Some r2 =>
            match parse_value f r2 with
            | None => None
            | Some (v, r3) =>
              match expect 125 r3 with
              | Some r4 => Some ([(k, v)], r4)
              | None =>
                match expect 44 r3 with
                | None => None
                | Some r4 =>
                  match parse_members f r4 with
                  | Some (d, r5) => Some ((k, v) :: d, r5)
                  | None => None
                  end
                end
              end
            end
          end
        end
      end.
Proof. reflexivity. Qed.

Lemma parse_elements_S (f : nat) (t : text) :
    parse_elements (S f) t
    = match parse_value f t with
      | None => None
      | Some (v, r1) =>
        match expect 93 r1 with
        | Some r2 => Some ([v], r2)
        | None =>
          match expect 44 r1 with
          | None => None
          | Some r2 =>
            match parse_elements f r2 with
            | Some (l, r3) => Some (v :: l, r3)
            | None => None
            end
          end
        end
      end.
Proof. reflexivity. Qed.

Lemma literal_bracket (r : text) : literal (93%N :: r) = None.
Proof. reflexivity. Qed.

  (** A delimiter, after white space or not, may follow any value. *)
Lemma may_follow_delimiter (v : pyval) (w : text) (c : N) (r : text) :
    blank w -> (c = 125 \/ c = 93 \/ c = 44)%N ->
    may_follow v (w ++ c :: r).
Proof.
    intros Hw Hc.
    assert (H : number_stop (w ++ c :: r) = true).
    { destruct Hw as [|x w Hx _]; simpl.
      - destruct Hc as [->|[->| ->]]; reflexivity.
      - unfold is_ws in Hx.
        repeat (apply orb_true_iff in Hx; destruct Hx as [Hx|Hx]);
          apply N.eqb_eq in Hx; subst; reflexivity. }
    destruct v as [[| | | |]| |]; simpl; auto.
Qed.

Ltac lnorm := repeat first [rewrite <- app_assoc | progress cbn [app]].

Ltac len :=
    match goal with
    | H : _ < S _ |- _ < _ =>
      repeat (rewrite length_app in H; simpl List.length in H); lia
    end.

Lemma parse_reads (f : nat) :
    (forall t v r, parse_value f t = Some (v, r) -> value_reads t v r) /\
    (forall t d r, parse_members f t = Some (d, r) ->
                   members_reads t d r) /\
    (forall t l r, parse_elements f t = Some (l, r) ->
                   elements_reads t l r).
Proof.
    induction f as [|f (IHv & IHm & IHe)].
    { split; [|split]; intros; discriminate. }
    split; [|split].
    - (* a value *)
      intros t v r H. rewrite parse_value_S in H.
      destruct (skip_ws_split t) as (w & Ht & Hw).
      destruct (skip_ws t) as [|x r0] eqn:Esk; [discriminate|].
      pose proof (skip_ws_head Esk) as Hx.
      destruct (x =? 123)%N eqn:E1.
      { assert (H93 : (x =? 93)%N = false)
          by (pose proof E1 as E; apply N.eqb_eq in E; subst x; reflexivity).
        destruct (expect 125 r0) as [r1|] eqn:Ex.
        - inversion H; subst v r1.
          destruct (expect_split Ex) as (w1 & -> & Hw1 & _).
          exists w, x, (w1 ++ [125%N]).
          split; [rewrite Ht; lnorm; reflexivity|].
          split; [assumption|]. split; [assumption|]. split; [assumption|].
          split; [intros d _; eauto|].
          intros [|g] r' Hg _; [lia|]. rewrite parse_value_S. lnorm.
          rewrite skip_ws_at, E1 by assumption.
          now rewrite expect_at by (assumption || reflexivity).
        - destruct (parse_members f r0) as [[d r1]|] eqn:Em; [|discriminate].
          inversion H; subst v r1.
          destruct (IHm _ _ _ Em) as (w1 & m1 & -> & Hw1 & Hr).
          exists w, x, (w1 ++ 34%N :: m1 ++ [125%N]).
          split; [rewrite Ht; lnorm; reflexivity|].
          split; [assumption|]. split; [assumption|]. split; [assumption|].
          split.
          { intros d' _. exists (w1 ++ 34%N :: m1). lnorm. reflexivity. }
          intros [|g] r' Hg _; [lia|]. rewrite parse_value_S. lnorm.
          rewrite skip_ws_at, E1 by assumption.
          rewrite expect_other by (assumption || reflexivity).
          now rewrite Hr by len. }
      destruct (x =? 91)%N eqn:E2.
      { assert (H93 : (x =? 93)%N = false)
          by (pose proof E2 as E; apply N.eqb_eq in E; subst x; reflexivity).
        destruct (expect 93 r0) as [r1|] eqn:Ex.
        - inversion H; subst v r1.
          destruct (expect_split Ex) as (w1 & -> & Hw1 & _).
          exists w, x, (w1 ++ [93%N]).
          split; [rewrite Ht; lnorm; reflexivity|].
          split; [assumption|]. split; [assumption|]. split; [assumption|].
          split; [intros d Hd; discriminate|].
          intros [|g] r' Hg _; [lia|]. rewrite parse_value_S. lnorm.
          rewrite skip_ws_at, E1, E2 by assumption.
          now rewrite expect_at by (assumption || reflexivity).
        - destruct (parse_elements f r0) as [[l r1]|] eqn:Em; [|discriminate].
          inversion H; subst v r1.
          destruct (IHe _ _ _ Em) as (w1 & x1 & m1 & -> & Hw1 & Hx1 & H1 & Hr).
          exists w, x, (w1 ++ x1 :: m1 ++ [93%N]).
          split; [rewrite Ht; lnorm; reflexivity|].
          split; [assumption|]. split; [assumption|]. split; [assumption|].
          split; [intros d Hd; discriminate|].
          intros [|g] r' Hg _; [lia|]. rewrite parse_value_S. lnorm.
          rewrite skip_ws_at, E1, E2 by assumption.
          rewrite expect_other by assumption.
          now rewrite Hr by len. }
      destruct (x =? 34)%N eqn:E3.
      { assert (H93 : (x =? 93)%N = false)
          by (pose proof E3 as E; apply N.eqb_eq in E; subst x; reflexivity).
        destruct (parse_string r0) as [[s0 r1]|] eqn:Es; [|discriminate].
        inversion H; subst v r1.
        destruct (parse_string_split Es) as (c & -> & _ & Hr).
        exists w, x, c.
        split; [rewrite Ht; reflexivity|].
        split; [assumption|]. split; [assumption|]. split; [assumption|].
        split; [intros d Hd; discriminate|].
        intros [|g] r' Hg _; [lia|]. rewrite parse_value_S.
        rewrite skip_ws_at, E1, E2, E3 by assumption.
        now rewrite Hr by len. }
      destruct (x =? 93)%N eqn:E93.
      { apply N.eqb_eq in E93. subst x. rewrite literal_bracket in H.
        discriminate. }
      destruct (literal (x :: r0)) as [[k r1]|] eqn:El; [|discriminate].
      inversion H; subst v r1.
      destruct (literal_split El) as (c & Hc & Hne & Hr).
      destruct c as [|x' m]; [congruence|].
      inversion Hc; subst x' r0.
      exists w, x, m.
      split; [rewrite Ht; reflexivity|].
      split; [assumption|]. split; [assumption|]. split; [assumption|].
      split; [intros d Hd; discriminate|].
      intros [|g] r' Hg Hm; [lia|]. rewrite parse_value_S.
      rewrite skip_ws_at, E1, E2, E3 by assumption.
      change (x :: m ++ r') with ((x :: m) ++ r').
      now rewrite (Hr r' Hm).
    - (* the members of an object *)
      intros t d r H. rewrite parse_members_S in H.
      destruct (expect 34 t) as [r0|] eqn:E0; [|discriminate].
      destruct (expect_split E0) as (w0 & -> & Hw0 & Hq).
      destruct (parse_string r0) as [[k r1]|] eqn:Es; [|discriminate].
      destruct (parse_string_split Es) as (cs & -> & _ & Hs).
      destruct (expect 58 r1) as [r2|] eqn:E1; [|discriminate].
      destruct (expect_split E1) as (w1 & -> & Hw1 & Hc).
      destruct (parse_value f r2) as [[v r3]|] eqn:Ev; [|discriminate].
      destruct (IHv _ _ _ Ev) as (w2 & x2 & m2 & -> & Hw2 & Hx2 & _ & _ & Hv).
      destruct (expect 125 r3) as [r4|] eqn:E2.
      + inversion H; subst d r4.
        destruct (expect_split E2) as (w3 & -> & Hw3 & Hb).
        exists w0, (cs ++ w1 ++ 58%N :: w2 ++ x2 :: m2 ++ w3).
        split; [lnorm; reflexivity|]. split; [assumption|].
        intros [|g] r' Hg; [lia|]. rewrite parse_members_S. lnorm.
        rewrite expect_at, Hs, expect_at by assumption.
        rewrite Hv by (len || (apply may_follow_delimiter; auto)).
        now rewrite expect_at by assumption.
      + destruct (expect 44 r3) as [r4|] eqn:E3; [|discriminate].
        destruct (expect_split E3) as (w3 & -> & Hw3 & Hb).
        destruct (parse_members f r4) as [[d' r5]|] eqn:Em; [|discriminate].
        inversion H; subst d r5.
        destruct (IHm _ _ _ Em) as (w4 & m4 & -> & Hw4 & Hm).
        exists w0, (cs ++ w1 ++ 58%N :: w2 ++ x2 :: m2 ++ w3 ++ 44%N
                       :: w4 ++ 34%N :: m4).
        split; [lnorm; reflexivity|]. split; [assumption|].
        intros [|g] r' Hg; [lia|]. rewrite parse_members_S. lnorm.
        rewrite expect_at, Hs, expect_at by assumption.
        rewrite Hv by (len || (apply may_follow_delimiter; auto)).
        rewrite expect_other by (assumption || reflexivity).
        rewrite expect_at by assumption.
        now rewrite Hm by len.
    - (* the elements of an array *)
      intros t l r H. rewrite parse_elements_S in H.
      destruct (parse_value f t) as [[v r1]|] eqn:Ev; [|discriminate].
      destruct (IHv _ _ _ Ev) as (w & x & m & -> & Hw & Hx & H93 & _ & Hv).
      destruct (expect 93 r1) as [r2|] eqn:E2.
      + inversion H; subst l r2.
        destruct (expect_split E2) as (w3 & -> & Hw3 & Hb).
        exists w, x, (m ++ w3).
        split; [lnorm; reflexivity|]. split; [assumption|].
        split; [assumption|]. split; [assumption|].
        intros [|g] r' Hg; [lia|]. rewrite parse_elements_S. lnorm.
        rewrite Hv by (len || (apply may_follow_delimiter; auto)).
        now rewrite expect_at by assumption.
      + destruct (expect 44 r1) as [r2|] eqn:E3; [|discriminate].
        destruct (expect_split E3) as (w3 & -> & Hw3 & Hb).
        destruct (parse_elements f r2) as [[l' r3]|] eqn:Em; [|discriminate].
        inversion H; subst l r3.
        destruct (IHe _ _ _ Em) as (w4 & x4 & m4 & -> & Hw4 & Hx4 & H4 & He).
        exists w, x, (m ++ w3 ++ 44%N :: w4 ++ x4 :: m4).
        split; [lnorm; reflexivity|]. split; [assumption|].
        split; [assumption|]. split; [assumption|].
        intros [|g] r' Hg; [lia|]. rewrite parse_elements_S. lnorm.
        rewrite Hv by (len || (apply may_follow_delimiter; auto)).
        rewrite expect_other by (assumption || reflexivity).
        rewrite expect_at by assumption.
        now rewrite He by len.
Qed.

  (** *** White space and [rstrip] *)

Lemma skip_ws_nil_blank (r : text) : skip_ws r = [] -> blank r.
Proof.
    unfold skip_ws, blank. induction r as [|c r IH]; simpl; [constructor|].
    destruct (is_ws c) eqn:E; [|discriminate].
    intros H. constructor; auto.
Qed.

Lemma is_ws_isspace (c : N) : is_ws c = true -> py_isspace c = true.
Proof.
    unfold is_ws. intros H.
    repeat (apply orb_true_iff in H; destruct H as [H|H]);
      apply N.eqb_eq in H; subst; reflexivity.
Qed.

Lemma drop_while_all (A : Type) (p : A -> bool) (l : list A) (c : A)
        (r : list A) :
    Forall (fun x => p x = true) l -> p c = false ->
    drop_while p (l ++ c :: r) = c :: r.
Proof.
    intros Hl Hc. induction Hl as [|x l Hx _ IH]; simpl.
    - now rewrite Hc.
    - now rewrite Hx.
Qed.

Lemma rstrip_by_end (p : N -> bool) (a : text) (c : N) (r : text) :
    p c = false -> Forall (fun x => p x = true) r ->
    rstrip_by p (a ++ c :: r) = a ++ [c].
Proof.
    intros Hc Hr. unfold rstrip_by.
    rewrite rev_app_distr. simpl rev. rewrite <- app_assoc. simpl app.
    rewrite drop_while_all; auto.
    - simpl. now rewrite rev_involutive.
    - apply Forall_rev. assumption.
Qed.

  (** A text that [loads] reads as an object is, without its trailing
      white space, the text of that object. *)
Lemma loads_object_text (t : text) (d : list (text * pyval)) :
    loads t = Some (PyDict d) -> object_text (rstrip t) (PyDict d).
Proof.
    unfold loads.
    destruct (parse_value (S (List.length t)) t) as [[v rest]|] eqn:E;
      [|discriminate].
    destruct (skip_ws rest) eqn:Es; [|discriminate].
    intros H; inversion H; subst v; clear H.
    apply skip_ws_nil_blank in Es.
    destruct (proj1 (parse_reads _) _ _ _ E)
      as (w & x & m & Ht & Hw & Hx & Hx3 & Hd & Hread).
    destruct (Hd d eq_refl) as (m0 & ->).
    assert (Hs : rstrip t = w ++ x :: m0 ++ [125%N]).
    { subst t. unfold rstrip.
      replace (w ++ x :: (m0 ++ [125%N]) ++ rest)
        with ((w ++ x :: m0) ++ 125%N :: rest)
        by (repeat (rewrite <- app_assoc; simpl); reflexivity).
      rewrite rstrip_by_end.
      - rewrite <- app_assoc. reflexivity.
      - reflexivity.
      - eapply Forall_impl; [|exact Es]. apply is_ws_isspace. }
    rewrite Hs. split.
    - exists w, x, m0. auto.
    - intros g r' Hg.
      replace ((w ++ x :: m0 ++ [125%N]) ++ r')
        with (w ++ x :: (m0 ++ [125%N]) ++ r')
        by (repeat (rewrite <- app_assoc; simpl); reflexivity).
      apply Hread; [|exact I].
      repeat (rewrite length_app in Hg; simpl List.length in Hg).
      rewrite length_app. simpl. lia.
Qed.

  (** *** Strings of safe characters are read as they are *)

Lemma safe_char_facts (c : N) :
    safe_char c = true ->
    (c =? 34)%N = false /\ (c =? 92)%N = false /\ (c <? 32)%N = false /\
    (c < 128)%N /\ in_range 55296 56319 c = false.
Proof.
    unfold safe_char, in_range. intros H.
    apply andb_true_iff in H. destruct H as [H H4].
    apply andb_true_iff in H. destruct H as [H H3].
    apply andb_true_iff in H. destruct H as [H1 H2].
    apply negb_true_iff in H3, H4.
    apply N.leb_le in H1. apply N.ltb_lt in H2.
    repeat split; auto.
    - apply N.ltb_ge. assumption.
    - apply andb_false_iff. left. apply N.leb_gt. lia.
Qed.

Lemma parse_string_raw_safe (s r : text) :
    safe s = true -> parse_string_raw (s ++ 34%N :: r) = Some (s, r).
Proof.
    induction s as [|c s IH]; intros H; [reflexivity|].
    simpl in H. apply andb_true_iff in H. destruct H as [Hc Hs].
    destruct (safe_char_facts Hc) as (H1 & H2 & H3 & _).
    simpl. rewrite H1, H2, H3, (IH Hs). reflexivity.
Qed.

Lemma combine_surrogates_safe (s : text) :
    safe s = true -> combine_surrogates s = s.
Proof.
    induction s as [|c s IH]; intros H; [reflexivity|].
    simpl in H. apply andb_true_iff in H. destruct H as [Hc Hs].
    destruct (safe_char_facts Hc) as (_ & _ & _ & _ & H5).
    destruct s as [|d s]; [reflexivity|].
    change (combine_surrogates (c :: d :: s))
      with (if in_range 55296 56319 c && in_range 56320 57343 d
            then (65536 + (c - 55296) * 1024 + (d - 56320))%N
                 :: combine_surrogates s
            else c :: combine_surrogates (d :: s)).
    rewrite H5. cbn [andb]. now rewrite (IH Hs).
Qed.

Lemma parse_string_safe (s r : text) :
    safe s = true -> parse_string (s ++ 34%N :: r) = Some (s, r).
Proof.
    intros H. unfold parse_string.
    rewrite parse_string_raw_safe by assumption.
    now rewrite combine_surrogates_safe.
Qed.

  (** *** The array of the records *)

Lemma join_pieces_cons (p q : text) (ps : list text) :
    join_pieces (p :: q :: ps) = p ++ 44%N :: join_pieces (q :: ps).
Proof. reflexivity. Qed.

Lemma expect_here (c : N) (r : text) :
    is_ws c = false -> expect c (c :: r) = Some r.
Proof. intros H. apply (@expect_at [] c r); [constructor|assumption]. Qed.

Lemma expect_not_here (a b : N) (r : text) :
    is_ws a = false -> (a =? b)%N = false -> expect b (a :: r) = None.
Proof.
    intros Ha Hab. apply (@expect_other [] a b r); [constructor|auto..].
Qed.

Lemma elements_join (ps : list text) (vs : list pyval) :
    Forall2 object_text ps vs -> ps <> [] ->
    forall g rest,
      List.length (join_pieces ps) < g ->
      parse_elements g (join_pieces ps ++ 93%N :: rest) = Some (vs, rest).
Proof.
    induction 1 as [|p v ps vs Hp Hps IH]; intros Hne; [congruence|].
    intros [|g] rest Hg; [lia|].
    rewrite parse_elements_S. destruct Hp as [_ Hread].
    destruct ps as [|q ps].
    - inversion Hps; subst. simpl join_pieces in *.
      rewrite Hread by lia.
      now rewrite expect_here by reflexivity.
    - rewrite join_pieces_cons in *.
      remember (join_pieces (q :: ps)) as rest_ eqn:Er. clear Er.
      rewrite <- app_assoc. simpl app.
      rewrite length_app in Hg. simpl List.length in Hg.
      rewrite Hread by lia.
      rewrite (@expect_not_here 44%N 93%N) by reflexivity.
      rewrite expect_here by reflexivity.
      rewrite IH; [reflexivity|discriminate|lia].
Qed.

  (** *** A group line is read as an object of two members *)

Lemma parse_value_object (f : nat) (r : text) :
    parse_value (S f) (123%N :: r)
    = match expect 125 r with
      | Some r' => Some (PyDict [], r')
      | None =>
        match parse_members f r with
        | Some (d, r') => Some (PyDict d, r')
        | None => None
        end
      end.
Proof. reflexivity. Qed.

Lemma parse_value_array (f : nat) (r : text) :
    parse_value (S f) (91%N :: r)
    = match expect 93 r with
      | Some r' => Some (PyList [], r')
      | None =>
        match parse_elements f r with
        | Some (l, r') => Some (PyList l, r')
        | None => None
        end
      end.
Proof. reflexivity. Qed.

Lemma parse_value_string (f : nat) (r : text) :
    parse_value (S f) (34%N :: r)
    = match parse_string r with
      | Some (s, r') => Some (PyScalar (KStr s), r')
      | None => None
      end.
Proof. reflexivity. Qed.

Lemma parse_value_space (f : nat) (r : text) :
    parse_value (S f) (32%N :: r) = parse_value (S f) r.
Proof. reflexivity. Qed.

Lemma expect_space (c : N) (r : text) : expect c (32%N :: r) = expect c r.
Proof. reflexivity. Qed.

Lemma expect_join (ps : list text) (vs : list pyval) (rest : text) :
    Forall2 object_text ps vs -> ps <> [] ->
    expect 93 (join_pieces ps ++ rest) = None.
Proof.
    intros H Hne. destruct H as [|p v ps vs Hp Hps]; [congruence|].
    destruct Hp as [(w & x & m & -> & Hw & Hx & Hx3) _].
    destruct ps as [|q ps]; [simpl join_pieces|rewrite join_pieces_cons];
      lnorm; now apply expect_other.
Qed.

Lemma group_line_str (s : text) (ps : list text) :
    group_line (KStr s) ps
    = 123%N :: 34%N :: fp_name
      ++ 34%N :: 58%N :: 32%N :: 34%N :: s
      ++ 34%N :: 44%N :: 32%N :: 34%N :: certs_name
      ++ 34%N :: 58%N :: 32%N :: 91%N :: join_pieces ps
      ++ [93%N; 125%N; 10%N].
Proof.
    unfold group_line, group_header, sentinel, py_format, dq.
    change (text_of_string "{") with [123%N].
    change (text_of_string ": ") with [58%N; 32%N].
    change (text_of_string ", ") with [44%N; 32%N].
    change (text_of_string ": [") with [58%N; 32%N; 91%N].
    fold fp_name. fold certs_name.
    lnorm. reflexivity.
Qed.

Lemma group_line_reads (s : text) (ps : list text) (vs : list pyval)
        (g : nat) :
    safe s = true -> Forall2 object_text ps vs -> ps <> [] ->
    List.length (join_pieces ps) < g ->
    parse_value (S (S (S (S g)))) (group_line (KStr s) ps)
    = Some (PyDict [(fp_name, PyScalar (KStr s)); (certs_name, PyList vs)],
            [10%N]).
Proof.
    intros Hs Hps Hne Hg. rewrite group_line_str.
    rewrite parse_value_object.
    rewrite (@expect_not_here 34%N 125%N) by reflexivity.
    rewrite parse_members_S.
    rewrite expect_here by reflexivity.
    rewrite parse_string_safe by reflexivity.
    rewrite expect_here by reflexivity.
    rewrite parse_value_space, parse_value_string.
    rewrite parse_string_safe by assumption.
    rewrite (@expect_not_here 44%N 125%N) by reflexivity.
    rewrite expect_here by reflexivity.
    rewrite parse_members_S.
    rewrite expect_space, expect_here by reflexivity.
    rewrite parse_string_safe by reflexivity.
    rewrite expect_here by reflexivity.
    rewrite parse_value_space, parse_value_array.
    rewrite (expect_join _ Hps Hne).
    rewrite (elements_join Hps Hne) by assumption.
    rewrite expect_here by reflexivity.
    reflexivity.
Qed.

Lemma group_line_loads (s : text) (ps : list text) (vs : list pyval) :
    safe s = true -> Forall2 object_text ps vs -> ps <> [] ->
    loads (group_line (KStr s) ps)
    = Some (PyDict [(fp_name, PyScalar (KStr s)); (certs_name, PyList vs)]).
Proof.
    intros Hs Hps Hne. unfold loads.
    assert (Hl : exists g, List.length (group_line (KStr s) ps)
                           = S (S (S g)) /\
                           List.length (join_pieces ps) < g).
    { rewrite group_line_str.
      exists (List.length (group_line (KStr s) ps) - 3).
      rewrite group_line_str.
      repeat (rewrite length_app || cbn [List.length]).
      split; lia. }
    destruct Hl as (g & -> & Hg).
    rewrite (group_line_reads Hs Hps Hne Hg). reflexivity.
Qed.

End JsonFacts.

(** ** Plain input: bytes and characters are the same *)

Lemma b2n_n2b (c : N) : (c < 256)%N -> b2n (n2b c) = c.
Proof.
  intros H. unfold b2n, n2b. destruct (Byte.of_N c) as [b|] eqn:E.
  - now apply Byte.to_of_N.
  - apply Byte.of_N_None_iff in E. lia.
Qed.

Lemma n2b_b2n (b : byte) : n2b (b2n b) = b.
Proof. unfold b2n, n2b. now rewrite Byte.of_to_N. Qed.

Lemma plain_byte_facts (b : byte) :
  plain_byte b = true -> (b2n b <? 128)%N = true /\ (b2n b =? 13)%N = false.
Proof.
  unfold plain_byte. intros H. apply andb_true_iff in H.
  destruct H as [H1 H2]. apply negb_true_iff in H2. auto.
Qed.

Lemma plain_app (a b : bytes) :
  plain (a ++ b) = plain a && plain b.
Proof. apply forallb_app. Qed.

Lemma plain_firstn (n : nat) (bs : bytes) :
  plain bs = true -> plain (firstn n bs) = true.
Proof.
  intros H. rewrite <- (firstn_skipn n bs), plain_app in H.
  now apply andb_true_iff in H.
Qed.

Lemma plain_skipn (n : nat) (bs : bytes) :
  plain bs = true -> plain (skipn n bs) = true.
Proof.
  intros H. rewrite <- (firstn_skipn n bs), plain_app in H.
  now apply andb_true_iff in H.
Qed.

Lemma plain_decode (bs : bytes) :
  plain bs = true -> utf8_decode bs = Some (map b2n bs).
Proof.
  induction bs as [|b r IH]; intros H; [reflexivity|].
  simpl in H. apply andb_true_iff in H. destruct H as [Hb Hr].
  destruct (plain_byte_facts Hb) as [H1 _].
  cbn [utf8_decode map]. rewrite H1, (IH Hr). reflexivity.
Qed.

Lemma plain_translate (bs : bytes) :
  plain bs = true -> translate_newlines (map b2n bs) = map b2n bs.
Proof.
  induction bs as [|b r IH]; intros H; [reflexivity|].
  simpl in H. apply andb_true_iff in H. destruct H as [Hb Hr].
  destruct (plain_byte_facts Hb) as [_ H2].
  cbn [translate_newlines map]. rewrite H2, (IH Hr). reflexivity.
Qed.

Lemma plain_ascii (bs : bytes) :
  plain bs = true -> ascii_text (map b2n bs).
Proof.
  induction bs as [|b r IH]; intros H; [constructor|].
  simpl in H. apply andb_true_iff in H. destruct H as [Hb Hr].
  destruct (plain_byte_facts Hb) as [H1 _]. apply N.ltb_lt in H1.
  constructor; [assumption|now apply IH].
Qed.

(** Reading a record of a plain input again gives the characters of its
    line. *)
Lemma plain_text_read (input : bytes) (r : nat * bytes) :
  plain input = true -> line_of input r ->
  text_read input (fst r) (List.length (snd r)) = Some (map b2n (snd r)).
Proof.
  intros Hp (_ & Hs & _). unfold text_read.
  rewrite plain_decode by now apply plain_skipn.
  simpl option_map. rewrite plain_translate by now apply plain_skipn.
  rewrite firstn_map, <- Hs. reflexivity.
Qed.

Lemma plain_record (input : bytes) (r : nat * bytes) :
  plain input = true -> line_of input r -> plain (snd r) = true.
Proof.
  intros Hp (_ & Hs & _). rewrite Hs.
  now apply plain_firstn, plain_skipn.
Qed.

(** ASCII text is encoded one byte a character, and decoded back. *)
Lemma ascii_encode (t : text) :
  ascii_text t -> utf8_encode t = Some (map n2b t).
Proof.
  induction 1 as [|c t Hc _ IH]; [reflexivity|].
  cbn [utf8_encode map]. unfold utf8_encode1.
  apply N.ltb_lt in Hc. rewrite Hc, IH. reflexivity.
Qed.

Lemma ascii_decode (t : text) :
  ascii_text t -> utf8_decode (map n2b t) = Some t.
Proof.
  induction 1 as [|c t Hc _ IH]; [reflexivity|].
  cbn [utf8_decode map]. rewrite b2n_n2b by lia.
  apply N.ltb_lt in Hc. rewrite Hc, IH. reflexivity.
Qed.

Lemma ascii_app (a b : text) :
  ascii_text a -> ascii_text b -> ascii_text (a ++ b).
Proof. intros Ha Hb. apply Forall_app. now split. Qed.

(** ** Pieces of plain records *)

Lemma drop_while_In (A : Type) (p : A -> bool) (l : list A) (x : A) :
  In x (drop_while p l) -> In x l.
Proof.
  induction l as [|a l IH]; simpl; [tauto|].
  destruct (p a); simpl; tauto.
Qed.

Lemma rstrip_by_In (p : N -> bool) (t : text) (x : N) :
  In x (rstrip_by p t) -> In x t.
Proof.
  unfold rstrip_by. intros H. apply in_rev in H.
  apply drop_while_In in H. now apply in_rev.
Qed.

Lemma rstrip_by_snoc (p : N -> bool) (t : text) (c : N) :
  p c = true -> rstrip_by p (t ++ [c]) = rstrip_by p t.
Proof.
  intros H. unfold rstrip_by. rewrite rev_app_distr. simpl. now rewrite H.
Qed.

Lemma take_line_shape (bs : bytes) :
  exists pre, ~ In x0a pre /\
              (take_line bs = pre \/ take_line bs = pre ++ [x0a]).
Proof.
  induction bs as [|b r IH]; simpl.
  - exists []. split; [tauto|now left].
  - destruct (Byte.eqb b x0a) eqn:E.
    + apply Byte.byte_dec_bl in E. subst b.
      exists []. split; [tauto|now right].
    + destruct IH as (pre & Hn & H). exists (b :: pre). split.
      * intros [->|Hin]; [|tauto]. discriminate.
      * destruct H as [-> | ->]; [now left|now right].
Qed.

Lemma plain_verbatim (l : bytes) :
  plain l = true -> verbatim l = rstrip (map b2n l).
Proof. intros H. unfold verbatim. now rewrite plain_decode. Qed.

Lemma b2n_lf (b : byte) : b2n b = 10%N -> b = x0a.
Proof. intros H. rewrite <- (n2b_b2n b), H. reflexivity. Qed.

(** The text of a record of a plain input is ASCII and has no line
    feed. *)
Lemma record_text_chars (input : bytes) (r : nat * bytes) :
  plain input = true -> line_of input r ->
  Forall line_char (record_text r).
Proof.
  intros Hp Hl. pose proof (plain_record Hp Hl) as Hr.
  destruct Hl as (Hl & _). unfold record_text.
  rewrite plain_verbatim by assumption.
  pose proof (plain_ascii Hr) as Ha.
  unfold readline in Hl.
  destruct (take_line_shape (skipn (fst r) input)) as (pre & Hn & H).
  rewrite <- Hl in H.
  assert (Hpre : ~ In 10%N (map b2n pre)).
  { intros Hin. apply in_map_iff in Hin. destruct Hin as (b & Hb & Hin).
    apply b2n_lf in Hb. subst b. tauto. }
  apply Forall_forall. intros c Hc. split.
  - apply rstrip_by_In in Hc.
    unfold ascii_text in Ha. rewrite Forall_forall in Ha. now apply Ha.
  - intros ->. destruct H as [H|H]; rewrite H in Hc.
    + apply rstrip_by_In in Hc. tauto.
    + rewrite map_app in Hc. simpl map in Hc.
      change [b2n x0a] with [10%N] in Hc. unfold rstrip in Hc.
      rewrite rstrip_by_snoc in Hc by reflexivity.
      apply rstrip_by_In in Hc. tauto.
Qed.

Lemma line_piece_text (r : nat * bytes) (p : text) :
  line_piece r p -> p = record_text r.
Proof.
  intros (c & Hc & ->). unfold record_text, verbatim. now rewrite Hc.
Qed.

Lemma reread_piece_text (input : bytes) (r : nat * bytes) (p : text) :
  plain input = true -> line_of input r ->
  reread_piece input (location r) p -> p = record_text r.
Proof.
  intros Hp Hl (f & Hf & ->). unfold location in Hf. simpl in Hf.
  rewrite (plain_text_read Hp Hl) in Hf. inversion Hf; subst f.
  unfold record_text. rewrite plain_verbatim; [reflexivity|].
  eapply plain_record; eauto.
Qed.

Lemma line_pieces_text (rs : list (nat * bytes)) (ps : list text) :
  Forall2 line_piece rs ps -> ps = map record_text rs.
Proof.
  induction 1 as [|r p rs ps Hp _ IH]; [reflexivity|].
  simpl. now rewrite (line_piece_text Hp), IH.
Qed.

Lemma join_pieces_Forall (P : N -> Prop) (ps : list text) :
  P 44%N -> Forall (Forall P) ps -> Forall P (join_pieces ps).
Proof.
  intros Hc. induction 1 as [|p ps Hp Hps IH]; [constructor|].
  destruct ps as [|q ps]; [assumption|].
  rewrite join_pieces_cons. apply Forall_app. split; [assumption|].
  constructor; assumption.
Qed.

Lemma safe_line_chars (s : text) : safe s = true -> Forall line_char s.
Proof.
  induction s as [|c s IH]; intros H; [constructor|].
  simpl in H. apply andb_true_iff in H. destruct H as [Hc Hs].
  constructor; [|now apply IH].
  destruct (safe_char_facts Hc) as (_ & _ & H3 & H4 & _).
  apply N.ltb_ge in H3. split; [assumption|lia].
Qed.

(** A group line of line characters is one line of ASCII. *)
Lemma group_line_chars (s : text) (ps : list text) :
  safe s = true -> Forall (Forall line_char) ps ->
  exists body, group_line (KStr s) ps = body ++ [10%N] /\
               Forall line_char body.
Proof.
  intros Hs Hps.
  exists (group_header (KStr s) ++ join_pieces ps ++ [93%N; 125%N]).
  split.
  - unfold group_line, sentinel. repeat rewrite <- app_assoc. reflexivity.
  - assert (Hk : forall t : text,
               forallb (fun c => (c <? 128)%N && negb (c =? 10)%N) t = true ->
               Forall line_char t).
    { intros t Ht. apply Forall_forall. intros c Hc.
      rewrite forallb_forall in Ht. specialize (Ht c Hc).
      apply andb_true_iff in Ht. destruct Ht as [H1 H2].
      apply N.ltb_lt in H1. apply negb_true_iff, N.eqb_neq in H2.
      split; assumption. }
    unfold group_header, py_format.
    repeat (apply Forall_app; split);
      try (apply Hk; reflexivity).
    + now apply safe_line_chars.
    + apply join_pieces_Forall; [|assumption]. split; [lia|discriminate].
Qed.

Lemma line_chars_bytes (body : text) :
  Forall line_char body ->
  ascii_text (body ++ [10%N]) /\ ~ In x0a (map n2b body).
Proof.
  intros H. split.
  - apply ascii_app; [|repeat constructor].
    eapply Forall_impl; [|exact H]. intros c [Hc _]. exact Hc.
  - intros Hin. apply in_map_iff in Hin. destruct Hin as (c & Hc & Hin).
    rewrite Forall_forall in H. destruct (H c Hin) as [H1 H2].
    apply H2. rewrite <- (b2n_n2b (c := c)) by lia. now rewrite Hc.
Qed.

Section PlainJson.

Variable ijson_items : bytes -> option (list pyval).
Variable input : bytes.
Hypothesis Hplain : plain input = true.
Hypothesis Hgood : Forall (good_record ijson_items) (records input).

Lemma record_facts (r : nat * bytes) :
    In r (records input) ->
    line_of input r /\ good_record ijson_items r.
Proof.
    intros Hin. split.
    - pose proof (records_lines input) as H. rewrite Forall_forall in H.
      now apply H.
    - rewrite Forall_forall in Hgood. now apply Hgood.
Qed.

  (** The text of a record is the text of the object its line holds. *)
Lemma record_object (r : nat * bytes) :
    In r (records input) ->
    exists v, json_of_bytes (snd r) = Some v /\
              object_text (record_text r) v.
Proof.
    intros Hin. destruct (record_facts Hin) as [Hl [(d & Hd) _]].
    exists (PyDict d). split; [assumption|].
    unfold json_of_bytes in Hd. unfold record_text.
    pose proof (plain_record Hplain Hl) as Hr.
    rewrite plain_verbatim by assumption.
    rewrite plain_decode in Hd by assumption.
    now apply loads_object_text.
Qed.

Lemma records_objects (occ : list (nat * bytes)) :
    incl occ (records input) ->
    exists vs,
      Forall2 (fun r v => json_of_bytes (snd r) = Some v) occ vs /\
      Forall2 object_text (map record_text occ) vs.
Proof.
    induction occ as [|r occ IH]; intros Hi.
    - exists []. split; constructor.
    - destruct (record_object (Hi r (or_introl eq_refl))) as (v & Hv & Ho).
      destruct IH as (vs & H1 & H2).
      { intros x Hx. apply Hi. now right. }
      exists (v :: vs). split; constructor; assumption.
Qed.

Lemma occurrences_incl (k : pykey) :
    incl (occurrences ijson_items k (records input)) (records input).
Proof. intros r Hr. unfold occurrences in Hr. now apply filter_In in Hr. Qed.

  (** The line of a fingerprint of safe characters, with the texts of
      its records, is a line of JSON as C6 wants it. *)
Lemma group_line_json (s : text) :
    safe s = true ->
    occurrences ijson_items (KStr s) (records input) <> [] ->
    exists b,
      utf8_encode
        (group_line (KStr s)
           (map record_text
                (occurrences ijson_items (KStr s) (records input))))
      = Some b /\
      group_json ijson_items input b.
Proof.
    intros Hs Hne.
    set (occ := occurrences ijson_items (KStr s) (records input)) in *.
    destruct (records_objects (@occurrences_incl (KStr s)))
      as (vs & Hv & Ho). fold occ in Hv, Ho.
    assert (Hc : Forall (Forall line_char) (map record_text occ)).
    { apply Forall_forall. intros p Hp. apply in_map_iff in Hp.
      destruct Hp as (r & <- & Hr).
      apply (record_text_chars Hplain).
      apply record_facts. now apply (@occurrences_incl (KStr s)). }
    destruct (group_line_chars Hs Hc) as (body & Hb & Hbody).
    destruct (line_chars_bytes Hbody) as [Ha Hn].
    exists (map n2b body ++ [x0a]). split.
    - rewrite Hb, (ascii_encode Ha), map_app. reflexivity.
    - exists s, vs. split; [|split; [|split]].
      + unfold json_of_bytes.
        change (map n2b body ++ [x0a]) with (map n2b body ++ map n2b [10%N]).
        rewrite <- map_app, (ascii_decode Ha), <- Hb.
        apply group_line_loads; [assumption|assumption|].
        destruct occ; [congruence|discriminate].
      + symmetry. fold occ. eapply Forall2_length; eauto.
      + exact Hv.
      + exists (map n2b body). split; [reflexivity|assumption].
Qed.

End PlainJson.

(** ** Plain input: no step raises *)

Lemma rstrip_by_Forall (P : N -> Prop) (p : N -> bool) (t : text) :
  Forall P t -> Forall P (rstrip_by p t).
Proof.
  intros H. rewrite Forall_forall in *. intros c Hc.
  apply H. now apply rstrip_by_In in Hc.
Qed.

Lemma ascii_check (t : text) :
  forallb (fun c => (c <? 128)%N) t = true -> ascii_text t.
Proof.
  intros H. apply Forall_forall. intros c Hc.
  rewrite forallb_forall in H. now apply N.ltb_lt, H.
Qed.

Lemma plain_text_read_total (input : bytes) (start length : nat) :
  plain input = true ->
  exists f, text_read input start length = Some f /\ ascii_text f.
Proof.
  intros Hp. unfold text_read.
  rewrite plain_decode by now apply plain_skipn.
  simpl option_map. rewrite plain_translate by now apply plain_skipn.
  eexists. split; [reflexivity|].
  rewrite firstn_map. apply plain_ascii. now apply plain_firstn, plain_skipn.
Qed.

Lemma join_pieces_ascii (ps : list text) :
  Forall ascii_text ps -> ascii_text (join_pieces ps).
Proof.
  intros H. apply join_pieces_Forall; [reflexivity|assumption].
Qed.

Lemma group_line_ascii (k : pykey) (ps : list text) :
  ascii_text (py_format k) -> Forall ascii_text ps ->
  ascii_text (group_line k ps).
Proof.
  intros Hk Hps. unfold group_line, group_header, sentinel.
  repeat (apply ascii_app); try (apply ascii_check; reflexivity);
    try assumption.
  now apply join_pieces_ascii.
Qed.

Lemma safe_ascii (s : text) : safe s = true -> ascii_text s.
Proof.
  intros H. eapply Forall_impl; [|apply (safe_line_chars H)].
  intros c [Hc _]. exact Hc.
Qed.

Lemma py_eqb_str (s : text) (k : pykey) :
  py_eqb (KStr s) k = true -> k = KStr s.
Proof.
  destruct k; simpl; try discriminate.
  intros H. apply text_eqb_eq in H. now subst.
Qed.

Section PlainRuns.

Variable ijson_items : bytes -> option (list pyval).
Variable input : bytes.
Hypothesis Hplain : plain input = true.
Hypothesis Hgood : Forall (good_record ijson_items) (records input).

Lemma ledger_step_total (st : nat * dict entry) (r : nat * bytes) :
    In r (records input) ->
    exists st', ledger_step ijson_items input st r = Ok st'.
Proof.
    intros Hin.
    destruct (record_facts Hgood Hin) as [Hl [_ (s & Hk & Hs)]].
    pose proof (plain_record Hplain Hl) as Hr.
    unfold ledger_step. rewrite Hk.
    destruct (dict_get (KStr s) (snd st)) as [[loc g]|]; [|eauto].
    rewrite (plain_decode Hr).
    assert (Hcur : ascii_text (rstrip (map b2n (snd r)))).
    { apply rstrip_by_Forall. now apply plain_ascii. }
    destruct g as [g|].
    - unfold encodable. rewrite ascii_encode; [eauto|].
      repeat apply ascii_app; try assumption;
        apply ascii_check; reflexivity.
    - destruct (plain_text_read_total (fst loc) (snd loc) Hplain)
        as (f & -> & Hf).
      unfold encodable. rewrite ascii_encode; [eauto|].
      apply group_line_ascii; [now apply safe_ascii|].
      repeat constructor; [|assumption].
      now apply rstrip_by_Forall.
Qed.

Lemma ledger_steps_total (recs : list (nat * bytes))
        (st : nat * dict entry) :
    incl recs (records input) ->
    exists st', ledger_steps ijson_items input recs st = Ok st'.
Proof.
    revert st. induction recs as [|r recs IH]; intros st Hi; simpl; [eauto|].
    destruct (@ledger_step_total st r (Hi r (or_introl eq_refl)))
      as (st1 & ->).
    apply IH. intros x Hx. apply Hi. now right.
Qed.

  (** The file of a group holds a line of JSON as C6 wants it. *)
Lemma disk_group_json (lst : nat * dict entry) (k : pykey)
        (loc : nat * nat) (g : group) :
    ledger_steps ijson_items input (records input) (0, []) = Ok lst ->
    In (k, (loc, Some g)) (snd lst) ->
    group_json ijson_items input (group_bytes g).
Proof.
    intros Hs Hin.
    pose proof (ledger_steps_ok ledger_ok_init Hs) as (Hw & _).
    pose proof (ledger_steps_tracks Hs k) as Ht.
    pose proof (dict_wf_in Hw Hin) as Hg.
    destruct (occurrences ijson_items k (records input))
      as [|r1 [|r2 more]] eqn:Eo.
    - congruence.
    - rewrite Hg in Ht. discriminate.
    - destruct Ht as (g' & p1 & ps & Hg' & Hk & Hp & H1 & H2).
      rewrite Hg in Hg'. inversion Hg'; subst g'; clear Hg'.
      assert (Hi : incl (r1 :: r2 :: more) (records input)).
      { rewrite <- Eo. apply occurrences_incl. }
      destruct (record_facts Hgood (Hi r1 (or_introl eq_refl)))
        as [Hl1 _].
      destruct (record_facts Hgood (Hi r2 (or_intror (or_introl eq_refl))))
        as [_ [_ (s & Hk2 & Hsafe)]].
      rewrite Hk2 in Hk. inversion Hk as [Hkey]; clear Hk.
      assert (Hh : has_key ijson_items k r2 = true).
      { assert (Hin2 : In r2 (occurrences ijson_items k (records input)))
          by (rewrite Eo; right; now left).
        apply filter_In in Hin2. tauto. }
      unfold has_key in Hh. rewrite Hk2 in Hh. apply py_eqb_str in Hh.
      subst k.
      apply (reread_piece_text Hplain Hl1) in H1.
      apply line_pieces_text in H2.
      destruct (@group_line_json ijson_items input Hplain Hgood s Hsafe)
        as (b & Hb & Hj).
      { rewrite Eo. discriminate. }
      unfold group_bytes. rewrite <- Hkey, Hp, H1, H2.
      change (record_text r1 :: map record_text (r2 :: more))
        with (map record_text (r1 :: r2 :: more)).
      rewrite <- Eo, Hb. exact Hj.
Qed.

End PlainRuns.

Lemma rstrip_comma_join (h : text) (ps : list text) :
  ps <> [] ->
  Forall (fun p => exists a c, p = a ++ [c] /\ (c =? 44)%N = false) ps ->
  rstrip_comma (h ++ List.concat (map (fun p => p ++ comma) ps))
  = h ++ join_pieces ps.
Proof.
  intros Hne H. revert h Hne.
  induction H as [|p ps Hp Hps IH]; intros h Hne; [now contradiction Hne|].
  destruct ps as [|q ps].
  - destruct Hp as (a & c & -> & Hc). simpl. rewrite app_nil_r.
    unfold rstrip_comma, comma.
    replace (h ++ (a ++ [c]) ++ [cp ","]) with ((h ++ a) ++ c :: [cp ","])
      by (repeat rewrite <- app_assoc; reflexivity).
    rewrite rstrip_by_end.
    + now rewrite <- app_assoc.
    + assumption.
    + repeat constructor.
  - rewrite join_pieces_cons.
    change (List.concat (map (fun p0 => p0 ++ comma) (p :: q :: ps)))
      with ((p ++ comma)
              ++ List.concat (map (fun p0 => p0 ++ comma) (q :: ps))).
    rewrite app_assoc, IH by discriminate.
    unfold comma. repeat rewrite <- app_assoc. reflexivity.
Qed.

Lemma object_text_end (p : text) (v : pyval) :
  object_text p v -> exists a c, p = a ++ [c] /\ (c =? 44)%N = false.
Proof.
  intros [(w & x & m & -> & _) _]. exists (w ++ x :: m), 125%N.
  split; [|reflexivity]. now rewrite <- app_assoc.
Qed.

Section PlainMemory.

Variable ijson_items : bytes -> option (list pyval).
Variable input : bytes.
Hypothesis Hplain : plain input = true.
Hypothesis Hgood : Forall (good_record ijson_items) (records input).

Lemma read_positions_plain (occ : list (nat * bytes)) (acc : text) :
    incl occ (records input) ->
    RuntimeOptimized.read_positions input (map location occ) acc
    = Ok (acc ++ List.concat (map (fun p => p ++ comma)
                                  (map record_text occ))).
Proof.
    revert acc. induction occ as [|r occ IH]; intros acc Hi.
    - simpl. now rewrite app_nil_r.
    - destruct (record_facts Hgood (Hi r (or_introl eq_refl))) as [Hl _].
      cbn [map RuntimeOptimized.read_positions location fst snd].
      rewrite (plain_text_read Hplain Hl).
      rewrite IH by (intros x Hx; apply Hi; now right).
      unfold record_text at 2.
      rewrite (plain_verbatim (plain_record Hplain Hl)).
      cbn [List.concat]. repeat rewrite <- app_assoc. reflexivity.
Qed.

  (** The text written for an entry of the index is the line of its
      key with the texts of its records. *)
Lemma mem_group_text (fpm : dict RuntimeOptimized.MapValue)
        (k : pykey) (mv : RuntimeOptimized.MapValue) :
    mem_steps ijson_items (records input) [] = Ok fpm ->
    In (k, mv) fpm ->
    exists s,
      safe s = true /\
      occurrences ijson_items (KStr s) (records input) <> [] /\
      RuntimeOptimized.group_text input k mv
      = Ok (group_line (KStr s)
              (map record_text
                   (occurrences ijson_items (KStr s) (records input)))).
Proof.
    intros Hs Hin. destruct (index_steps_tracks Hs) as [Ht Hw].
    pose proof (dict_wf_in Hw Hin) as Hg. specialize (Ht k).
    destruct (occurrences ijson_items k (records input)) as [|r1 occ] eqn:Eo;
      [congruence|].
    rewrite Hg in Ht. inversion Ht as [Hmv]; clear Ht.
    assert (Hi : incl (r1 :: occ) (records input)).
    { rewrite <- Eo. apply occurrences_incl. }
    destruct (record_facts Hgood (Hi r1 (or_introl eq_refl)))
      as [_ [_ (s & Hk1 & Hsafe)]].
    assert (Hh : has_key ijson_items k r1 = true).
    { assert (Hin1 : In r1 (occurrences ijson_items k (records input)))
        by (rewrite Eo; now left).
      apply filter_In in Hin1. tauto. }
    unfold has_key in Hh. rewrite Hk1 in Hh. apply py_eqb_str in Hh.
    subst k. exists s. split; [assumption|]. rewrite Eo.
    split; [discriminate|].
    unfold RuntimeOptimized.group_text.
    cbn [RuntimeOptimized.position_array].
    change (location r1 :: map location occ)
      with (map location (r1 :: occ)).
    rewrite read_positions_plain by assumption.
    destruct (records_objects Hplain Hgood Hi) as (vs & _ & Ho).
    rewrite rstrip_comma_join.
    - unfold group_line. now rewrite <- app_assoc.
    - discriminate.
    - clear - Ho. induction Ho as [|p v ps vs Hp _ IH]; constructor.
      + eapply object_text_end; eauto.
      + assumption.
Qed.

Lemma mem_output_lines (fpm items : dict RuntimeOptimized.MapValue) :
    mem_steps ijson_items (records input) [] = Ok fpm ->
    incl items fpm ->
    exists lines,
      mem_output input items = Ok (List.concat lines) /\
      Forall (group_json ijson_items input) lines.
Proof.
    intros Hs. induction items as [|[k mv] items IH]; intros Hi.
    - exists []. split; [reflexivity|constructor].
    - destruct IH as (lines & Ho & Hl).
      { intros x Hx. apply Hi. now right. }
      cbn [mem_output].
      destruct (1 <? List.length (RuntimeOptimized.position_array mv));
        [|exists lines; split; assumption].
      destruct (mem_group_text Hs (Hi _ (or_introl eq_refl)))
        as (s & Hsafe & Hne & ->).
      destruct (@group_line_json ijson_items input Hplain Hgood s Hsafe Hne)
        as (b & -> & Hj).
      rewrite Ho. exists (b :: lines). split; [reflexivity|].
      constructor; assumption.
Qed.

End PlainMemory.

Lemma good_records_check (ijson_items : bytes -> option (list pyval))
      (recs : list (nat * bytes)) :
  forallb (good_recordb ijson_items) recs = true ->
  Forall (good_record ijson_items) recs.
Proof.
  intros H. apply Forall_forall. intros r Hr.
  rewrite forallb_forall in H. specialize (H r Hr).
  unfold good_recordb in H. unfold good_record.
  destruct (json_of_bytes (snd r)) as [[| |d]|]; try discriminate.
  destruct (fingerprint_key ijson_items (snd r)) as [[| | | |s]|];
    try discriminate.
  split; eauto.
Qed.


Section Claim6.

Variable ijson_items : bytes -> option (list pyval).
Variable scandir_order : list string -> list string.
Variable input : bytes.


End Claim6.


(* ================================================================== *)
(** * Further properties of the two scripts *)

(** ** What a run leaves in the file system *)

Lemma under_temp_under_out (od p : string) :
  under (out_dir od) p = None -> under (temp_dir_of od) p = None.
Proof.
  unfold under, temp_dir_of. intros H.
  destruct (strip_prefix ((out_dir od ++ "/" ++ "temp") ++ "/") p)
    as [name|] eqn:E; [|reflexivity].
  apply strip_prefix_eq in E. subst p.
  rewrite !string_app_assoc in H. rewrite strip_prefix_app_app in H.
  simpl in H. discriminate.
Qed.

Lemma copy_files_other (outfile : string) (names : list string)
      (fs : filesystem) (p : string) :
  p <> outfile ->
  fs_lookup p (fst (MemoryScalable.copy_files outfile names fs))
  = fs_lookup p fs.
Proof.
  intros Hp. revert fs. induction names as [|n rest IH]; intros fs; simpl.
  - reflexivity.
  - unfold bind, open_r.
    destruct (fs_lookup n fs) as [data|]; [|reflexivity].
    destruct (fs_lookup outfile fs) as [old|]; [|reflexivity].
    rewrite IH. apply fs_lookup_store_other. congruence.
Qed.

Lemma write_items_other (outfile : string) (input : bytes)
      (items : dict RuntimeOptimized.MapValue) (pos : nat)
      (fs : filesystem) (p : string) :
  p <> outfile ->
  fs_lookup p (fst (RuntimeOptimized.write_items outfile input items pos fs))
  = fs_lookup p fs.
Proof.
  intros Hp. revert pos fs.
  induction items as [|[k mv] rest IH]; intros pos fs; simpl.
  - reflexivity.
  - destruct (1 <? List.length (RuntimeOptimized.position_array mv));
      [|apply IH].
    unfold bind, lift_result.
    destruct (RuntimeOptimized.group_text input k mv) as [t|e];
      [|reflexivity].
    unfold write_text.
    destruct (utf8_encode t) as [data|]; [|reflexivity].
    destruct (fs_lookup outfile fs) as [old|]; [|reflexivity].
    rewrite IH. apply fs_lookup_store_other. congruence.
Qed.

Section RunShape.

Variable ijson_items : bytes -> option (list pyval).
Variable scandir_order : list string -> list string.
Variable input : bytes.
Variable od : string.
Variable fs0 : filesystem.

  (** The memory-resident script: a run that gets past the scan has
      emptied the output directory and written to the output file only. *)
Lemma mem_main_shape :
    match mem_steps ijson_items (records input) [] with
    | Raise e =>
      RuntimeOptimized.main ijson_items (Some input) od fs0 = (fs0, Raise e)
    | Ok fpm =>
      forall p,
        p <> out_file od ->
        fs_lookup p (fst (RuntimeOptimized.main ijson_items (Some input)
                                                od fs0))
        = fs_lookup p (rmtree (out_dir od) fs0)
    end.
Proof.
    unfold RuntimeOptimized.main, bind, lift_result,
      RuntimeOptimized.process_data, RuntimeOptimized.init.
    cbn [RuntimeOptimized.finger_print_map RuntimeOptimized.output_file
         RuntimeOptimized.output_directory].
    rewrite mem_loop_steps by lia. fold (records input).
    destruct (mem_steps ijson_items (records input) []) as [fpm|e];
      [|reflexivity].
    intros p Hp.
    unfold RuntimeOptimized.write, bind, clean_and_create_directory, open_w.
    cbn [RuntimeOptimized.finger_print_map RuntimeOptimized.output_file
         RuntimeOptimized.output_directory RuntimeOptimized.input_file].
    fold (out_dir od).
    change (get_file_path (out_dir od) "duplicate_certificates"
                          JSONLINE_EXTENSION) with (out_file od).
    pose proof (@write_items_other (out_file od) input fpm 0
                  (fs_store (out_file od) [] (rmtree (out_dir od) fs0))
                  p Hp) as H.
    destruct (RuntimeOptimized.write_items (out_file od) input fpm 0
                (fs_store (out_file od) [] (rmtree (out_dir od) fs0)))
      as [fs' [u|e]]; simpl in *; rewrite H;
      apply fs_lookup_store_other; congruence.
Qed.

  (** The disk-resident script: the output directory is emptied first;
      after that only the output file and the temporary directory are
      written, and a run that completes has removed the temporary
      directory. *)
Lemma disk_main_shape :
    match MemoryScalable.main ijson_items scandir_order (Some input) od fs0
    with
    | (fs', r) =>
      (forall p,
          under (temp_dir_of od) p = None -> p <> out_file od ->
          fs_lookup p fs' = fs_lookup p (rmtree (out_dir od) fs0)) /\
      match r with
      | Ok _ =>
        forall p, under (temp_dir_of od) p <> None -> fs_lookup p fs' = None
      | Raise _ => True
      end
    end.
Proof.
    pose proof (disk_process_data_spec ijson_items input od fs0) as H.
    unfold MemoryScalable.main, bind.
    assert (Hfs1 : forall fs1 p,
               same_outside (temp_dir_of od)
                            (rmtree (temp_dir_of od)
                                    (rmtree (out_dir od) fs0)) fs1 ->
               under (temp_dir_of od) p = None ->
               fs_lookup p fs1 = fs_lookup p (rmtree (out_dir od) fs0)).
    { intros fs1 p Hs Hu. rewrite (Hs p Hu), fs_lookup_rmtree, Hu.
      reflexivity. }
    destruct (ledger_steps ijson_items input (records input) (0, []))
      as [[count led]|e].
    - destruct H as (fs1 & fpm & -> & _ & Ho).
      unfold MemoryScalable.merge_and_create_output, bind, open_w,
        clean_directory, ret.
      cbn [MemoryScalable.output_file MemoryScalable.temp_directory].
      pose proof (fun p => @copy_files_other (out_file od)
                    (MemoryScalable.glob scandir_order (temp_dir_of od)
                       JSONLINE_EXTENSION (fs_store (out_file od) [] fs1))
                    (fs_store (out_file od) [] fs1) p) as Hc.
      destruct (MemoryScalable.copy_files (out_file od)
                  (MemoryScalable.glob scandir_order (temp_dir_of od)
                     JSONLINE_EXTENSION (fs_store (out_file od) [] fs1))
                  (fs_store (out_file od) [] fs1)) as [fs2 [u|e]];
        simpl in Hc.
      + split.
        * intros p Hu Hp. rewrite fs_lookup_rmtree, Hu, (Hc p Hp).
          rewrite fs_lookup_store_other by congruence. now apply Hfs1.
        * intros p Hu. rewrite fs_lookup_rmtree.
          destruct (under (temp_dir_of od) p); congruence.
      + split; [|exact I].
        intros p Hu Hp. rewrite (Hc p Hp).
        rewrite fs_lookup_store_other by congruence. now apply Hfs1.
    - destruct H as (fs1 & -> & Ho). split; [|exact I].
      intros p Hu _. now apply Hfs1.
Qed.

End RunShape.

Lemma copy_files_keeps (outfile : string) (names : list string)
      (fs : filesystem) :
  fs_lookup outfile fs <> None ->
  fs_lookup outfile (fst (MemoryScalable.copy_files outfile names fs))
  <> None.
Proof.
  revert fs. induction names as [|n rest IH]; intros fs H; simpl.
  - assumption.
  - unfold bind, open_r.
    destruct (fs_lookup n fs) as [data|]; [|assumption].
    destruct (fs_lookup outfile fs) as [old|] eqn:E; [|simpl; congruence].
    apply IH. rewrite fs_lookup_store_same. discriminate.
Qed.

Section RunFiles.

Variable ijson_items : bytes -> option (list pyval).
Variable scandir_order : list string -> list string.

Variable input : bytes.
Variable od : string.
Variable fs0 : filesystem.

  (** Whether the input file exists or not, whatever it holds and
      however the run ends, neither script changes a file outside the
      output directory; when the input file does not exist, the scripts
      raise before anything is cleaned, and nothing changes at all. *)
Theorem run_confined_to_output_directory (content : option bytes)
          (p : string) :
    under (out_dir od) p = None ->
    (fs_lookup p (fst (RuntimeOptimized.main ijson_items content od fs0))
     = fs_lookup p fs0 /\
     fs_lookup p (fst (MemoryScalable.main ijson_items scandir_order
                                           content od fs0))
     = fs_lookup p fs0) /\
    match content with
    | None =>
      RuntimeOptimized.main ijson_items None od fs0
      = (fs0, Raise InputNotFound) /\
      MemoryScalable.main ijson_items scandir_order None od fs0
      = (fs0, Raise InputNotFound)
    | Some _ => True
    end.
Proof.
    intros Hu. destruct content as [data|];
      [split; [|exact I]|repeat split].
    assert (Hp : p <> out_file od).
    { intros ->. rewrite out_file_under_out_dir in Hu. discriminate. }
    assert (Hr : fs_lookup p (rmtree (out_dir od) fs0) = fs_lookup p fs0)
      by now rewrite fs_lookup_rmtree, Hu.
    split.
    - pose proof (mem_main_shape ijson_items data od fs0) as H.
      destruct (mem_steps ijson_items (records data) []) as [fpm|e].
      + now rewrite (H p Hp).
      + now rewrite H.
    - pose proof (disk_main_shape ijson_items scandir_order data od fs0)
        as H.
      destruct (MemoryScalable.main ijson_items scandir_order (Some data)
                                    od fs0) as [fs' r].
      destruct H as [H _]. simpl.
      rewrite H; [assumption| |assumption].
      now apply under_temp_under_out.
Qed.

  (** A run that completes leaves one file in the output directory, the
      output file: whatever the directory held before is gone, and so
      are the temporary files.  A disk-resident run that stops with an
      exception has emptied the directory all the same, up to its
      temporary files. *)
Theorem completed_run_leaves_only_output (p name : string) :
    under (out_dir od) p = Some name -> p <> out_file od ->
    match RuntimeOptimized.main ijson_items (Some input) od fs0 with
    | (fs', Ok _) =>
      fs_lookup p fs' = None /\ fs_lookup (out_file od) fs' <> None
    | (_, Raise _) => True
    end /\
    match MemoryScalable.main ijson_items scandir_order (Some input) od fs0
    with
    | (fs', Ok _) =>
      fs_lookup p fs' = None /\ fs_lookup (out_file od) fs' <> None
    | (fs', Raise _) =>
      match under (temp_dir_of od) p with
      | None => fs_lookup p fs' = None
      | Some _ => True
      end
    end.
Proof.
    intros Hu Hp.
    assert (Hr : fs_lookup p (rmtree (out_dir od) fs0) = None)
      by now rewrite fs_lookup_rmtree, Hu.
    split.
    - pose proof (mem_main_shape ijson_items input od fs0) as H.
      pose proof (mem_main_spec ijson_items input od fs0) as Hs.
      destruct (mem_steps ijson_items (records input) []) as [fpm|e];
        [|now rewrite H].
      specialize (H p Hp).
      destruct (mem_output input fpm) as [bs|e].
      + rewrite Hs in *. simpl in H. split; [congruence|].
        rewrite fs_lookup_store_same. discriminate.
      + destruct Hs as (fs' & ->). exact I.
    - pose proof (disk_main_shape ijson_items scandir_order input od fs0)
        as H.
      pose proof (disk_process_data_spec ijson_items input od fs0) as Hps.
      unfold MemoryScalable.main, bind in *.
      destruct (ledger_steps ijson_items input (records input) (0, []))
        as [lst|e0].
      + destruct Hps as (fs1 & fpm & Hp1 & _). rewrite Hp1 in *.
        unfold MemoryScalable.merge_and_create_output, bind, open_w,
          clean_directory, ret in *.
        cbn [MemoryScalable.output_file MemoryScalable.temp_directory] in *.
        pose proof (@copy_files_keeps (out_file od)
                      (MemoryScalable.glob scandir_order (temp_dir_of od)
                         JSONLINE_EXTENSION
                         (fs_store (out_file od) [] fs1))
                      (fs_store (out_file od) [] fs1)) as Hk.
        destruct (MemoryScalable.copy_files (out_file od)
                    (MemoryScalable.glob scandir_order (temp_dir_of od)
                       JSONLINE_EXTENSION (fs_store (out_file od) [] fs1))
                    (fs_store (out_file od) [] fs1)) as [fs2 [u|e]].
        * destruct H as [H1 H2]. split.
          -- destruct (under (temp_dir_of od) p) eqn:E.
             ++ apply H2. congruence.
             ++ rewrite H1; assumption.
          -- rewrite fs_lookup_rmtree, out_file_not_temp. apply Hk.
             rewrite fs_lookup_store_same. discriminate.
        * destruct H as [H1 _].
          destruct (under (temp_dir_of od) p) eqn:E; [exact I|].
          rewrite H1; assumption.
      + destruct Hps as (fs1 & Hp1 & _). rewrite Hp1 in *.
        destruct H as [H1 _].
        destruct (under (temp_dir_of od) p) eqn:E; [exact I|].
        rewrite H1; assumption.
Qed.

End RunFiles.

(** [sample_fs] has the file [notes.txt] outside the output directory
    [out]. *)
Lemma run_confined_witness :
  (fs_lookup "notes.txt"
     (fst (RuntimeOptimized.main Json.ijson_items (Some sample_abaa)
                                 "out" sample_fs))
   = fs_lookup "notes.txt" sample_fs /\
   fs_lookup "notes.txt"
     (fst (MemoryScalable.main Json.ijson_items (@rev string)
                               (Some sample_abaa) "out" sample_fs))
   = fs_lookup "notes.txt" sample_fs) /\
  True.
Proof.
  apply (@run_confined_to_output_directory Json.ijson_items (@rev string)
           "out" sample_fs (Some sample_abaa) "notes.txt").
  reflexivity.
Defined.

(** [sample_fs] has the file [out/old.txt] in the output directory. *)
Lemma completed_run_witness :
  match RuntimeOptimized.main Json.ijson_items (Some sample_abaa)
                              "out" sample_fs with
  | (fs', Ok _) =>
    fs_lookup "out/old.txt" fs' = None /\
    fs_lookup (out_file "out") fs' <> None
  | (_, Raise _) => True
  end /\
  match MemoryScalable.main Json.ijson_items (@rev string)
                            (Some sample_abaa) "out" sample_fs with
  | (fs', Ok _) =>
    fs_lookup "out/old.txt" fs' = None /\
    fs_lookup (out_file "out") fs' <> None
  | (fs', Raise _) =>
    match under (temp_dir_of "out") "out/old.txt" with
    | None => fs_lookup "out/old.txt" fs' = None
    | Some _ => True
    end
  end.
Proof.
  apply (@completed_run_leaves_only_output Json.ijson_items (@rev string)
           sample_abaa "out" sample_fs "out/old.txt" "old.txt").
  - reflexivity.
  - vm_compute. discriminate.
Defined.

(** ** Inputs without duplicates *)

Section NoDuplicates.

Variable ijson_items : bytes -> option (list pyval).

Lemma distinct_keys_facts (recs : list (nat * bytes)) :
    distinct_keys ijson_items recs = true ->
    (forall r, In r recs ->
               exists k, fingerprint_key ijson_items (snd r) = Ok k) /\
    (forall k, List.length (occurrences ijson_items k recs) <= 1).
Proof.
    induction recs as [|r rest IH]; simpl.
    - intros _. split; [tauto|]. intros k. simpl. lia.
    - destruct (fingerprint_key ijson_items (snd r)) as [kr|] eqn:Ek;
        [|discriminate].
      intros H. apply andb_true_iff in H. destruct H as [Hn Hd].
      apply negb_true_iff in Hn. destruct (IH Hd) as [H1 H2].
      split.
      + intros r' [<-|Hin]; [eauto|auto].
      + intros k. unfold occurrences in *. simpl.
        destruct (has_key ijson_items k r) eqn:Hk; [|apply H2].
        simpl. apply le_n_S.
        assert (E : filter (has_key ijson_items k) rest = []);
          [|now rewrite E].
        unfold has_key in Hk. rewrite Ek in Hk.
        destruct (filter (has_key ijson_items k) rest) as [|x l] eqn:Ef;
          [reflexivity|exfalso].
        assert (Hx : In x (filter (has_key ijson_items k) rest))
          by (rewrite Ef; now left).
        apply filter_In in Hx. destruct Hx as [Hx1 Hx2].
        rewrite <- (has_key_congr ijson_items x Hk) in Hx2.
        assert (Ht : existsb (has_key ijson_items kr) rest = true)
          by (apply existsb_exists; eauto).
        congruence.
Qed.

Variable input : bytes.

Lemma ledger_steps_distinct (recs : list (nat * bytes)) :
    (forall r, In r recs ->
               exists k, fingerprint_key ijson_items (snd r) = Ok k) ->
    (forall k, List.length (occurrences ijson_items k recs) <= 1) ->
    exists led, ledger_steps ijson_items input recs (0, []) = Ok (0, led).
Proof.
    induction recs as [|r recs IH] using rev_ind; intros Hk Ho.
    - exists []. reflexivity.
    - destruct IH as (led & Hs).
      { intros x Hx. apply Hk. apply in_or_app. now left. }
      { intros k. specialize (Ho k). rewrite occurrences_snoc in Ho.
        rewrite length_app in Ho. lia. }
      rewrite ledger_steps_app, Hs. simpl.
      destruct (Hk r) as (k & Ek); [apply in_or_app; right; now left|].
      unfold ledger_step. rewrite Ek.
      pose proof (ledger_steps_tracks Hs k) as Ht. simpl snd in *.
      specialize (Ho k). rewrite occurrences_snoc in Ho.
      unfold has_key in Ho. rewrite Ek, py_eqb_refl in Ho.
      rewrite length_app in Ho. simpl in Ho.
      destruct (occurrences ijson_items k recs) as [|r1 more];
        [|simpl in Ho; lia].
      rewrite Ht. simpl. eauto.
Qed.

Lemma mem_output_single (items : dict RuntimeOptimized.MapValue) :
    (forall k mv, In (k, mv) items ->
                  List.length (RuntimeOptimized.position_array mv) <= 1) ->
    mem_output input items = Ok [].
Proof.
    induction items as [|[k mv] rest IH]; intros H; simpl; [reflexivity|].
    pose proof (H k mv (or_introl eq_refl)) as Hl.
    destruct (1 <? List.length (RuntimeOptimized.position_array mv)) eqn:E.
    - apply Nat.ltb_lt in E. lia.
    - apply IH. intros k' mv' Hin. eapply H. right. eassumption.
Qed.

End NoDuplicates.

Section DistinctRun.

Variable ijson_items : bytes -> option (list pyval).
Variable scandir_order : list string -> list string.
Variable input : bytes.


End DistinctRun.


(** ** The files of the groups are numbered from 1 to the counter *)

Lemma groups_of_in (led : dict entry) (g : group) :
  In g (groups_of led) <-> exists k loc, In (k, (loc, Some g)) led.
Proof.
  unfold groups_of. rewrite in_flat_map. split.
  - intros ([k [loc [g'|]]] & Hin & Hg); simpl in Hg; [|tauto].
    destruct Hg as [->|[]]. eauto.
  - intros (k & loc & Hin). exists (k, (loc, Some g)).
    split; [assumption|now left].
Qed.

Lemma groups_index_nodup (led : dict entry) :
  dict_wf led ->
  (forall k1 l1 g1 k2 l2 g2,
      In (k1, (l1, Some g1)) led -> In (k2, (l2, Some g2)) led ->
      g_index g1 = g_index g2 -> py_eqb k1 k2 = true) ->
  NoDup (map g_index (groups_of led)).
Proof.
  induction led as [|[k [loc [g|]]] rest IH]; intros Hw Hd.
  - constructor.
  - destruct Hw as [Hn Hw].
    change (groups_of ((k, (loc, Some g)) :: rest))
      with (g :: groups_of rest).
    simpl. constructor.
    + intros Hin. apply in_map_iff in Hin. destruct Hin as (g' & Hi & Hin).
      apply groups_of_in in Hin. destruct Hin as (k' & l' & Hin).
      assert (E : py_eqb k k' = true).
      { apply (Hd k loc g k' l' g'); [now left|now right|auto]. }
      pose proof (dict_get_none_in Hn Hin) as E'.
      rewrite py_eqb_sym in E'. congruence.
    + apply IH; [assumption|].
      intros k1 l1 g1 k2 l2 g2 H1 H2. apply (Hd k1 l1 g1 k2 l2 g2); now right.
  - destruct Hw as [Hn Hw].
    change (groups_of ((k, (loc, None)) :: rest)) with (groups_of rest).
    apply IH; [assumption|].
    intros k1 l1 g1 k2 l2 g2 H1 H2. apply (Hd k1 l1 g1 k2 l2 g2); now right.
Qed.

Lemma groups_index_perm (count : nat) (led : dict entry) :
  ledger_ok (count, led) ->
  Permutation (map g_index (groups_of led)) (seq 1 count).
Proof.
  intros (Hw & Hb & Hd & Hs). simpl in *.
  apply NoDup_Permutation.
  - now apply groups_index_nodup.
  - apply seq_NoDup.
  - intros j. rewrite in_seq. split.
    + intros Hin. apply in_map_iff in Hin. destruct Hin as (g & <- & Hin).
      apply groups_of_in in Hin. destruct Hin as (k & loc & Hin).
      destruct (Hb _ _ _ Hin) as [H _]. lia.
    + intros Hj. destruct (Hs j) as (k & loc & g & Hin & <-); [lia|].
      apply in_map. apply groups_of_in. eauto.
Qed.

Lemma group_with_index_unique (count : nat) (led : dict entry) (g : group) :
  ledger_ok (count, led) -> In g (groups_of led) ->
  group_with_index led (g_index g) = Some g.
Proof.
  intros (Hw & _ & Hd & _) Hin. simpl in *.
  apply groups_of_in in Hin. destruct Hin as (k & loc & Hin).
  destruct (group_with_index_some Hin eq_refl) as (g' & Eg).
  destruct (group_with_index_in Eg) as (Hi & k' & loc' & Hin').
  pose proof (Hd _ _ _ _ _ _ Hin Hin' (eq_sym Hi)) as E.
  pose proof (dict_wf_in Hw Hin) as H1.
  pose proof (dict_wf_in Hw Hin') as H2.
  rewrite (dict_get_congr led E) in H1. congruence.
Qed.

(** Listed in any order, the files are those of the groups. *)
Lemma groups_at_perm (count : nat) (led : dict entry) (js : list nat) :
  ledger_ok (count, led) -> Permutation (seq 1 count) js ->
  Permutation (groups_at led js) (groups_of led).
Proof.
  intros Hok Hp. unfold groups_at.
  set (f := fun j => match group_with_index led j with
                     | Some g => [g]
                     | None => []
                     end).
  assert (Hf : forall l, incl l (groups_of led) ->
                         flat_map f (map g_index l) = l).
  { induction l as [|g l IH]; intros Hi; [reflexivity|].
    simpl. unfold f at 1.
    rewrite (group_with_index_unique Hok (Hi g (or_introl eq_refl))).
    simpl. rewrite IH; [reflexivity|].
    intros x Hx. apply Hi. now right. }
  apply Permutation_trans
    with (flat_map f (map g_index (groups_of led)));
    [|rewrite (Hf (groups_of led) (incl_refl _)); apply Permutation_refl].
  apply Permutation_flat_map.
  apply Permutation_sym. eapply Permutation_trans; [|exact Hp].
  now apply groups_index_perm.
Qed.

Lemma existing_entries_groups (temp_dir : string) (fs : filesystem)
      (fpm : dict MemoryScalable.MapValue) (led : dict entry) :
  dict_rel (entry_agrees temp_dir fs) fpm led ->
  List.length (filter is_existing fpm) = List.length (groups_of led).
Proof.
  unfold dict_rel.
  induction 1 as [|[k mv] [k' [loc e]] fpm led [_ (_ & _ & Ha)] _ IH];
    [reflexivity|].
  cbn [snd] in Ha. cbn [filter]. unfold is_existing at 1. cbn [snd].
  destruct e as [g|]; destruct Ha as (Ht & _); rewrite Ht.
  - change (groups_of ((k', (loc, Some g)) :: led)) with (g :: groups_of led).
    cbn [List.length]. now rewrite IH.
  - change (groups_of ((k', (loc, None)) :: led)) with (groups_of led).
    exact IH.
Qed.

Section ScanIndex.

Variable ijson_items : bytes -> option (list pyval).
Variable input : bytes.

  (** After [process_data] of the disk-resident script the temporary
      directory holds one file for every index entry tagged
      [TAG_EXISTING], named [1.jsonline] to [n.jsonline].  An entry is
      tagged [TAG_NEW] when its fingerprint has occurred once, and
      [TAG_EXISTING] when it has occurred at least twice; its file then
      holds one line, made of the header with the key of the second
      occurrence, the first record as it was read again from the input,
      and the later records as the scan read them, and [end_offset] is
      the length of that file. *)
Theorem scan_tags_and_files (od : string) (fs0 : filesystem) :
    match MemoryScalable.process_data ijson_items MemoryScalable.init
                                      (Some input) od fs0 with
    | (fs', Ok self) =>
      let fpm := MemoryScalable.finger_print_map self in
      let n := List.length (filter is_existing fpm) in
      MemoryScalable.listdir (temp_dir_of od) fs' = temp_names n /\
      forall k,
        match dict_get k fpm with
        | None => occurrences ijson_items k (records input) = []
        | Some mv =>
          match MemoryScalable.tag mv with
          | MemoryScalable.TAG_NEW =>
            exists r1, occurrences ijson_items k (records input) = [r1]
          | MemoryScalable.TAG_EXISTING =>
            exists r1 r2 more j key p1 ps content,
              occurrences ijson_items k (records input) = r1 :: r2 :: more /\
              1 <= j <= n /\
              MemoryScalable.path mv = temp_path (temp_dir_of od) j /\
              fingerprint_key ijson_items (snd r2) = Ok key /\
              reread_piece input (location r1) p1 /\
              Forall2 line_piece (r2 :: more) ps /\
              utf8_encode (group_line key (p1 :: ps)) = Some content /\
              fs_lookup (MemoryScalable.path mv) fs' = Some content /\
              MemoryScalable.end_offset mv = Some (List.length content)
          end
        end
    | (_, Raise _) => True
    end.
Proof.
    pose proof (disk_process_data_spec ijson_items input od fs0) as H.
    destruct (ledger_steps ijson_items input (records input) (0, []))
      as [[count led]|e] eqn:Es.
    - destruct H as (fs' & fpm & -> & (_ & Hrel & Hls) & _).
      cbn [MemoryScalable.finger_print_map fst snd] in *.
      pose proof (ledger_steps_ok ledger_ok_init Es) as Hok.
      assert (Hn : List.length (filter is_existing fpm) = count).
      { rewrite (existing_entries_groups Hrel).
        rewrite <- (length_map g_index).
        rewrite (Permutation_length (groups_index_perm Hok)).
        apply length_seq. }
      rewrite Hn. split; [assumption|].
      intros k. pose proof (ledger_steps_tracks Es k) as Ht. simpl in Ht.
      destruct (dict_get k fpm) as [mv|] eqn:Em.
      + destruct (dict_rel_get_some_l Hrel Em)
          as ([loc ge] & Eg & _ & _ & Ha). cbn [snd] in Ha.
        destruct (occurrences ijson_items k (records input))
          as [|r1 [|r2 more]].
        * congruence.
        * rewrite Eg in Ht. inversion Ht; subst.
          destruct Ha as (-> & _). eauto.
        * destruct Ht as (g & p1 & ps & Hg & Hk & Hp & H1 & H2).
          rewrite Eg in Hg. inversion Hg; subst.
          destruct Ha as (-> & Hpath & content & Hc & Hf & He).
          destruct (dict_get_in Eg) as (k0 & _ & Hin).
          destruct Hok as (_ & Hb & _). destruct (Hb _ _ _ Hin) as [Hj _].
          simpl in Hj.
          exists r1, r2, more, (g_index g), (g_key g), p1, ps, content.
          rewrite Hpath, <- Hp. repeat split; try assumption; lia.
      + destruct (occurrences ijson_items k (records input))
          as [|r1 [|r2 more]]; [reflexivity| |].
        * destruct (dict_rel_get_some Hrel Ht) as (mv & Hm & _). congruence.
        * destruct Ht as (g & p1 & ps & Hg & _).
          destruct (dict_rel_get_some Hrel Hg) as (mv & Hm & _). congruence.
    - destruct H as (fs' & -> & _). exact I.
Qed.

End ScanIndex.

(** ** The memory-resident index accumulates *)

Section Accumulate.

Variable ijson_items : bytes -> option (list pyval).

Lemma mem_steps_accumulate (recs : list (nat * bytes))
        (fpm0 fpm : dict RuntimeOptimized.MapValue) (k : pykey) :
    mem_steps ijson_items recs fpm0 = Ok fpm ->
    positions_of k fpm
    = positions_of k fpm0 ++ map location (occurrences ijson_items k recs).
Proof.
    revert fpm0. induction recs as [|r recs IH]; intros fpm0; simpl.
    - intros H; inversion H; subst. now rewrite app_nil_r.
    - destruct (mem_step ijson_items fpm0 r) as [fpm1|] eqn:E1;
        [|discriminate].
      intros H. rewrite (IH _ H). clear IH H.
      unfold mem_step in E1. unfold occurrences, has_key. simpl.
      destruct (fingerprint_key ijson_items (snd r)) as [kr|];
        [|discriminate].
      replace (fst r + List.length (snd r) - fst r)
        with (List.length (snd r)) in E1 by lia.
      fold (location r) in E1.
      destruct (py_eqb kr k) eqn:Ek.
      + assert (Hp : positions_of k fpm1
                     = positions_of k fpm0 ++ [location r]).
        { unfold positions_of.
          rewrite <- (dict_get_congr fpm0 Ek).
          destruct (dict_get kr fpm0) as [mv|]; inversion E1; subst;
            now rewrite (dict_get_set_same _ _ Ek). }
        rewrite Hp, <- app_assoc. reflexivity.
      + f_equal. unfold positions_of.
        destruct (dict_get kr fpm0) as [mv|]; inversion E1; subst;
          now rewrite (dict_get_set_other _ _ Ek).
Qed.

  (** [process_data] of the memory-resident script does not reset the
      index: called on an instance that has an index already, it adds
      the positions of the records of the new input to those the index
      holds.  Called a second time on the same input, it lists every
      position twice, so that every fingerprint counts as duplicated. *)
Theorem process_data_accumulates
          (self : RuntimeOptimized.CertificateDuplicateIdentifier)
          (input : bytes) :
    match RuntimeOptimized.process_data ijson_items self (Some input) with
    | Ok self' =>
      RuntimeOptimized.input_file self' = Some input /\
      forall k,
        positions_of k (RuntimeOptimized.finger_print_map self')
        = positions_of k (RuntimeOptimized.finger_print_map self)
          ++ map location (occurrences ijson_items k (records input))
    | Raise _ => True
    end.
Proof.
    unfold RuntimeOptimized.process_data.
    rewrite mem_loop_steps by lia. fold (records input).
    destruct (mem_steps ijson_items (records input)
                (RuntimeOptimized.finger_print_map self)) as [fpm|e] eqn:E;
      [|exact I].
    split; [reflexivity|]. intros k.
    cbn [RuntimeOptimized.finger_print_map].
    now apply mem_steps_accumulate.
Qed.

End Accumulate.

(** ** [merge_and_create_output] on any file system *)

Lemma in_fs_lookup (fs : filesystem) (q : string) (e : bytes) :
  In (q, e) fs -> fs_lookup q fs <> None.
Proof.
  induction fs as [|[q0 e0] r IH]; simpl; [tauto|].
  intros [H|H].
  - inversion H; subst. rewrite String.eqb_refl. discriminate.
  - destruct (String.eqb q0 q); [discriminate|auto].
Qed.

Lemma listdir_lookup (dir name : string) (fs : filesystem) :
  In name (MemoryScalable.listdir dir fs) ->
  fs_lookup (dir ++ "/" ++ name) fs <> None.
Proof.
  unfold MemoryScalable.listdir. intros H. apply in_flat_map in H.
  destruct H as ([q e] & Hin & Hn). simpl in Hn.
  destruct (under dir q) as [n|] eqn:E; [|destruct Hn].
  destruct (has_slash n); [destruct Hn|]. destruct Hn as [->|[]].
  unfold under in E. apply strip_prefix_eq in E.
  rewrite string_app_assoc in E. rewrite <- E.
  eapply in_fs_lookup; eauto.
Qed.

Lemma copy_files_general (outfile : string) (names : list string)
      (fs : filesystem) (old : bytes) :
  (forall n, In n names -> n <> outfile /\ fs_lookup n fs <> None) ->
  fs_lookup outfile fs = Some old ->
  MemoryScalable.copy_files outfile names fs
  = (fs_store outfile (old ++ List.concat (map (content_of fs) names)) fs,
     Ok tt).
Proof.
  revert fs old. induction names as [|n rest IH]; intros fs old Hn Ho; simpl.
  - unfold ret. rewrite app_nil_r. f_equal.
    symmetry. now apply fs_store_same_content.
  - destruct (Hn n (or_introl eq_refl)) as [Hne Hex].
    unfold bind, open_r, content_of at 1.
    destruct (fs_lookup n fs) as [data|] eqn:En; [|congruence].
    rewrite Ho.
    rewrite IH with (old := old ++ data).
    + rewrite fs_store_store, <- app_assoc. do 5 f_equal.
      apply map_ext_in. intros m Hm. unfold content_of.
      rewrite fs_lookup_store_other; [reflexivity|].
      destruct (Hn m (or_intror Hm)) as [Hm' _]. congruence.
    + intros m Hm. destruct (Hn m (or_intror Hm)) as [Hm1 Hm2].
      split; [assumption|].
      rewrite fs_lookup_store_other by congruence. assumption.
    + apply fs_lookup_store_same.
Qed.

Lemma fs_lookup_in (fs : filesystem) (p : string) (d : bytes) :
  fs_lookup p fs = Some d -> In (p, d) fs.
Proof.
  induction fs as [|[q e] r IH]; simpl; [discriminate|].
  destruct (String.eqb q p) eqn:E.
  - apply String.eqb_eq in E. intros H. inversion H; subst. now left.
  - intros H. right. now apply IH.
Qed.

Lemma flat_directory_lookup (dir p name : string) (d : bytes)
      (fs : filesystem) :
  flat_directory dir fs = true -> fs_lookup p fs = Some d ->
  under dir p = Some name -> has_slash name = false.
Proof.
  unfold flat_directory. intros Hf Hl Hu.
  rewrite forallb_forall in Hf. apply fs_lookup_in in Hl.
  specialize (Hf _ Hl). simpl in Hf. rewrite Hu in Hf.
  now apply negb_true_iff in Hf.
Qed.

Lemma under_file (dir name : string) :
  under dir (dir ++ "/" ++ name) = Some name.
Proof.
  unfold under. rewrite <- string_app_assoc. apply strip_prefix_app.
Qed.

(** In a directory without subdirectory the listing holds the names of the
    files of the directory. *)
Lemma listdir_in_iff (dir name : string) (fs : filesystem) :
  flat_directory dir fs = true ->
  In name (MemoryScalable.listdir dir fs)
  <-> fs_lookup (dir ++ "/" ++ name) fs <> None.
Proof.
  intros Hf. split; [apply listdir_lookup|].
  intros H. destruct (fs_lookup (dir ++ "/" ++ name) fs) as [d|] eqn:E;
    [|congruence].
  eapply lookup_in_listdir; [exact E|apply under_file|].
  eapply flat_directory_lookup; [exact Hf|exact E|apply under_file].
Qed.

(** A file system that holds each path once lists each name once. *)
Lemma listdir_nodup (dir : string) (fs : filesystem) :
  NoDup (map fst fs) -> NoDup (MemoryScalable.listdir dir fs).
Proof.
  induction fs as [|[q e] r IH]; simpl; intros H; [constructor|].
  inversion H as [|? ? Hq Hr]; subst.
  change (MemoryScalable.listdir dir ((q, e) :: r))
    with ((match under dir q with
           | Some name => if has_slash name then [] else [name]
           | None => []
           end) ++ MemoryScalable.listdir dir r).
  destruct (under dir q) as [name|] eqn:Eu; [|now apply IH].
  destruct (has_slash name); [now apply IH|].
  simpl. constructor; [|now apply IH].
  intros Hin. apply listdir_lookup in Hin. apply Hq.
  unfold under in Eu. apply strip_prefix_eq in Eu.
  rewrite string_app_assoc in Eu. subst q.
  destruct (fs_lookup (dir ++ "/" ++ name) r) as [d|] eqn:E; [|congruence].
  apply fs_lookup_in in E. apply in_map_iff. now exists (dir ++ "/" ++ name, d)%string.
Qed.

(** ['*' + extension] matches the names that end with the extension and
    do not start with a dot. *)
Lemma fnmatch_star_iff (extension name : string) :
  MemoryScalable.fnmatch_star extension name = true
  <-> ends_with extension name = true /\
      forall rest, name <> String "." rest.
Proof.
  unfold MemoryScalable.fnmatch_star. rewrite andb_true_iff.
  split; intros [He Hd]; (split; [assumption|]).
  - intros rest ->. discriminate.
  - destruct name as [|a rest]; [reflexivity|].
    destruct (Ascii.eqb a ".") eqn:E.
    + apply Ascii.eqb_eq in E. subst a. now contradiction (Hd rest).
    + destruct a as [[] [] [] [] [] [] [] []]; try reflexivity.
      discriminate.
Qed.

Section Merge.

Variable ijson_items : bytes -> option (list pyval).
Variable scandir_order : list string -> list string.

  (** What [merge_and_create_output] does with the files that [glob]
      hands out. *)
Lemma merge_and_create_output_glob
        (self : MemoryScalable.CertificateDuplicateIdentifier)
        (clear_temp : bool) (fs : filesystem) :
    (forall names, Permutation (scandir_order names) names) ->
    under (MemoryScalable.temp_directory self)
          (MemoryScalable.output_file self) = None ->
    let files :=
      MemoryScalable.glob scandir_order (MemoryScalable.temp_directory self)
                          JSONLINE_EXTENSION fs in
    let merged :=
      fs_store (MemoryScalable.output_file self)
               (List.concat (map (content_of fs) files)) fs in
    MemoryScalable.merge_and_create_output scandir_order self clear_temp fs
    = (if clear_temp
       then rmtree (MemoryScalable.temp_directory self) merged
       else merged, Ok tt).
Proof.
    intros Hperm Hu files merged.
    unfold MemoryScalable.merge_and_create_output, bind, open_w.
    set (out := MemoryScalable.output_file self) in *.
    set (td := MemoryScalable.temp_directory self) in *.
    assert (Hg : MemoryScalable.glob scandir_order td JSONLINE_EXTENSION
                   (fs_store out [] fs) = files).
    { unfold files, MemoryScalable.glob.
      now rewrite listdir_store_outside. }
    rewrite Hg.
    rewrite (@copy_files_general out files (fs_store out [] fs) []).
    - rewrite fs_store_store. simpl app.
      assert (Hm : map (content_of (fs_store out [] fs)) files
                   = map (content_of fs) files).
      { apply map_ext_in. intros n Hn. unfold content_of.
        rewrite fs_lookup_store_other; [reflexivity|].
        intros ->. unfold files, MemoryScalable.glob in Hn.
        apply in_map_iff in Hn. destruct Hn as (name & <- & _).
        unfold under in Hu. rewrite <- string_app_assoc in Hu.
        rewrite strip_prefix_app in Hu. discriminate. }
      rewrite Hm. fold merged.
      destruct clear_temp; reflexivity.
    - intros n Hn. unfold files, MemoryScalable.glob in Hn.
      apply in_map_iff in Hn. destruct Hn as (name & <- & Hin).
      apply filter_In in Hin. destruct Hin as [Hin _].
      apply (Permutation_in _ (Hperm _)) in Hin.
      split.
      + intros E. unfold under in Hu. rewrite <- E in Hu.
        rewrite <- string_app_assoc in Hu.
        rewrite strip_prefix_app in Hu. discriminate.
      + rewrite fs_lookup_store_other.
        * now apply listdir_lookup.
        * intros E. unfold under in Hu. rewrite E in Hu.
          rewrite <- string_app_assoc in Hu.
          rewrite strip_prefix_app in Hu. discriminate.
    - apply fs_lookup_store_same.
Qed.

  (** [merge_and_create_output], on an instance whose temporary directory
      has no wildcard character in its name and does not hold the output
      file, in a file system that holds each path once and in which the
      temporary directory has no subdirectory (directories are not
      represented: that of the output file is taken to exist).  No
      exception is raised.  The output file is created or truncated and
      receives the contents of files of the temporary directory, one
      after the other: of every file there is whose name ends with
      [.jsonline] and does not start with a dot, of each once, and of no
      other file; the order is that of the listing and is not known.
      With [clear_temp] the temporary directory is then emptied, without
      it its files stay.  No other file changes. *)
Theorem merge_and_create_output_spec
          (self : MemoryScalable.CertificateDuplicateIdentifier)
          (clear_temp : bool) (fs : filesystem) :
    (forall names, Permutation (scandir_order names) names) ->
    wildcard_free (MemoryScalable.temp_directory self) = true ->
    under (MemoryScalable.temp_directory self)
          (MemoryScalable.output_file self) = None ->
    flat_directory (MemoryScalable.temp_directory self) fs = true ->
    NoDup (map fst fs) ->
    exists names : list string,
      NoDup names /\
      (forall name,
          In name names
          <-> fs_lookup (MemoryScalable.temp_directory self ++ "/" ++ name) fs
              <> None /\
              ends_with ".jsonline" name = true /\
              forall rest, name <> String "." rest) /\
      let merged :=
        fs_store (MemoryScalable.output_file self)
                 (List.concat
                    (map (fun name =>
                            content_of fs (MemoryScalable.temp_directory self
                                           ++ "/" ++ name))
                         names)) fs in
      MemoryScalable.merge_and_create_output scandir_order self clear_temp fs
      = (if clear_temp
         then rmtree (MemoryScalable.temp_directory self) merged
         else merged, Ok tt).
Proof.
    intros Hperm _ Hu Hflat Hnd.
    set (td := MemoryScalable.temp_directory self) in *.
    exists (filter (MemoryScalable.fnmatch_star JSONLINE_EXTENSION)
                   (scandir_order (MemoryScalable.listdir td fs))).
    split; [|split].
    - apply NoDup_filter.
      eapply Permutation_NoDup;
        [apply Permutation_sym, Hperm|now apply listdir_nodup].
    - intros name. rewrite filter_In, fnmatch_star_iff.
      rewrite <- (listdir_in_iff name Hflat).
      split; intros [Hin Hm]; (split; [|exact Hm]).
      + exact (Permutation_in _ (Hperm _) Hin).
      + exact (Permutation_in _ (Permutation_sym (Hperm _)) Hin).
    - cbv zeta.
      rewrite (@merge_and_create_output_glob self clear_temp fs Hperm Hu).
      unfold MemoryScalable.glob. fold td. rewrite map_map. reflexivity.
Qed.

End Merge.

(** In [sample_temp_fs] the temporary directory holds two group files and
    a file of another kind; the directory is listed in reverse order of
    creation, and the temporary files are kept. *)
Lemma merge_and_create_output_witness :
  exists names : list string,
    NoDup names /\
    (forall name,
        In name names
        <-> fs_lookup ("out/temp" ++ "/" ++ name) sample_temp_fs <> None /\
            ends_with ".jsonline" name = true /\
            forall rest, name <> String "." rest) /\
    MemoryScalable.merge_and_create_output (@rev string) sample_self false
                                           sample_temp_fs
    = (fs_store "out/duplicate_certificates.jsonline"
                (List.concat
                   (map (fun name =>
                           content_of sample_temp_fs
                                      ("out/temp" ++ "/" ++ name))
                        names)) sample_temp_fs, Ok tt).
Proof.
  apply (@merge_and_create_output_spec (@rev string) sample_self false
           sample_temp_fs).
  - intros names. apply Permutation_sym, Permutation_rev.
  - reflexivity.
  - reflexivity.
  - reflexivity.
  - simpl. repeat constructor; simpl; intuition discriminate.
Defined.

(** ** The index lists the fingerprints in order of first occurrence *)

Lemma dict_get_existsb (V : Type) (d : dict V) (k : pykey) :
  existsb (fun k' => py_eqb k' k) (map fst d)
  = match dict_get k d with Some _ => true | None => false end.
Proof.
  induction d as [|[k0 v0] r IH]; simpl; [reflexivity|].
  destruct (py_eqb k0 k); simpl; [reflexivity|assumption].
Qed.

Section FirstSeen.

Variable ijson_items : bytes -> option (list pyval).

Lemma mem_steps_keys (recs : list (nat * bytes))
        (fpm0 fpm : dict RuntimeOptimized.MapValue) :
    mem_steps ijson_items recs fpm0 = Ok fpm ->
    map fst fpm
    = map fst fpm0 ++ first_keys ijson_items (map fst fpm0) recs.
Proof.
    revert fpm0. induction recs as [|r recs IH]; intros fpm0; simpl.
    - intros H; inversion H; subst. now rewrite app_nil_r.
    - destruct (mem_step ijson_items fpm0 r) as [fpm1|] eqn:E1;
        [|discriminate].
      intros H. rewrite (IH _ H). clear IH H.
      unfold mem_step in E1.
      destruct (fingerprint_key ijson_items (snd r)) as [kr|];
        [|discriminate].
      rewrite dict_get_existsb.
      destruct (dict_get kr fpm0) as [mv|] eqn:Eg; inversion E1; subst.
      + now rewrite (dict_set_keys_present _ Eg).
      + rewrite (dict_set_absent _ Eg), map_app. simpl.
        now rewrite <- app_assoc.
Qed.

Lemma ledger_steps_keys (input : bytes) (recs : list (nat * bytes))
        (lst0 lst : nat * dict entry) :
    ledger_steps ijson_items input recs lst0 = Ok lst ->
    map fst (snd lst)
    = map fst (snd lst0)
      ++ first_keys ijson_items (map fst (snd lst0)) recs.
Proof.
    revert lst0. induction recs as [|r recs IH]; intros lst0; simpl.
    - intros H; inversion H; subst. now rewrite app_nil_r.
    - destruct (ledger_step ijson_items input lst0 r) as [lst1|] eqn:E1;
        [|discriminate].
      intros H. rewrite (IH _ H). clear IH H.
      unfold ledger_step in E1.
      destruct (fingerprint_key ijson_items (snd r)) as [kr|];
        [|discriminate].
      rewrite dict_get_existsb.
      destruct (dict_get kr (snd lst0)) as [[loc g]|] eqn:Eg.
      + destruct (utf8_decode (snd r)); [|discriminate].
        destruct g as [g|].
        * destruct (encodable _); inversion E1; subst. simpl.
          now rewrite (dict_set_keys_present _ Eg).
        * destruct (text_read input (fst loc) (snd loc)); [|discriminate].
          destruct (encodable _); inversion E1; subst. simpl.
          now rewrite (dict_set_keys_present _ Eg).
      + inversion E1; subst. simpl.
        rewrite (dict_set_absent _ Eg), map_app. simpl.
        now rewrite <- app_assoc.
Qed.

Lemma dict_rel_keys (A B : Type) (P : A -> B -> Prop)
        (d1 : dict A) (d2 : dict B) :
    dict_rel P d1 d2 -> map fst d1 = map fst d2.
Proof.
    unfold dict_rel. induction 1 as [|x y d1 d2 [Hk _] _ IH];
      [reflexivity|].
    simpl. now rewrite Hk, IH.
Qed.

Lemma dict_rel_wf (A B : Type) (P : A -> B -> Prop)
        (d1 : dict A) (d2 : dict B) :
    dict_rel P d1 d2 -> dict_wf d2 -> dict_wf d1.
Proof.
    intros H. pose proof H as H0. unfold dict_rel in H0.
    induction H0 as [|[k1 a] [k2 b] d1 d2 [Hk _] HF IH]; [auto|].
    simpl in Hk. subst k2. intros [Hn Hw]. split.
    - eapply dict_rel_get_none; [exact HF|assumption].
    - apply IH; assumption.
Qed.

Variable input : bytes.

  (** The index of either script lists every fingerprint once, in the
      order in which the fingerprints first occur in the input, each
      under the key it was first seen with. *)
Theorem index_keys_first_seen :
    match RuntimeOptimized.process_data ijson_items RuntimeOptimized.init
                                        (Some input) with
    | Ok self =>
      map fst (RuntimeOptimized.finger_print_map self)
      = first_keys ijson_items [] (records input) /\
      dict_wf (RuntimeOptimized.finger_print_map self)
    | Raise _ => True
    end /\
    forall od fs0,
      match MemoryScalable.process_data ijson_items MemoryScalable.init
                                        (Some input) od fs0 with
      | (_, Ok self) =>
        map fst (MemoryScalable.finger_print_map self)
        = first_keys ijson_items [] (records input) /\
        dict_wf (MemoryScalable.finger_print_map self)
      | (_, Raise _) => True
      end.
Proof.
    split.
    - unfold RuntimeOptimized.process_data, RuntimeOptimized.init.
      cbn [RuntimeOptimized.finger_print_map].
      rewrite mem_loop_steps by lia. fold (records input).
      destruct (mem_steps ijson_items (records input) []) as [fpm|e] eqn:E;
        [|exact I].
      cbn [RuntimeOptimized.finger_print_map].
      split; [apply (mem_steps_keys E)|apply (index_steps_tracks E)].
    - intros od fs0.
      pose proof (disk_process_data_spec ijson_items input od fs0) as H.
      destruct (ledger_steps ijson_items input (records input) (0, []))
        as [[count led]|e] eqn:Es.
      + destruct H as (fs' & fpm & -> & (_ & Hrel & _) & _).
        cbn [MemoryScalable.finger_print_map fst snd] in *.
        rewrite (dict_rel_keys Hrel). split; [apply (ledger_steps_keys Es)|].
        apply (dict_rel_wf Hrel).
        apply (ledger_steps_ok ledger_ok_init Es).
      + destruct H as (fs' & -> & _). exact I.
Qed.

End FirstSeen.

(** ** Plain inputs: the output, line by line *)

Lemma ends_well_end (t : text) :
  ends_well t = true -> exists a c, t = a ++ [c] /\ (c =? 44)%N = false.
Proof.
  unfold ends_well. destruct (rev t) as [|c l] eqn:E; [discriminate|].
  intros H. apply negb_true_iff in H. exists (rev l), c. split; [|assumption].
  rewrite <- (rev_involutive t), E. reflexivity.
Qed.

Lemma Forall2_functional (A B : Type) (R : A -> B -> Prop)
      (l : list A) (m1 m2 : list B) :
  (forall a b1 b2, R a b1 -> R a b2 -> b1 = b2) ->
  Forall2 R l m1 -> Forall2 R l m2 -> m1 = m2.
Proof.
  intros HR H1. revert m2. induction H1 as [|a b l m1 Hab _ IH]; intros m2 H2.
  - now inversion H2.
  - inversion H2; subst. f_equal; [eapply HR; eauto|auto].
Qed.

Section PlainOutput.

Variable ijson_items : bytes -> option (list pyval).
Variable input : bytes.
Hypothesis Hplain : plain input = true.
Hypothesis Hok :
    forallb (plain_record_ok ijson_items) (records input) = true.

Lemma plain_record_facts (r : nat * bytes) :
    In r (records input) ->
    line_of input r /\
    (exists s, fingerprint_key ijson_items (snd r) = Ok (KStr s) /\
               ascii_text s) /\
    exists a c, record_text r = a ++ [c] /\ (c =? 44)%N = false.
Proof.
    intros Hin. split.
    - pose proof (records_lines input) as H. rewrite Forall_forall in H.
      now apply H.
    - rewrite forallb_forall in Hok. specialize (Hok r Hin).
      unfold plain_record_ok in Hok.
      destruct (fingerprint_key ijson_items (snd r)) as [[| | | |s]|];
        try discriminate.
      apply andb_true_iff in Hok. destruct Hok as [Hs He]. split.
      + exists s. split; [reflexivity|now apply ascii_check].
      + now apply ends_well_end.
Qed.

Lemma plain_keys_total (r : nat * bytes) :
    In r (records input) ->
    exists k, fingerprint_key ijson_items (snd r) = Ok k.
Proof.
    intros Hin. destruct (plain_record_facts Hin) as (_ & (s & Hs & _) & _).
    eauto.
Qed.

Lemma read_positions_lines (occ : list (nat * bytes)) (acc : text) :
    incl occ (records input) ->
    RuntimeOptimized.read_positions input (map location occ) acc
    = Ok (acc ++ List.concat (map (fun p => p ++ comma)
                                  (map record_text occ))).
Proof.
    revert acc. induction occ as [|r occ IH]; intros acc Hi.
    - simpl. now rewrite app_nil_r.
    - destruct (plain_record_facts (Hi r (or_introl eq_refl))) as [Hl _].
      cbn [map RuntimeOptimized.read_positions location fst snd].
      rewrite (plain_text_read Hplain Hl).
      rewrite IH by (intros x Hx; apply Hi; now right).
      unfold record_text at 2.
      rewrite (plain_verbatim (plain_record Hplain Hl)).
      cbn [List.concat]. repeat rewrite <- app_assoc. reflexivity.
Qed.

  (** The line of a key with occurrences: both the text the
      memory-resident script builds for it and its encoding. *)
Lemma plain_group (k : pykey) (r1 : nat * bytes)
        (more : list (nat * bytes)) :
    occurrences ijson_items k (records input) = r1 :: more ->
    RuntimeOptimized.group_text input k
      (RuntimeOptimized.mkMapValue (map location (r1 :: more)))
    = Ok (group_line k (map record_text (r1 :: more))) /\
    exists line,
      utf8_encode (group_line k (map record_text (r1 :: more))) = Some line /\
      line_for ijson_items (records input) k line.
Proof.
    intros Eo.
    assert (Hi : incl (r1 :: more) (records input)).
    { rewrite <- Eo. apply occurrences_incl. }
    assert (Hk : exists s, k = KStr s /\ ascii_text s).
    { destruct (plain_record_facts (Hi r1 (or_introl eq_refl)))
        as (_ & (s & Hs & Ha) & _).
      assert (Hh : has_key ijson_items k r1 = true).
      { assert (Hin1 : In r1 (occurrences ijson_items k (records input)))
          by (rewrite Eo; now left).
        apply filter_In in Hin1. tauto. }
      unfold has_key in Hh. rewrite Hs in Hh. apply py_eqb_str in Hh.
      eauto. }
    destruct Hk as (s & -> & Hs). split.
    - unfold RuntimeOptimized.group_text.
      cbn [RuntimeOptimized.position_array].
      rewrite read_positions_lines by assumption.
      rewrite rstrip_comma_join.
      + unfold group_line. now rewrite <- app_assoc.
      + discriminate.
      + apply Forall_forall. intros p Hp. apply in_map_iff in Hp.
        destruct Hp as (r & <- & Hr).
        now destruct (plain_record_facts (Hi r Hr)) as (_ & _ & H).
    - assert (Ha : ascii_text (group_line (KStr s)
                                 (map record_text (r1 :: more)))).
      { apply group_line_ascii; [assumption|].
        apply Forall_forall. intros p Hp. apply in_map_iff in Hp.
        destruct Hp as (r & <- & Hr).
        destruct (plain_record_facts (Hi r Hr)) as (Hl & _).
        eapply Forall_impl; [|apply (record_text_chars Hplain Hl)].
        intros c [Hc _]. exact Hc. }
      eexists. split; [apply (ascii_encode Ha)|].
      unfold line_for, expected_group. rewrite Eo.
      apply (ascii_encode Ha).
Qed.

Lemma mem_output_plain (fpm items : dict RuntimeOptimized.MapValue) :
    mem_steps ijson_items (records input) [] = Ok fpm ->
    incl items fpm ->
    exists lines,
      mem_output input items = Ok (List.concat lines) /\
      Forall2 (line_for ijson_items (records input))
              (filter (duplicated ijson_items (records input))
                      (map fst items)) lines.
Proof.
    intros Hs. destruct (index_steps_tracks Hs) as [Ht Hw].
    induction items as [|[k mv] items IH]; intros Hi.
    - exists []. split; [reflexivity|constructor].
    - destruct IH as (lines & Ho & Hl).
      { intros x Hx. apply Hi. now right. }
      pose proof (dict_wf_in Hw (Hi _ (or_introl eq_refl))) as Hg.
      specialize (Ht k).
      destruct (occurrences ijson_items k (records input)) as [|r1 more]
        eqn:Eo; [congruence|].
      assert (Hmv : mv = RuntimeOptimized.mkMapValue
                           (map location (r1 :: more)))
        by (rewrite Hg in Ht; congruence).
      subst mv. clear Ht.
      cbn [mem_output filter fst RuntimeOptimized.position_array].
      change (map fst ((k, RuntimeOptimized.mkMapValue
                             (map location (r1 :: more))) :: items))
        with (k :: map fst items).
      cbn [filter]. unfold duplicated at 1. rewrite Eo, length_map.
      destruct (1 <? List.length (r1 :: more));
        [|exists lines; split; assumption].
      destruct (plain_group Eo) as (-> & line & -> & Hline).
      rewrite Ho. exists (line :: lines). split; [reflexivity|].
      constructor; assumption.
Qed.

End PlainOutput.

Section PlainDisk.

Variable ijson_items : bytes -> option (list pyval).
Variable input : bytes.
Hypothesis Hplain : plain input = true.
Hypothesis Hok :
    forallb (plain_record_ok ijson_items) (records input) = true.

Lemma ledger_step_total_plain (st : nat * dict entry) (r : nat * bytes) :
    In r (records input) ->
    exists st', ledger_step ijson_items input st r = Ok st'.
Proof.
    intros Hin.
    destruct (plain_record_facts Hok Hin) as (Hl & (s & Hk & Hs) & _).
    pose proof (plain_record Hplain Hl) as Hr.
    unfold ledger_step. rewrite Hk.
    destruct (dict_get (KStr s) (snd st)) as [[loc g]|]; [|eauto].
    rewrite (plain_decode Hr).
    assert (Hcur : ascii_text (rstrip (map b2n (snd r)))).
    { apply rstrip_by_Forall. now apply plain_ascii. }
    destruct g as [g|].
    - unfold encodable. rewrite ascii_encode; [eauto|].
      repeat apply ascii_app; try assumption;
        apply ascii_check; reflexivity.
    - destruct (plain_text_read_total (fst loc) (snd loc) Hplain)
        as (f & -> & Hf).
      unfold encodable. rewrite ascii_encode; [eauto|].
      apply group_line_ascii; [assumption|].
      repeat constructor; [|assumption].
      now apply rstrip_by_Forall.
Qed.

Lemma ledger_steps_total_plain (recs : list (nat * bytes))
        (st : nat * dict entry) :
    incl recs (records input) ->
    exists st', ledger_steps ijson_items input recs st = Ok st'.
Proof.
    revert st. induction recs as [|r recs IH]; intros st Hi; simpl; [eauto|].
    destruct (@ledger_step_total_plain st r (Hi r (or_introl eq_refl)))
      as (st1 & ->).
    apply IH. intros x Hx. apply Hi. now right.
Qed.

  (** The files of the groups, in the order of the ledger, hold the
      lines of the duplicated keys. *)
Lemma disk_groups_plain (lst : nat * dict entry) (entries : dict entry) :
    ledger_steps ijson_items input (records input) (0, []) = Ok lst ->
    incl entries (snd lst) ->
    Forall2 (line_for ijson_items (records input))
            (filter (duplicated ijson_items (records input))
                    (map fst entries))
            (map group_bytes (groups_of entries)).
Proof.
    intros Hs.
    pose proof (ledger_steps_ok ledger_ok_init Hs) as (Hw & _).
    induction entries as [|[k [loc ge]] entries IH]; intros Hi.
    - constructor.
    - assert (IH' := IH (fun x Hx => Hi x (or_intror Hx))). clear IH.
      pose proof (dict_wf_in Hw (Hi _ (or_introl eq_refl))) as Hg.
      pose proof (ledger_steps_tracks Hs k) as Ht.
      change (map fst ((k, (loc, ge)) :: entries))
        with (k :: map fst entries).
      cbn [filter]. unfold duplicated at 1.
      destruct (occurrences ijson_items k (records input))
        as [|r1 [|r2 more]] eqn:Eo.
      + congruence.
      + rewrite Hg in Ht. inversion Ht; subst. exact IH'.
      + destruct Ht as (g & p1 & ps & Hg' & Hk & Hp & H1 & H2).
        rewrite Hg in Hg'. inversion Hg'; subst; clear Hg'.
        change (groups_of ((k, (location r1, Some g)) :: entries))
          with (g :: groups_of entries).
        simpl. constructor; [|exact IH'].
        assert (Hin : incl (r1 :: r2 :: more) (records input)).
        { rewrite <- Eo. apply occurrences_incl. }
        destruct (plain_record_facts Hok (Hin r1 (or_introl eq_refl)))
          as (Hl1 & _).
        destruct (plain_record_facts
                    Hok (Hin r2 (or_intror (or_introl eq_refl))))
          as (_ & (s & Hk2 & _) & _).
        assert (Hh : has_key ijson_items k r2 = true).
        { assert (Hin2 : In r2 (occurrences ijson_items k (records input)))
            by (rewrite Eo; right; now left).
          apply filter_In in Hin2. tauto. }
        unfold has_key in Hh. rewrite Hk2 in Hh. apply py_eqb_str in Hh.
        rewrite Hk2 in Hk. inversion Hk as [Hkey].
        apply (reread_piece_text Hplain Hl1) in H1.
        apply line_pieces_text in H2.
        destruct (plain_group Hplain Hok Eo) as (_ & line & He & Hline).
        unfold group_bytes. rewrite <- Hkey, <- Hh, Hp, H1, H2.
        change (record_text r1 :: map record_text (r2 :: more))
          with (map record_text (r1 :: r2 :: more)).
        rewrite He. exact Hline.
Qed.

End PlainDisk.

Section PlainRun.

Variable ijson_items : bytes -> option (list pyval).
Variable scandir_order : list string -> list string.
Variable input : bytes.

Lemma mem_plain_lines (fpm : dict RuntimeOptimized.MapValue) :
    plain input = true ->
    forallb (plain_record_ok ijson_items) (records input) = true ->
    mem_steps ijson_items (records input) [] = Ok fpm ->
    exists lines,
      mem_output input fpm = Ok (List.concat lines) /\
      Forall2 (line_for ijson_items (records input))
              (dup_keys ijson_items (records input)) lines.
Proof.
    intros Hplain Hok Es.
    destruct (mem_output_plain Hplain Hok Es (incl_refl fpm))
      as (lines & Ho & Hl).
    exists lines. split; [assumption|].
    pose proof (mem_steps_keys Es) as Hkeys. simpl in Hkeys.
    unfold dup_keys. rewrite <- Hkeys. exact Hl.
Qed.

  (** On a plain input (ASCII bytes, no carriage return) whose records
      have ASCII strings as fingerprints and end with a character other
      than a comma, the memory-resident script completes, and its output
      is made of one line for every fingerprint that occurs more than
      once, in the order in which these fingerprints first occur in the
      input; the line holds the header and the records of the
      fingerprint, each as it is in the input without its trailing
      white space, in the order of the input. *)
Theorem plain_memory_output (od : string) (fs0 : filesystem) :
    plain input = true ->
    forallb (plain_record_ok ijson_items) (records input) = true ->
    exists self lines,
      RuntimeOptimized.main ijson_items (Some input) od fs0
      = (fs_store (out_file od) (List.concat lines)
                  (rmtree (out_dir od) fs0), Ok self) /\
      Forall2 (line_for ijson_items (records input))
              (dup_keys ijson_items (records input)) lines.
Proof.
    intros Hplain Hok.
    pose proof (mem_main_spec ijson_items input od fs0) as H.
    destruct (@mem_steps_total ijson_items (records input) []
                (plain_keys_total Hok)) as (fpm & Es).
    rewrite Es in H.
    destruct (mem_plain_lines Hplain Hok Es) as (lines & Ho & Hl).
    rewrite Ho in H. rewrite H. eexists. exists lines.
    split; [reflexivity|assumption].
Qed.


End PlainRun.

(** [sample_abaa] is plain; its fingerprints are [A] and [B], and every
    record ends with a closing brace. *)
Lemma plain_memory_output_witness :
  exists self lines,
    RuntimeOptimized.main Json.ijson_items (Some sample_abaa) "out" sample_fs
    = (fs_store (out_file "out") (List.concat lines)
                (rmtree (out_dir "out") sample_fs), Ok self) /\
    Forall2 (line_for Json.ijson_items (records sample_abaa))
            (dup_keys Json.ijson_items (records sample_abaa)) lines.
Proof.
  apply (@plain_memory_output Json.ijson_items sample_abaa "out" sample_fs).
  - vm_compute. reflexivity.
  - vm_compute. reflexivity.
Defined.


(** ** A scan that fails leaves its temporary files *)

Section FailedScan.

Variable ijson_items : bytes -> option (list pyval).
Variable scandir_order : list string -> list string.
Variable input : bytes.

Lemma disk_steps_app (temp_dir : string) (a b : list (nat * bytes))
        (st : nat * dict MemoryScalable.MapValue) (fs : filesystem) :
    disk_steps ijson_items temp_dir input (a ++ b) st fs
    = match disk_steps ijson_items temp_dir input a st fs with
      | (fs', Ok st') => disk_steps ijson_items temp_dir input b st' fs'
      | (fs', Raise e) => (fs', Raise e)
      end.
Proof.
    revert st fs. induction a as [|r a IH]; intros st fs; simpl.
    - reflexivity.
    - unfold bind.
      destruct (disk_step ijson_items temp_dir input st r fs) as [fs1 [st1|e]];
        [apply IH|reflexivity].
Qed.

Lemma groups_duplicated (recs : list (nat * bytes))
        (lst : nat * dict entry) (entries : dict entry) :
    ledger_steps ijson_items input recs (0, []) = Ok lst ->
    incl entries (snd lst) ->
    List.length (groups_of entries)
    = List.length (filter (duplicated ijson_items recs) (map fst entries)).
Proof.
    intros Hs.
    pose proof (ledger_steps_ok ledger_ok_init Hs) as (Hw & _).
    induction entries as [|[k [loc ge]] entries IH]; intros Hi;
      [reflexivity|].
    assert (IH' := IH (fun x Hx => Hi x (or_intror Hx))). clear IH.
    pose proof (dict_wf_in Hw (Hi _ (or_introl eq_refl))) as Hg.
    pose proof (ledger_steps_tracks Hs k) as Ht.
    change (map fst ((k, (loc, ge)) :: entries)) with (k :: map fst entries).
    cbn [filter]. unfold duplicated at 1.
    destruct (occurrences ijson_items k recs) as [|r1 [|r2 more]].
    - congruence.
    - rewrite Hg in Ht. inversion Ht; subst. exact IH'.
    - destruct Ht as (g & p1 & ps & Hg' & _).
      rewrite Hg in Hg'. inversion Hg'; subst.
      change (groups_of ((k, (location r1, Some g)) :: entries))
        with (g :: groups_of entries).
      simpl. now rewrite IH'.
Qed.

Lemma counter_counts_duplicated (recs : list (nat * bytes))
        (lst : nat * dict entry) :
    ledger_steps ijson_items input recs (0, []) = Ok lst ->
    fst lst = List.length (dup_keys ijson_items recs).
Proof.
    intros Hs. pose proof (ledger_steps_ok ledger_ok_init Hs) as Hok.
    destruct lst as [count led]. simpl.
    pose proof (ledger_steps_keys Hs) as Hkeys. simpl in Hkeys.
    unfold dup_keys. rewrite <- Hkeys.
    pose proof (groups_duplicated Hs (incl_refl _)) as Hg. simpl in Hg.
    rewrite <- Hg.
    rewrite <- (length_map g_index).
    rewrite (Permutation_length (groups_index_perm Hok)).
    symmetry. apply length_seq.
Qed.

  (** When the loop of the disk-resident script has gone through the
      records before a line and the extraction raises on that line, the
      script stops with that exception in the file system the loop had
      reached: the files of the groups written so far, one for every
      fingerprint that occurred more than once before the line, stay in
      the temporary directory, which is emptied only by
      [merge_and_create_output]. *)
Theorem failed_scan_leaves_temporary_files
          (pre post : list (nat * bytes)) (r : nat * bytes) (e : error)
          (od : string) (fs0 fs' : filesystem)
          (st : nat * dict MemoryScalable.MapValue) :
    records input = pre ++ r :: post ->
    disk_steps ijson_items (temp_dir_of od) input pre (0, [])
               (rmtree (temp_dir_of od) (rmtree (out_dir od) fs0))
    = (fs', Ok st) ->
    fingerprint_key ijson_items (snd r) = Raise e ->
    MemoryScalable.main ijson_items scandir_order (Some input) od fs0
    = (fs', Raise e) /\
    fst st = List.length (dup_keys ijson_items pre) /\
    MemoryScalable.listdir (temp_dir_of od) fs'
    = temp_names (List.length (dup_keys ijson_items pre)).
Proof.
    intros Hrec Hpre Hk.
    destruct (reached_refines (listdir_rmtree _ _) Hpre)
      as (lst & Hs & (Hc & _ & Hls) & _).
    rewrite <- (counter_counts_duplicated Hs), <- Hc.
    split; [|split; [reflexivity|now rewrite Hc]].
    unfold MemoryScalable.main, bind.
    unfold MemoryScalable.process_data, MemoryScalable.init, bind,
      clean_and_create_directory.
    cbn [MemoryScalable.output_directory MemoryScalable.temp_directory
         MemoryScalable.output_file MemoryScalable.finger_print_map].
    fold (out_dir od).
    change (out_dir od ++ "/" ++ "temp")%string with (temp_dir_of od).
    rewrite disk_loop_steps by lia. fold (records input).
    rewrite Hrec, disk_steps_app.
    match goal with
    | |- context [disk_steps ?a1 ?a2 ?a3 pre ?a5 ?a6] =>
      replace (disk_steps a1 a2 a3 pre a5 a6) with (fs', @Ok _ st)
        by (symmetry; exact Hpre)
    end.
    cbn [disk_steps]. unfold bind, disk_step, lift_result.
    cbn [fst snd]. rewrite Hk. reflexivity.
Qed.

End FailedScan.

(** In [sample_aa_bad] the extraction raises [IndexError] on the third
    line, after the fingerprint A has occurred twice: one temporary file
    is left. *)
Lemma failed_scan_witness :
  let run := disk_prefix_run_in sample_fs sample_aa_bad 2 in
  MemoryScalable.main Json.ijson_items (@rev string) (Some sample_aa_bad)
                      "out" sample_fs
  = (fst run, Raise IndexError) /\
  fst (state_of (0, []) (snd run))
  = List.length (dup_keys Json.ijson_items
                          (firstn 2 (records sample_aa_bad))) /\
  MemoryScalable.listdir (temp_dir_of "out") (fst run)
  = temp_names (List.length (dup_keys Json.ijson_items
                                      (firstn 2 (records sample_aa_bad)))).
Proof.
  intros run.
  apply (@failed_scan_leaves_temporary_files Json.ijson_items (@rev string)
           sample_aa_bad (firstn 2 (records sample_aa_bad))
           (skipn 3 (records sample_aa_bad))
           (nth 2 (records sample_aa_bad) (0, [])) IndexError
           "out" sample_fs (fst run) (state_of (0, []) (snd run))).
  - vm_compute. reflexivity.
  - vm_compute. reflexivity.
  - vm_compute. reflexivity.
Defined.

(** ** Both scripts find the same duplicated fingerprints *)

Lemma filter_keys (V : Type) (p : pykey * V -> bool) (q : pykey -> bool)
      (d : dict V) :
  (forall e, In e d -> p e = q (fst e)) ->
  map fst (filter p d) = filter q (map fst d).
Proof.
  induction d as [|e d IH]; intros H; [reflexivity|].
  simpl. rewrite (H e (or_introl eq_refl)).
  destruct (q (fst e)); simpl; rewrite IH; auto;
    intros x Hx; apply H; now right.
Qed.

Section SameFingerprints.

Variable ijson_items : bytes -> option (list pyval).
Variable input : bytes.

  (** Whatever the input, when [process_data] completes the index
      entries that count as duplicated (more than one position in the
      memory-resident script, the tag [TAG_EXISTING] in the
      disk-resident one) are those of the fingerprints that occur more
      than once, in order of first occurrence: both scripts write a
      group for the same fingerprints. *)
Theorem duplicated_fingerprints_identified :
    match RuntimeOptimized.process_data ijson_items RuntimeOptimized.init
                                        (Some input) with
    | Ok self =>
      map fst (filter has_duplicates (RuntimeOptimized.finger_print_map self))
      = dup_keys ijson_items (records input)
    | Raise _ => True
    end /\
    forall od fs0,
      match MemoryScalable.process_data ijson_items MemoryScalable.init
                                        (Some input) od fs0 with
      | (_, Ok self) =>
        map fst (filter is_existing (MemoryScalable.finger_print_map self))
        = dup_keys ijson_items (records input)
      | (_, Raise _) => True
      end.
Proof.
    split.
    - unfold RuntimeOptimized.process_data, RuntimeOptimized.init.
      cbn [RuntimeOptimized.finger_print_map].
      rewrite mem_loop_steps by lia. fold (records input).
      destruct (mem_steps ijson_items (records input) []) as [fpm|e] eqn:E;
        [|exact I].
      cbn [RuntimeOptimized.finger_print_map].
      destruct (index_steps_tracks E) as [Ht Hw].
      pose proof (mem_steps_keys E) as Hkeys. simpl in Hkeys.
      unfold dup_keys. rewrite <- Hkeys. apply filter_keys.
      intros [k mv] Hin. pose proof (dict_wf_in Hw Hin) as Hg.
      specialize (Ht k). unfold has_duplicates, duplicated. simpl.
      destruct (occurrences ijson_items k (records input)) as [|r1 more];
        [congruence|].
      rewrite Hg in Ht. inversion Ht; subst mv. simpl.
      now rewrite length_map.
    - intros od fs0.
      pose proof (disk_process_data_spec ijson_items input od fs0) as H.
      destruct (ledger_steps ijson_items input (records input) (0, []))
        as [[count led]|e] eqn:Es.
      + destruct H as (fs' & fpm & -> & (_ & Hrel & _) & _).
        cbn [MemoryScalable.finger_print_map fst snd] in *.
        pose proof (ledger_steps_ok ledger_ok_init Es) as (Hw & _).
        pose proof (dict_rel_wf Hrel Hw) as Hwf.
        pose proof (ledger_steps_keys Es) as Hkeys. simpl in Hkeys.
        unfold dup_keys. rewrite <- Hkeys, <- (dict_rel_keys Hrel).
        apply filter_keys.
        intros [k mv] Hin. pose proof (dict_wf_in Hwf Hin) as Hg.
        destruct (dict_rel_get_some_l Hrel Hg)
          as ([loc ge] & Eg & _ & _ & Ha). cbn [snd] in Ha.
        pose proof (ledger_steps_tracks Es k) as Ht. simpl in Ht.
        unfold is_existing, duplicated. cbn [fst snd].
        destruct (occurrences ijson_items k (records input))
          as [|r1 [|r2 more]].
        * congruence.
        * rewrite Eg in Ht. inversion Ht; subst.
          destruct Ha as (-> & _). reflexivity.
        * destruct Ht as (g & p1 & ps & Hg' & _).
          rewrite Eg in Hg'. inversion Hg'; subst.
          destruct Ha as (-> & _). reflexivity.
      + destruct H as (fs' & -> & _). exact I.
Qed.

End SameFingerprints.

(** ** UTF-8: what is decoded is encoded back to the same bytes *)

Lemma in_range_iff (lo hi x : N) :
  in_range lo hi x = true <-> (lo <= x /\ x <= hi)%N.
Proof.
  unfold in_range. rewrite andb_true_iff, !N.leb_le. tauto.
Qed.

Lemma in_range_out (lo hi x : N) :
  (x < lo \/ hi < x)%N -> in_range lo hi x = false.
Proof.
  intros H. destruct (in_range lo hi x) eqn:E; [|reflexivity].
  apply in_range_iff in E. lia.
Qed.

Lemma encode1_one (a : N) :
  (a < 128)%N -> utf8_encode1 a = Some [n2b a].
Proof.
  intros H. unfold utf8_encode1. apply N.ltb_lt in H. now rewrite H.
Qed.

Lemma encode1_two (a b : N) :
  (194 <= a <= 223)%N -> (128 <= b <= 191)%N ->
  utf8_encode1 ((a - 192) * 64 + (b - 128)) = Some [n2b a; n2b b].
Proof.
  intros Ha Hb. set (c := ((a - 192) * 64 + (b - 128))%N).
  assert (Hq : (c / 64 = a - 192)%N)
    by (symmetry; apply N.div_unique with (r := (b - 128)%N);
        unfold c; lia).
  assert (Hr : (c mod 64 = b - 128)%N)
    by (symmetry; apply N.mod_unique with (q := (a - 192)%N);
        unfold c; lia).
  unfold utf8_encode1.
  replace (c <? 128)%N with false by (symmetry; apply N.ltb_ge; unfold c; lia).
  replace (c <? 2048)%N with true by (symmetry; apply N.ltb_lt; unfold c; lia).
  rewrite Hq, Hr.
  replace (192 + (a - 192))%N with a by lia.
  replace (128 + (b - 128))%N with b by lia.
  reflexivity.
Qed.

Lemma encode1_three (a b d : N) :
  (224 <= a <= 239)%N ->
  ((if (a =? 224)%N then 160 else 128) <= b
   <= (if (a =? 237)%N then 159 else 191))%N ->
  (128 <= d <= 191)%N ->
  utf8_encode1 ((a - 224) * 4096 + (b - 128) * 64 + (d - 128))
  = Some [n2b a; n2b b; n2b d].
Proof.
  intros Ha Hb Hd.
  assert (Hb' : (128 <= b <= 191)%N)
    by (destruct (a =? 224)%N, (a =? 237)%N; lia).
  set (c := ((a - 224) * 4096 + (b - 128) * 64 + (d - 128))%N).
  assert (H1 : (c / 4096 = a - 224)%N)
    by (symmetry;
        apply N.div_unique with (r := ((b - 128) * 64 + (d - 128))%N);
        unfold c; lia).
  assert (H2 : (c / 64 = (a - 224) * 64 + (b - 128))%N)
    by (symmetry; apply N.div_unique with (r := (d - 128)%N);
        unfold c; lia).
  assert (H3 : (((a - 224) * 64 + (b - 128)) mod 64 = b - 128)%N)
    by (symmetry; apply N.mod_unique with (q := (a - 224)%N); lia).
  assert (H4 : (c mod 64 = d - 128)%N)
    by (symmetry;
        apply N.mod_unique with (q := ((a - 224) * 64 + (b - 128))%N);
        unfold c; lia).
  assert (Hlo : (2048 <= c)%N).
  { destruct (a =? 224)%N eqn:E; [|apply N.eqb_neq in E; unfold c; lia].
    unfold c. lia. }
  assert (Hs : in_range 55296 57343 c = false).
  { apply in_range_out. destruct (a =? 237)%N eqn:E.
    - apply N.eqb_eq in E. left. unfold c.
      destruct (a =? 224)%N; lia.
    - apply N.eqb_neq in E. unfold c. lia. }
  unfold utf8_encode1.
  replace (c <? 128)%N with false by (symmetry; apply N.ltb_ge; lia).
  replace (c <? 2048)%N with false by (symmetry; apply N.ltb_ge; lia).
  rewrite Hs.
  replace (c <? 65536)%N with true by (symmetry; apply N.ltb_lt; unfold c; lia).
  rewrite H1, H2, H3, H4.
  replace (224 + (a - 224))%N with a by lia.
  replace (128 + (b - 128))%N with b by lia.
  replace (128 + (d - 128))%N with d by lia.
  reflexivity.
Qed.

Lemma encode1_four (a b d e : N) :
  (240 <= a <= 244)%N ->
  ((if (a =? 240)%N then 144 else 128) <= b
   <= (if (a =? 244)%N then 143 else 191))%N ->
  (128 <= d <= 191)%N -> (128 <= e <= 191)%N ->
  utf8_encode1 ((a - 240) * 262144 + (b - 128) * 4096 + (d - 128) * 64
                + (e - 128))
  = Some [n2b a; n2b b; n2b d; n2b e].
Proof.
  intros Ha Hb Hd He.
  assert (Hb' : (128 <= b <= 191)%N)
    by (destruct (a =? 240)%N, (a =? 244)%N; lia).
  set (c := ((a - 240) * 262144 + (b - 128) * 4096 + (d - 128) * 64
             + (e - 128))%N).
  assert (H1 : (c / 262144 = a - 240)%N)
    by (symmetry;
        apply N.div_unique
          with (r := ((b - 128) * 4096 + (d - 128) * 64 + (e - 128))%N);
        unfold c; lia).
  assert (H2 : (c / 4096 = (a - 240) * 64 + (b - 128))%N)
    by (symmetry;
        apply N.div_unique with (r := ((d - 128) * 64 + (e - 128))%N);
        unfold c; lia).
  assert (H3 : (((a - 240) * 64 + (b - 128)) mod 64 = b - 128)%N)
    by (symmetry; apply N.mod_unique with (q := (a - 240)%N); lia).
  assert (H4 : (c / 64
                = ((a - 240) * 64 + (b - 128)) * 64 + (d - 128))%N)
    by (symmetry; apply N.div_unique with (r := (e - 128)%N);
        unfold c; lia).
  assert (H5 : ((((a - 240) * 64 + (b - 128)) * 64 + (d - 128)) mod 64
                = d - 128)%N)
    by (symmetry;
        apply N.mod_unique with (q := ((a - 240) * 64 + (b - 128))%N); lia).
  assert (H6 : (c mod 64 = e - 128)%N)
    by (symmetry;
        apply N.mod_unique
          with (q := (((a - 240) * 64 + (b - 128)) * 64 + (d - 128))%N);
        unfold c; lia).
  assert (Hlo : (65536 <= c)%N).
  { destruct (a =? 240)%N eqn:E; [|apply N.eqb_neq in E; unfold c; lia].
    unfold c. lia. }
  assert (Hhi : (c < 1114112)%N).
  { destruct (a =? 244)%N eqn:E.
    - apply N.eqb_eq in E. unfold c. destruct (a =? 240)%N; lia.
    - apply N.eqb_neq in E. unfold c. lia. }
  unfold utf8_encode1.
  replace (c <? 128)%N with false by (symmetry; apply N.ltb_ge; lia).
  replace (c <? 2048)%N with false by (symmetry; apply N.ltb_ge; lia).
  rewrite (in_range_out (lo := 55296) (hi := 57343)) by lia.
  replace (c <? 65536)%N with false by (symmetry; apply N.ltb_ge; lia).
  replace (c <? 1114112)%N with true by (symmetry; apply N.ltb_lt; lia).
  rewrite H1, H2, H3, H4, H5, H6.
  replace (240 + (a - 240))%N with a by lia.
  replace (128 + (b - 128))%N with b by lia.
  replace (128 + (d - 128))%N with d by lia.
  replace (128 + (e - 128))%N with e by lia.
  reflexivity.
Qed.

Lemma cont_iff (b : byte) :
  cont b = true -> (128 <= b2n b <= 191)%N.
Proof. unfold cont. apply in_range_iff. Qed.

Lemma option_map_cons (c : N) (o : option text) (t : text) :
  option_map (cons c) o = Some t -> exists t', o = Some t' /\ t = c :: t'.
Proof.
  destruct o as [t'|]; simpl; [|discriminate].
  intros H; inversion H. eauto.
Qed.

Lemma utf8_decode_encode (bs : bytes) (t : text) :
  utf8_decode bs = Some t -> utf8_encode t = Some bs.
Proof.
  remember (List.length bs) as n eqn:Hn. revert bs t Hn.
  induction n as [n IH] using lt_wf_ind. intros bs t Hn H.
  destruct bs as [|b0 r0]; [inversion H; reflexivity|].
  cbn [utf8_decode] in H.
  destruct (b2n b0 <? 128)%N eqn:E0.
  { apply option_map_cons in H. destruct H as (t' & Ht & ->).
    cbn [utf8_encode]. apply N.ltb_lt in E0.
    rewrite (encode1_one E0), n2b_b2n.
    rewrite (IH (List.length r0)) with (bs := r0) (t := t');
      [reflexivity|subst n; simpl; lia|reflexivity|assumption]. }
  destruct r0 as [|b1 r1]; [discriminate|].
  destruct (in_range 194 223 (b2n b0)) eqn:E1.
  { destruct (cont b1) eqn:C1; [|discriminate].
    apply option_map_cons in H. destruct H as (t' & Ht & ->).
    cbn [utf8_encode]. unfold low6.
    rewrite (encode1_two (proj1 (in_range_iff _ _ _) E1) (cont_iff C1)).
    rewrite !n2b_b2n.
    rewrite (IH (List.length r1)) with (bs := r1) (t := t');
      [reflexivity|subst n; simpl; lia|reflexivity|assumption]. }
  destruct r1 as [|b2 r2]; [discriminate|].
  destruct (in_range 224 239 (b2n b0)) eqn:E2.
  { match type of H with
    | (if ?c then _ else _) = _ => destruct c eqn:C; [|discriminate]
    end.
    apply andb_true_iff in C. destruct C as [C1 C2].
    apply option_map_cons in H. destruct H as (t' & Ht & ->).
    cbn [utf8_encode]. unfold low6.
    rewrite (encode1_three (proj1 (in_range_iff _ _ _) E2)
                           (proj1 (in_range_iff _ _ _) C1) (cont_iff C2)).
    rewrite !n2b_b2n.
    rewrite (IH (List.length r2)) with (bs := r2) (t := t');
      [reflexivity|subst n; simpl; lia|reflexivity|assumption]. }
  destruct r2 as [|b3 r3]; [discriminate|].
  destruct (in_range 240 244 (b2n b0)) eqn:E3; [|discriminate].
  match type of H with
  | (if ?c then _ else _) = _ => destruct c eqn:C; [|discriminate]
  end.
  apply andb_true_iff in C. destruct C as [C C3].
  apply andb_true_iff in C. destruct C as [C1 C2].
  apply option_map_cons in H. destruct H as (t' & Ht & ->).
  cbn [utf8_encode]. unfold low6.
  rewrite (encode1_four (proj1 (in_range_iff _ _ _) E3)
                        (proj1 (in_range_iff _ _ _) C1)
                        (cont_iff C2) (cont_iff C3)).
  rewrite !n2b_b2n.
  rewrite (IH (List.length r3)) with (bs := r3) (t := t');
    [reflexivity|subst n; simpl; lia|reflexivity|assumption].
Qed.

(** ** Records written from the scan are written byte for byte *)

Lemma drop_while_split (A : Type) (p : A -> bool) (l : list A) :
  exists w, l = w ++ drop_while p l /\ Forall (fun x => p x = true) w.
Proof.
  induction l as [|x l IH]; simpl.
  - exists []. split; [reflexivity|constructor].
  - destruct (p x) eqn:E.
    + destruct IH as (w & Hw & Hf). exists (x :: w).
      split; [simpl; now rewrite <- Hw|now constructor].
    + exists []. split; [reflexivity|constructor].
Qed.

Lemma drop_while_idem (A : Type) (p : A -> bool) (l : list A) :
  drop_while p (drop_while p l) = drop_while p l.
Proof.
  induction l as [|x l IH]; simpl; [reflexivity|].
  destruct (p x) eqn:E; [assumption|]. simpl. now rewrite E.
Qed.

Lemma rstrip_by_split (p : N -> bool) (t : text) :
  exists w, t = rstrip_by p t ++ w /\ Forall (fun c => p c = true) w.
Proof.
  unfold rstrip_by. destruct (drop_while_split p (rev t)) as (w & Hw & Hf).
  exists (rev w). split.
  - rewrite <- rev_app_distr, <- Hw. symmetry. apply rev_involutive.
  - now apply Forall_rev.
Qed.

Lemma rstrip_by_idem (p : N -> bool) (t : text) :
  rstrip_by p (rstrip_by p t) = rstrip_by p t.
Proof.
  unfold rstrip_by. now rewrite rev_involutive, drop_while_idem.
Qed.

(** A line that is UTF-8, and the encoding of its text without trailing
    white space. *)
Lemma stripped_line (line rec : bytes) (cur : text) :
  utf8_decode line = Some cur -> utf8_encode (rstrip cur) = Some rec ->
  stripped line rec.
Proof.
  intros Hd He. apply utf8_decode_encode in Hd.
  destruct (rstrip_by_split py_isspace cur) as (w & Hw & Hf).
  fold (rstrip cur) in Hw. rewrite Hw, utf8_encode_app, He in Hd.
  destruct (utf8_encode w) as [ws|] eqn:Ew; [|discriminate].
  inversion Hd; subst line.
  exists ws, w, (rstrip cur). repeat split; try assumption.
  apply rstrip_by_idem.
Qed.

Section Verbatim.

Variable ijson_items : bytes -> option (list pyval).
Variable temp_dir : string.
Variable input : bytes.

  (** In any state the loop of the disk-resident script reaches, an
      iteration on a record whose fingerprint is in the index already
      (a second or later occurrence) that completes leaves the file of
      that fingerprint ending with a comma, the bytes of the record as
      they are in the input without the bytes of its trailing white
      space, and the three closing bytes: a record is written from the
      scan byte for byte, whatever characters it holds. *)
Theorem scan_record_written_verbatim
          (fs1 fs fs' : filesystem) (pre : list (nat * bytes))
          (r : nat * bytes) (st st' : nat * dict MemoryScalable.MapValue)
          (k : pykey) (mv : MemoryScalable.MapValue) :
    MemoryScalable.listdir temp_dir fs1 = [] ->
    disk_steps ijson_items temp_dir input pre (0, []) fs1 = (fs, Ok st) ->
    fingerprint_key ijson_items (snd r) = Ok k ->
    dict_get k (snd st) = Some mv ->
    disk_step ijson_items temp_dir input st r fs = (fs', Ok st') ->
    exists mv' body rec,
      dict_get k (snd st') = Some mv' /\
      MemoryScalable.tag mv' = MemoryScalable.TAG_EXISTING /\
      fs_lookup (MemoryScalable.path mv') fs'
      = Some (body ++ [x2c] ++ rec ++ sentinel_bytes) /\
      stripped (snd r) rec.
Proof.
    intros Hl Hpre Hk Hm Hstep.
    destruct (reached_refines Hl Hpre) as (lst & _ & Hr & Hok & _).
    destruct (disk_step_ok_inv Hr Hok Hstep) as (lst' & Hs & Hr' & _).
    destruct Hr as (_ & Hrel & _), Hr' as (_ & Hrel' & _).
    destruct (dict_rel_get_some_l Hrel Hm) as ([loc ge] & Eg & _).
    assert (Hnew : exists idx key ps cur,
               ps <> [] /\ utf8_decode (snd r) = Some cur /\
               dict_get k (snd lst')
               = Some (loc, Some (mkGroup idx key (ps ++ [rstrip cur])))).
    { unfold ledger_step in Hs. rewrite Hk, Eg in Hs.
      destruct (utf8_decode (snd r)) as [cur|]; [|discriminate].
      destruct ge as [g|].
      - destruct (encodable _); inversion Hs; subst. simpl.
        exists (g_index g), (g_key g), (g_pieces g), cur.
        split; [|split; [reflexivity|]].
        + destruct (dict_get_in Eg) as (k0 & _ & Hin).
          destruct Hok as (_ & Hb & _). now destruct (Hb _ _ _ Hin).
        + apply dict_get_set_same, py_eqb_refl.
      - destruct (text_read input (fst loc) (snd loc)) as [f|];
          [|discriminate].
        destruct (encodable _); inversion Hs; subst. simpl.
        exists (fst lst + 1), k, [rstrip f], cur.
        split; [discriminate|]. split; [reflexivity|].
        apply dict_get_set_same, py_eqb_refl. }
    destruct Hnew as (idx & key & ps & cur & Hne & Hd & Eg').
    destruct (dict_rel_get_some Hrel' Eg') as (mv' & Hm' & _ & _ & Ha).
    cbn [snd g_index g_key g_pieces] in Ha.
    destruct Ha as (Ht & Hp & content & Hc & Hf & _).
    rewrite group_line_snoc in Hc by assumption.
    rewrite !utf8_encode_app, utf8_encode_comma, utf8_encode_sentinel in Hc.
    destruct (utf8_encode (group_header key)) as [hd|]; [|discriminate].
    destruct (utf8_encode (join_pieces ps)) as [jb|]; [|discriminate].
    destruct (utf8_encode (rstrip cur)) as [rec|] eqn:Er; [|discriminate].
    inversion Hc; subst content; clear Hc.
    exists mv', (hd ++ jb), rec.
    split; [assumption|]. split; [assumption|].
    split; [|now apply (stripped_line Hd)].
    rewrite Hp, Hf. reflexivity.
Qed.

End Verbatim.

(** The second record of [sample_aab] holds a character of two bytes
    and is the second occurrence of the fingerprint A. *)
Lemma scan_record_written_witness :
  let pre := disk_prefix_run sample_aab 1 in
  let post := disk_prefix_run sample_aab 2 in
  let r := nth 1 (records sample_aab) (0, []) in
  exists mv' body rec,
    dict_get key_A (snd (state_of (0, []) (snd post))) = Some mv' /\
    MemoryScalable.tag mv' = MemoryScalable.TAG_EXISTING /\
    fs_lookup (MemoryScalable.path mv') (fst post)
    = Some (body ++ [x2c] ++ rec ++ sentinel_bytes) /\
    stripped (snd r) rec.
Proof.
  intros pre post r.
  apply (@scan_record_written_verbatim Json.ijson_items "out/temp"
           sample_aab [] (fst pre) (fst post)
           (firstn 1 (records sample_aab)) r
           (state_of (0, []) (snd pre)) (state_of (0, []) (snd post))
           key_A
           (MemoryScalable.mkMapValue 0 49 MemoryScalable.TAG_NEW
                                      EmptyString None)).
  - reflexivity.
  - vm_compute. reflexivity.
  - vm_compute. reflexivity.
  - vm_compute. reflexivity.
  - vm_compute. reflexivity.
Defined.

(** ** How the temporary files are numbered *)

Section Numbering.

Variable ijson_items : bytes -> option (list pyval).
Variable temp_dir : string.
Variable input : bytes.

  (** In any state the loop of the disk-resident script reaches, an
      iteration on the second occurrence of a fingerprint gives that
      fingerprint the file whose number is one more than the number of
      fingerprints that occurred twice before: the temporary files are
      numbered in the order in which the fingerprints occur for the
      second time, not in the order in which they first occur. *)
Theorem file_numbered_by_second_occurrence
          (fs1 fs fs' : filesystem) (pre : list (nat * bytes))
          (r r1 : nat * bytes) (st st' : nat * dict MemoryScalable.MapValue)
          (k : pykey) :
    MemoryScalable.listdir temp_dir fs1 = [] ->
    disk_steps ijson_items temp_dir input pre (0, []) fs1 = (fs, Ok st) ->
    fingerprint_key ijson_items (snd r) = Ok k ->
    occurrences ijson_items k pre = [r1] ->
    disk_step ijson_items temp_dir input st r fs = (fs', Ok st') ->
    let n := List.length (dup_keys ijson_items pre) + 1 in
    fst st' = n /\
    exists mv',
      dict_get k (snd st') = Some mv' /\
      MemoryScalable.tag mv' = MemoryScalable.TAG_EXISTING /\
      MemoryScalable.path mv'
      = get_file_path temp_dir (str_nat n) JSONLINE_EXTENSION /\
      fs_lookup (MemoryScalable.path mv') fs = None /\
      fs_lookup (MemoryScalable.path mv') fs' <> None.
Proof.
    intros Hl Hpre Hk Ho Hstep n.
    destruct (reached_refines Hl Hpre) as (lst & Hsp & Hr & Hok & Htr).
    destruct (disk_step_ok_inv Hr Hok Hstep) as (lst' & Hs & Hr' & _).
    pose proof (counter_counts_duplicated Hsp) as Hcount.
    pose proof (Htr k) as Ht. rewrite Ho in Ht.
    unfold ledger_step in Hs. rewrite Hk, Ht in Hs.
    destruct (utf8_decode (snd r)) as [cur|]; [|discriminate].
    destruct (text_read input (fst (location r1)) (snd (location r1)))
      as [f|]; [|discriminate].
    destruct (encodable _); inversion Hs; subst lst'; clear Hs.
    destruct Hr as (Hc & _ & Hls), Hr' as (Hc' & Hrel' & _).
    simpl in Hc'. unfold n. rewrite <- Hcount. split; [assumption|].
    assert (Eg : dict_get k (dict_set k
                   (location r1,
                    Some (mkGroup (fst lst + 1) k [rstrip f; rstrip cur]))
                   (snd lst))
                 = Some (location r1,
                         Some (mkGroup (fst lst + 1) k
                                       [rstrip f; rstrip cur])))
      by (apply dict_get_set_same, py_eqb_refl).
    destruct (dict_rel_get_some Hrel' Eg) as (mv' & Hm' & _ & _ & Ha).
    cbn [snd g_index g_key g_pieces] in Ha.
    destruct Ha as (Htag & Hp & content & _ & Hf & _).
    exists mv'. split; [assumption|]. split; [assumption|].
    split; [assumption|]. rewrite Hp. split.
    - apply (temp_file_absent Hls). lia.
    - rewrite Hf. discriminate.
Qed.

End Numbering.

(** In [sample_abaa] the third record is the second occurrence of the
    fingerprint A, and no fingerprint has occurred twice before it. *)
Lemma file_numbered_witness :
  let pre := disk_prefix_run sample_abaa 2 in
  let post := disk_prefix_run sample_abaa 3 in
  let n := List.length (dup_keys Json.ijson_items
                                 (firstn 2 (records sample_abaa))) + 1 in
  fst (state_of (0, []) (snd post)) = n /\
  exists mv',
    dict_get key_A (snd (state_of (0, []) (snd post))) = Some mv' /\
    MemoryScalable.tag mv' = MemoryScalable.TAG_EXISTING /\
    MemoryScalable.path mv'
    = get_file_path "out/temp" (str_nat n) JSONLINE_EXTENSION /\
    fs_lookup (MemoryScalable.path mv') (fst pre) = None /\
    fs_lookup (MemoryScalable.path mv') (fst post) <> None.
Proof.
  intros pre post.
  apply (@file_numbered_by_second_occurrence Json.ijson_items "out/temp"
           sample_abaa [] (fst pre) (fst post)
           (firstn 2 (records sample_abaa))
           (nth 2 (records sample_abaa) (0, []))
           (nth 0 (records sample_abaa) (0, []))
           (state_of (0, []) (snd pre)) (state_of (0, []) (snd post))
           key_A).
  - reflexivity.
  - vm_compute. reflexivity.
  - vm_compute. reflexivity.
  - vm_compute. reflexivity.
  - vm_compute. reflexivity.
Defined.
